(** * IBM CIS DNS provider of the cluster ingress operator

    A shallow embedding of [pkg/dns/ibm/dns.go]: input validation, zone
    resolution, TTL normalisation and the two per-target reconciliation
    loops ([createOrUpdateDNSRecord], shared by [Ensure] and [Replace], and
    [Delete]), followed by the properties established for them.

    Conventions of the embedding.
    - A Go pointer that may be nil is an [option]; a Go slice that may be
      nil is an [option (list _)] where the code tests it against nil, and
      a plain [list] where it only takes its length or ranges over it.
    - Go's [error] is the inductive [error] below: it keeps the structure
      built by [fmt.Errorf] (with and without [%w]) and by
      [kerrors.NewAggregate].
    - [int64] and [int] values are [Z]; the code only compares and copies
      them, so no wrap-around can occur.
    - The remote service behind a [dnsclient.DnsClient] is an abstract state
      [St]; each client method is a function on that state. The record
      passed by pointer is returned with the outcome, so that writes through
      the pointer are visible. Every client call is appended to a trace. *)

From Stdlib Require Import ZArith Bool List Ascii String Lia.
From stdpp Require Import base option list strings gmap.

Local Open Scope string_scope.
Local Open Scope list_scope.
Local Open Scope Z_scope.

(** ** Go's [strings] package (the two functions the provider uses) *)

Module GoStrings.

(** [strings.HasSuffix]:
    [len(s) >= len(suffix) && s[len(s)-len(suffix):] == suffix]. *)
Definition HasSuffix (s suffix : string) : bool :=
  (String.length suffix <=? String.length s)%nat
  && String.eqb
       (substring (String.length s - String.length suffix)
                  (String.length suffix) s)
       suffix.

(** [strings.TrimSuffix]: [s] without the trailing [suffix], once, or [s]
    itself when it does not end with [suffix]. *)
Definition TrimSuffix (s suffix : string) : string :=
  if HasSuffix s suffix
  then substring 0 (String.length s - String.length suffix) s
  else s.

End GoStrings.

(** ** Errors *)

Set Warnings "-register-all".

Inductive error : Type :=
| Errorf (msg : string)                  (* fmt.Errorf(msg) *)
| Wrapf (msg : string) (cause : error)   (* fmt.Errorf(msg + "%w", cause) *)
| Aggregate (errs : list error).         (* a kerrors.Aggregate *)

Module kerrors.

(** [kerrors.NewAggregate]: nil for an empty list, otherwise one error
    holding every element of the list. *)
Definition NewAggregate (errs : list error) : option error :=
  match errs with
  | [] => None
  | _ :: _ => Some (Aggregate errs)
  end.

End kerrors.

(** ** API types *)

Module iov1.

Record DNSRecordSpec : Type := {
  DNSName : string;
  Targets : list string;
  RecordType : string;
  RecordTTL : Z
}.

Record DNSRecord : Type := { Spec : DNSRecordSpec }.

End iov1.

Module configv1.

Record DNSZone : Type := { ID : string }.

End configv1.

Module http.
Definition StatusNotFound : Z := 404.
End http.

Module core.
Record DetailedResponse : Type := { StatusCode : Z }.
End core.

Module dnsrecordsv1.

Record ListAllDnsRecordsOptions : Type := {
  lo_Type : option string;
  lo_Name : option string;
  lo_Content : option string
}.

Definition NewListAllDnsRecordsOptions : ListAllDnsRecordsOptions :=
  {| lo_Type := None; lo_Name := None; lo_Content := None |}.

Definition list_SetType (t : string) (o : ListAllDnsRecordsOptions) :=
  {| lo_Type := Some t; lo_Name := lo_Name o; lo_Content := lo_Content o |}.
Definition list_SetName (n : string) (o : ListAllDnsRecordsOptions) :=
  {| lo_Type := lo_Type o; lo_Name := Some n; lo_Content := lo_Content o |}.
Definition list_SetContent (c : string) (o : ListAllDnsRecordsOptions) :=
  {| lo_Type := lo_Type o; lo_Name := lo_Name o; lo_Content := Some c |}.

Record CreateDnsRecordOptions : Type := {
  co_Name : option string;
  co_Type : option string;
  co_Content : option string;
  co_TTL : option Z
}.

Definition NewCreateDnsRecordOptions : CreateDnsRecordOptions :=
  {| co_Name := None; co_Type := None; co_Content := None; co_TTL := None |}.

Definition create_SetName (n : string) (o : CreateDnsRecordOptions) :=
  {| co_Name := Some n; co_Type := co_Type o;
     co_Content := co_Content o; co_TTL := co_TTL o |}.
Definition create_SetType (t : string) (o : CreateDnsRecordOptions) :=
  {| co_Name := co_Name o; co_Type := Some t;
     co_Content := co_Content o; co_TTL := co_TTL o |}.
Definition create_SetContent (c : string) (o : CreateDnsRecordOptions) :=
  {| co_Name := co_Name o; co_Type := co_Type o;
     co_Content := Some c; co_TTL := co_TTL o |}.
Definition create_SetTTL (ttl : Z) (o : CreateDnsRecordOptions) :=
  {| co_Name := co_Name o; co_Type := co_Type o;
     co_Content := co_Content o; co_TTL := Some ttl |}.

Record UpdateDnsRecordOptions : Type := {
  uo_DnsrecordIdentifier : string;
  uo_Name : option string;
  uo_Type : option string;
  uo_Content : option string;
  uo_TTL : option Z
}.

Definition NewUpdateDnsRecordOptions (id : string) : UpdateDnsRecordOptions :=
  {| uo_DnsrecordIdentifier := id; uo_Name := None; uo_Type := None;
     uo_Content := None; uo_TTL := None |}.

Definition update_SetName (n : string) (o : UpdateDnsRecordOptions) :=
  {| uo_DnsrecordIdentifier := uo_DnsrecordIdentifier o; uo_Name := Some n;
     uo_Type := uo_Type o; uo_Content := uo_Content o; uo_TTL := uo_TTL o |}.
Definition update_SetType (t : string) (o : UpdateDnsRecordOptions) :=
  {| uo_DnsrecordIdentifier := uo_DnsrecordIdentifier o; uo_Name := uo_Name o;
     uo_Type := Some t; uo_Content := uo_Content o; uo_TTL := uo_TTL o |}.
Definition update_SetContent (c : string) (o : UpdateDnsRecordOptions) :=
  {| uo_DnsrecordIdentifier := uo_DnsrecordIdentifier o; uo_Name := uo_Name o;
     uo_Type := uo_Type o; uo_Content := Some c; uo_TTL := uo_TTL o |}.
Definition update_SetTTL (ttl : Z) (o : UpdateDnsRecordOptions) :=
  {| uo_DnsrecordIdentifier := uo_DnsrecordIdentifier o; uo_Name := uo_Name o;
     uo_Type := uo_Type o; uo_Content := uo_Content o; uo_TTL := Some ttl |}.

Record DeleteDnsRecordOptions : Type := { do_DnsrecordIdentifier : string }.

Definition NewDeleteDnsRecordOptions (id : string) : DeleteDnsRecordOptions :=
  {| do_DnsrecordIdentifier := id |}.

(** One listed entry; [rd_ID] is a [*string] in the SDK. *)
Record DnsrecordDetails : Type := {
  rd_ID : option string;
  rd_Name : string;
  rd_Type : string;
  rd_Content : string;
  rd_TTL : Z
}.

(** The body of a list response; [Result] is a slice the code compares
    with nil. *)
Record ListDnsrecordsResp : Type := {
  Result : option (list DnsrecordDetails)
}.

End dnsrecordsv1.

Export GoStrings iov1 configv1 core dnsrecordsv1.

(** ** The zone client interface

    [dnsclient.DnsClient], as far as the provider uses it. A method takes
    its options and the state of the remote service and gives its Go results
    and the next remote state. [CreateDnsRecord], [UpdateDnsRecord] and
    [DeleteDnsRecord] also return a result body in Go; the provider discards
    it, and it is left out here. *)

Definition ListReply : Type :=
  (option ListDnsrecordsResp * option DetailedResponse * option error)%type.

Definition CallReply : Type :=
  (option DetailedResponse * option error)%type.

Class DnsClient (St : Type) : Type := {
  ListAllDnsRecords : ListAllDnsRecordsOptions -> St -> ListReply * St;
  CreateDnsRecord : CreateDnsRecordOptions -> St -> CallReply * St;
  UpdateDnsRecord : UpdateDnsRecordOptions -> St -> CallReply * St;
  DeleteDnsRecord : DeleteDnsRecordOptions -> St -> CallReply * St
}.

(** The remote calls a provider operation issues, in order. *)
Inductive Call : Type :=
| CallList (opt : ListAllDnsRecordsOptions)
| CallCreate (opt : CreateDnsRecordOptions)
| CallUpdate (opt : UpdateDnsRecordOptions)
| CallDelete (opt : DeleteDnsRecordOptions).

(** How a Go function body leaves a statement: it falls through with a
    value, it executes [return err] with a non-nil error, or it panics on a
    nil pointer dereference. *)
Inductive Res (A : Type) : Type :=
| Normal (a : A)
| Return (e : error)
| Panic.

Arguments Normal {A} a.
Arguments Return {A} e.
Arguments Panic {A}.

(** How a provider operation ends for its caller. *)
Inductive Exit : Type :=
| Returned (err : option error)
| Panicked.

Definition defaultCISRecordTTL : Z := 120.

(** [response != nil && response.StatusCode != http.StatusNotFound] *)
Definition notNilNorNotFound (response : option DetailedResponse) : bool :=
  match response with
  | Some r => negb (StatusCode r =? http.StatusNotFound)
  | None => false
  end.

(** The condition of the [if] at dns.go:168. *)
Definition ttlOutOfRange (ttl : Z) : bool :=
  ((ttl >? 1) && (ttl <? 120)) || (ttl =? 0).

(** The TTL the record holds after the [if] at dns.go:168-171. *)
Definition effectiveTTL (ttl : Z) : Z :=
  if ttlOutOfRange ttl then defaultCISRecordTTL else ttl.

Definition setRecordTTL (ttl : Z) (record : DNSRecord) : DNSRecord :=
  {| Spec := {| DNSName := DNSName (Spec record);
                Targets := Targets (Spec record);
                RecordType := RecordType (Spec record);
                RecordTTL := ttl |} |}.

Definition validateInputDNSData (record : option DNSRecord) (zone : DNSZone)
  : option error :=
  let errs : list error := [] in
  let errs :=
    match record with
    | None => errs ++ [Errorf "validateInputDNSData: dns record is nil"]
    | Some record =>
        let errs :=
          if (String.length (DNSName (Spec record)) =? 0)%nat
          then errs ++ [Errorf "validateInputDNSData: dns record name is empty"]
          else errs in
        let errs :=
          if (String.length (RecordType (Spec record)) =? 0)%nat
          then errs ++ [Errorf "validateInputDNSData: dns record type is empty"]
          else errs in
        if (length (Targets (Spec record)) =? 0)%nat
        then errs ++ [Errorf "validateInputDNSData: dns record content is empty"]
        else errs
    end in
  let errs :=
    if (String.length (ID zone) =? 0)%nat
    then errs ++ [Errorf "validateInputDNSData: dns zone id is empty"]
    else errs in
  kerrors.NewAggregate errs.

(** ** The provider *)

Section Provider.

Context {St : Type} `{DnsClient St}.

(** [Provider.dnsServices]: the client of every configured zone, each
    standing for the remote state it talks to. *)
Record Provider : Type := { dnsServices : gmap string St }.

(** What the statements of a provider operation act on: the remote state of
    the resolved zone client, the calls issued so far and the lines logged
    so far. *)
Record World : Type := {
  remote : St;
  calls : list Call;
  logs : list string
}.

Definition M (A : Type) : Type := World -> Res A * World.

Definition ret {A : Type} (a : A) : M A := fun w => (Normal a, w).

Definition bind {A B : Type} (m : M A) (k : A -> M B) : M B :=
  fun w =>
    match m w with
    | (Normal a, w') => k a w'
    | (Return e, w') => (Return e, w')
    | (Panic, w') => (Panic, w')
    end.

Definition returnErr {A : Type} (e : error) : M A := fun w => (Return e, w).

Definition panic {A : Type} : M A := fun w => (Panic, w).

Notation "'let*' x := m 'in' k" := (bind m (fun x => k))
  (at level 10, x name, m at level 100, k at level 200).

(** [log.Info(msg, ...)] *)
Definition logInfo (msg : string) : M unit :=
  fun w =>
    (Normal tt,
     {| remote := remote w; calls := calls w; logs := logs w ++ [msg] |}).

(** A client method call: run it on the remote state, record it. *)
Definition invoke {O R : Type} (method : O -> St -> R * St) (mk : O -> Call)
  (opt : O) : M R :=
  fun w =>
    let '(r, st) := method opt (remote w) in
    (Normal r,
     {| remote := st; calls := calls w ++ [mk opt]; logs := logs w |}).

(** [for _, x := range l { body x }] *)
Fixpoint forEach {A : Type} (body : A -> M unit) (l : list A) : M unit :=
  match l with
  | [] => ret tt
  | x :: l' => let* _ := body x in forEach body l'
  end.

(** The body of the loop over the targets at dns.go:178-213. [listOpt] is
    the options object built before the loop; each iteration overwrites its
    content filter. *)
Definition upsertTarget (record : DNSRecord) (listOpt : ListAllDnsRecordsOptions)
  (target : string) : M unit :=
  let listOpt := list_SetContent target listOpt in
  let* reply := invoke ListAllDnsRecords CallList listOpt in
  let '(result, response, err) := reply in
  match err with
  | Some err =>
      if notNilNorNotFound response
      then returnErr
             (Wrapf "createOrUpdateDNSRecord: failed to list the dns record: " err)
      else ret tt
  | None =>
      match result with
      | None => returnErr (Errorf "createOrUpdateDNSRecord: invalid result")
      | Some result =>
          match Result result with
          | None => returnErr (Errorf "createOrUpdateDNSRecord: invalid result")
          | Some [] =>
              let createOpt := NewCreateDnsRecordOptions in
              let createOpt := create_SetName (DNSName (Spec record)) createOpt in
              let createOpt := create_SetType (RecordType (Spec record)) createOpt in
              let createOpt := create_SetContent target createOpt in
              let createOpt := create_SetTTL (RecordTTL (Spec record)) createOpt in
              let* reply := invoke CreateDnsRecord CallCreate createOpt in
              match snd reply with
              | Some err =>
                  returnErr
                    (Wrapf "createOrUpdateDNSRecord: failed to create the dns record: " err)
              | None => logInfo "created DNS record"
              end
          | Some (first :: _) =>
              match rd_ID first with
              | None => panic
              | Some id =>
                  let updateOpt := NewUpdateDnsRecordOptions id in
                  let updateOpt := update_SetName (DNSName (Spec record)) updateOpt in
                  let updateOpt := update_SetType (RecordType (Spec record)) updateOpt in
                  let updateOpt := update_SetContent target updateOpt in
                  let updateOpt := update_SetTTL (RecordTTL (Spec record)) updateOpt in
                  let* reply := invoke UpdateDnsRecord CallUpdate updateOpt in
                  match snd reply with
                  | Some err =>
                      returnErr
                        (Wrapf "createOrUpdateDNSRecord: failed to update the dns record: " err)
                  | None => logInfo "updated DNS record"
                  end
              end
          end
      end
  end.

(** The body of the inner loop of [Delete], dns.go:139-153. *)
Definition deleteEntry (resultData : DnsrecordDetails) : M unit :=
  match rd_ID resultData with
  | None => returnErr (Errorf "delete: record id is nil")
  | Some id =>
      let delOpt := NewDeleteDnsRecordOptions id in
      let* reply := invoke DeleteDnsRecord CallDelete delOpt in
      let '(delResponse, err) := reply in
      let* _ :=
        match err with
        | Some err =>
            if notNilNorNotFound delResponse
            then returnErr
                   (Wrapf "delete: failed to delete the dns record: " err)
            else ret tt
        | None => ret tt
        end in
      if notNilNorNotFound delResponse
      then logInfo "deleted DNS record"
      else ret tt
  end.

(** The body of the loop over the targets of [Delete], dns.go:127-154. *)
Definition deleteTarget (opt : ListAllDnsRecordsOptions) (target : string)
  : M unit :=
  let opt := list_SetContent target opt in
  let* reply := invoke ListAllDnsRecords CallList opt in
  let '(result, response, err) := reply in
  match err with
  | Some err =>
      if notNilNorNotFound response
      then returnErr (Wrapf "delete: failed to list the dns record: " err)
      else ret tt
  | None =>
      match result with
      | None => returnErr (Errorf "delete: invalid result")
      | Some result =>
          match Result result with
          | None => returnErr (Errorf "delete: invalid result")
          | Some entries => forEach deleteEntry entries
          end
      end
  end.

(** What an operation leaves behind: how it ended, the record the caller
    still holds a pointer to, the provider with its remote states, the
    remote calls issued and the lines logged. *)
Record Outcome : Type := {
  exit : Exit;
  recordAfter : option DNSRecord;
  providerAfter : Provider;
  trace : list Call;
  journal : list string
}.

(** Nothing happened beyond returning [e]. *)
Definition rejected (p : Provider) (record : option DNSRecord) (e : error)
  : Outcome :=
  {| exit := Returned (Some e); recordAfter := record; providerAfter := p;
     trace := []; journal := [] |}.

(** The loop of an operation ran on the client of [zone] from [w0]. *)
Definition finish (p : Provider) (record : option DNSRecord) (zone : DNSZone)
  (run : Res unit * World) : Outcome :=
  {| exit := match fst run with
             | Normal _ => Returned None
             | Return e => Returned (Some e)
             | Panic => Panicked
             end;
     recordAfter := record;
     providerAfter := {| dnsServices := <[ID zone := remote (snd run)]> (dnsServices p) |};
     trace := calls (snd run);
     journal := logs (snd run) |}.

Definition ttlWarning : string :=
  "Warning: TTL must be between 120 and 2,147,483,647 seconds, or 1 for Automatic. RecordTTL set to default".

Definition createOrUpdateDNSRecord (p : Provider) (record : option DNSRecord)
  (zone : DNSZone) : Outcome :=
  match validateInputDNSData record zone with
  | Some err =>
      rejected p record
        (Wrapf "createOrUpdateDNSRecord: invalid dns input data: " err)
  | None =>
      match dnsServices p !! ID zone with
      | None =>
          rejected p record
            (Errorf ("createOrUpdateDNSRecord: unknown zone: " +:+ ID zone))
      | Some dnsService =>
          match record with
          | None => (* record.Spec on a nil pointer *)
              {| exit := Panicked; recordAfter := record; providerAfter := p;
                 trace := []; journal := [] |}
          | Some record =>
              let ttl := RecordTTL (Spec record) in
              let '(record, warned) :=
                if ttlOutOfRange ttl
                then (setRecordTTL defaultCISRecordTTL record, [ttlWarning])
                else (record, []) in
              let listOpt := NewListAllDnsRecordsOptions in
              let listOpt := list_SetType (RecordType (Spec record)) listOpt in
              let DNSName := TrimSuffix (DNSName (Spec record)) "." in
              let listOpt := list_SetName DNSName listOpt in
              finish p (Some record) zone
                (forEach (upsertTarget record listOpt) (Targets (Spec record))
                   {| remote := dnsService; calls := []; logs := warned |})
          end
      end
  end.

Definition Ensure (p : Provider) (record : option DNSRecord) (zone : DNSZone)
  : Outcome :=
  createOrUpdateDNSRecord p record zone.

Definition Replace (p : Provider) (record : option DNSRecord) (zone : DNSZone)
  : Outcome :=
  createOrUpdateDNSRecord p record zone.

Definition Delete (p : Provider) (record : option DNSRecord) (zone : DNSZone)
  : Outcome :=
  match validateInputDNSData record zone with
  | Some err =>
      rejected p record (Wrapf "delete: invalid dns input data: " err)
  | None =>
      match dnsServices p !! ID zone with
      | None =>
          rejected p record (Errorf ("delete: unknown zone: " +:+ ID zone))
      | Some dnsService =>
          match record with
          | None => (* record.Spec on a nil pointer *)
              {| exit := Panicked; recordAfter := record; providerAfter := p;
                 trace := []; journal := [] |}
          | Some record =>
              let opt := NewListAllDnsRecordsOptions in
              let opt := list_SetType (RecordType (Spec record)) opt in
              let opt := list_SetName (DNSName (Spec record)) opt in
              finish p (Some record) zone
                (forEach (deleteTarget opt) (Targets (Spec record))
                   {| remote := dnsService; calls := []; logs := [] |})
          end
      end
  end.

End Provider.

Arguments Provider St : clear implicits.
Arguments World St : clear implicits.
Arguments Outcome St : clear implicits.

(** ** Clients to run the provider on *)

(** A scripted client, in the manner of a test double: its state is the
    list of replies still to give; every call consumes the next one. A call
    that finds no reply of its kind fails without a response. *)
Module Scripted.

Inductive Reply : Type :=
| OnList (r : ListReply)
| OnCall (r : CallReply).

Definition Script : Type := list Reply.

Definition exhausted : error := Errorf "script exhausted".

Definition nextList (s : Script) : ListReply * Script :=
  match s with
  | OnList r :: s' => (r, s')
  | _ => ((None, None, Some exhausted), s)
  end.

Definition nextCall (s : Script) : CallReply * Script :=
  match s with
  | OnCall r :: s' => (r, s')
  | _ => ((None, Some exhausted), s)
  end.

#[global] Instance scripted_client : DnsClient Script := {|
  ListAllDnsRecords := fun _ => nextList;
  CreateDnsRecord := fun _ => nextCall;
  UpdateDnsRecord := fun _ => nextCall;
  DeleteDnsRecord := fun _ => nextCall
|}.

(** Replies used in the examples. *)
Definition status (code : Z) : option DetailedResponse :=
  Some {| StatusCode := code |}.

Definition listed (entries : list DnsrecordDetails) : Reply :=
  OnList (Some {| Result := Some entries |}, status 200, None).

Definition listFails (code : Z) : Reply :=
  OnList (None, status code, Some (Errorf "list failed")).

Definition callOk : Reply := OnCall (status 200, None).

Definition callFails (code : Z) : Reply :=
  OnCall (status code, Some (Errorf "call failed")).

Definition entry (id : option string) (name type content : string) (ttl : Z)
  : DnsrecordDetails :=
  {| rd_ID := id; rd_Name := name; rd_Type := type; rd_Content := content;
     rd_TTL := ttl |}.

End Scripted.

(** A client of a zone that is and stays empty: every list finds nothing,
    every other call is accepted and changes nothing. *)
Module Blank.

Definition accepted : CallReply := (Some {| StatusCode := 200 |}, None).

#[global] Instance blank_client : DnsClient unit := {|
  ListAllDnsRecords := fun _ st =>
    ((Some {| Result := Some [] |}, Some {| StatusCode := 200 |}, None), st);
  CreateDnsRecord := fun _ st => (accepted, st);
  UpdateDnsRecord := fun _ st => (accepted, st);
  DeleteDnsRecord := fun _ st => (accepted, st)
|}.

End Blank.

(** Modelled from the spec: the remote zone behind a client. The service is
    not part of the repository; the specification describes it as a set of
    entries [(id, name, recordType, content, ttl)] with provider-assigned
    ids (section 3), on which list returns the complete set of entries
    matching its name, type and content filters, create adds an entry,
    update changes the entry with the given id in place and delete removes
    it (sections 4.4, 4.5 and 6). How the service compares names is not
    said; the model compares them after [canon], which is a parameter
    (the identity gives exact matching). *)
Module MemStore.

Record Entry : Type := {
  e_id : string;
  e_name : string;
  e_type : string;
  e_content : string;
  e_ttl : Z
}.

(** The entries of the zone, oldest first, and the number of ids handed out
    so far. *)
Record Zone : Type := {
  entries : list Entry;
  created : nat
}.

(** The [n]-th id the service hands out. *)
Fixpoint idOf (n : nat) : string :=
  match n with
  | O => "r"
  | S n' => String "i" (idOf n')
  end.

Definition ok : option DetailedResponse := Some {| StatusCode := 200 |}.

Definition details (e : Entry) : DnsrecordDetails :=
  {| rd_ID := Some (e_id e); rd_Name := e_name e; rd_Type := e_type e;
     rd_Content := e_content e; rd_TTL := e_ttl e |}.

Definition agrees (filter : option string) (value : string) : bool :=
  match filter with
  | Some f => String.eqb f value
  | None => true
  end.

Section Service.

Variable canon : string -> string.

Definition selects (opt : ListAllDnsRecordsOptions) (e : Entry) : bool :=
  agrees (canon <$> lo_Name opt) (canon (e_name e))
  && agrees (lo_Type opt) (e_type e)
  && agrees (lo_Content opt) (e_content e).

Definition listAll (opt : ListAllDnsRecordsOptions) (z : Zone) : ListReply * Zone :=
  ((Some {| Result := Some (map details (List.filter (selects opt) (entries z))) |},
    ok, None), z).

Definition createOne (opt : CreateDnsRecordOptions) (z : Zone) : CallReply * Zone :=
  match co_Name opt, co_Type opt, co_Content opt, co_TTL opt with
  | Some n, Some t, Some c, Some ttl =>
      let e := {| e_id := idOf (created z); e_name := n; e_type := t;
                  e_content := c; e_ttl := ttl |} in
      ((ok, None), {| entries := entries z ++ [e]; created := S (created z) |})
  | _, _, _, _ =>
      ((Some {| StatusCode := 400 |}, Some (Errorf "bad request")), z)
  end.

Definition has (id : string) (z : Zone) : bool :=
  existsb (fun e => String.eqb (e_id e) id) (entries z).

(** The entry [e] after an update with [opt]; a field the request leaves
    out keeps its value. *)
Definition overwrite (opt : UpdateDnsRecordOptions) (e : Entry) : Entry :=
  {| e_id := e_id e;
     e_name := default (e_name e) (uo_Name opt);
     e_type := default (e_type e) (uo_Type opt);
     e_content := default (e_content e) (uo_Content opt);
     e_ttl := default (e_ttl e) (uo_TTL opt) |}.

Definition updateOne (opt : UpdateDnsRecordOptions) (z : Zone) : CallReply * Zone :=
  let id := uo_DnsrecordIdentifier opt in
  if has id z
  then ((ok, None),
        {| entries := map (fun e => if String.eqb (e_id e) id
                                    then overwrite opt e else e) (entries z);
           created := created z |})
  else ((Some {| StatusCode := http.StatusNotFound |},
         Some (Errorf "record not found")), z).

Definition deleteOne (opt : DeleteDnsRecordOptions) (z : Zone) : CallReply * Zone :=
  let id := do_DnsrecordIdentifier opt in
  if has id z
  then ((ok, None),
        {| entries := List.filter (fun e => negb (String.eqb (e_id e) id)) (entries z);
           created := created z |})
  else ((Some {| StatusCode := http.StatusNotFound |},
         Some (Errorf "record not found")), z).

Definition client : DnsClient Zone := {|
  ListAllDnsRecords := listAll;
  CreateDnsRecord := createOne;
  UpdateDnsRecord := updateOne;
  DeleteDnsRecord := deleteOne
|}.

(** The ids of the entries a list call with [opt] returns, in order. *)
Definition matchIDs (opt : ListAllDnsRecordsOptions) (z : Zone) : list string :=
  map e_id (List.filter (selects opt) (entries z)).

End Service.

(** Ids in the zone are distinct and were handed out by the service. *)
Definition wf (z : Zone) : Prop :=
  NoDup (map e_id (entries z))
  /\ forall e, In e (entries z) -> (String.length (e_id e) <= created z)%nat.

End MemStore.

(** ** Notions used to state the properties *)

Section Notions.

Context {St : Type} `{DnsClient St}.

(** The record as the [if] at dns.go:168-171 leaves it. *)
Definition normalized (record : DNSRecord) : DNSRecord :=
  if ttlOutOfRange (RecordTTL (Spec record))
  then setRecordTTL defaultCISRecordTTL record
  else record.

(** The list options built before the loop of [createOrUpdateDNSRecord]. *)
Definition upsertListOpt (record : DNSRecord) : ListAllDnsRecordsOptions :=
  list_SetName (TrimSuffix (DNSName (Spec record)) ".")
    (list_SetType (RecordType (Spec record)) NewListAllDnsRecordsOptions).

(** The list options built before the loop of [Delete]. *)
Definition deleteListOpt (record : DNSRecord) : ListAllDnsRecordsOptions :=
  list_SetName (DNSName (Spec record))
    (list_SetType (RecordType (Spec record)) NewListAllDnsRecordsOptions).

(** The world the loop of [createOrUpdateDNSRecord] starts in. *)
Definition upsertStart (record : DNSRecord) (dnsService : St) : World St :=
  {| remote := dnsService; calls := [];
     logs := if ttlOutOfRange (RecordTTL (Spec record)) then [ttlWarning] else [] |}.

Definition deleteStart (dnsService : St) : World St :=
  {| remote := dnsService; calls := []; logs := [] |}.

(** An operation stopped by one of its gates. *)
Inductive Gated (p : Provider St) (record : option DNSRecord) (zone : DNSZone)
  : Prop :=
| gated_invalid : validateInputDNSData record zone <> None -> Gated p record zone
| gated_unknown : dnsServices p !! ID zone = None -> Gated p record zone.

(** [m] only adds calls that satisfy [P] to the trace. *)
Definition emits {A : Type} (P : Call -> Prop) (m : M A) : Prop :=
  forall w : World St,
    exists cs, calls (snd (m w)) = calls w ++ cs /\ Forall P cs.

(** What a call of the upsert loop for [record] looks like. *)
Definition upsertCall (record : DNSRecord) (c : Call) : Prop :=
  match c with
  | CallList o =>
      lo_Name o = Some (TrimSuffix (DNSName (Spec record)) ".")
      /\ lo_Type o = Some (RecordType (Spec record))
      /\ exists target, In target (Targets (Spec record))
                        /\ lo_Content o = Some target
  | CallCreate o =>
      co_Name o = Some (DNSName (Spec record))
      /\ co_Type o = Some (RecordType (Spec record))
      /\ co_TTL o = Some (RecordTTL (Spec record))
      /\ exists target, In target (Targets (Spec record))
                        /\ co_Content o = Some target
  | CallUpdate o =>
      uo_Name o = Some (DNSName (Spec record))
      /\ uo_Type o = Some (RecordType (Spec record))
      /\ uo_TTL o = Some (RecordTTL (Spec record))
      /\ exists target, In target (Targets (Spec record))
                        /\ uo_Content o = Some target
  | CallDelete _ => False
  end.

(** What a call of the delete loop for [record] looks like. *)
Definition deleteCall (record : DNSRecord) (c : Call) : Prop :=
  match c with
  | CallList o =>
      lo_Name o = Some (DNSName (Spec record))
      /\ lo_Type o = Some (RecordType (Spec record))
      /\ exists target, In target (Targets (Spec record))
                        /\ lo_Content o = Some target
  | CallDelete _ => True
  | CallCreate _ | CallUpdate _ => False
  end.

(** The options of the three calls the upsert loop can issue for [target]. *)
Definition upsertFilter (record : DNSRecord) (target : string)
  : ListAllDnsRecordsOptions :=
  list_SetContent target (upsertListOpt record).

Definition createOptOf (record : DNSRecord) (target : string)
  : CreateDnsRecordOptions :=
  create_SetTTL (RecordTTL (Spec record))
    (create_SetContent target
       (create_SetType (RecordType (Spec record))
          (create_SetName (DNSName (Spec record)) NewCreateDnsRecordOptions))).

Definition updateOptOf (record : DNSRecord) (id target : string)
  : UpdateDnsRecordOptions :=
  update_SetTTL (RecordTTL (Spec record))
    (update_SetContent target
       (update_SetType (RecordType (Spec record))
          (update_SetName (DNSName (Spec record))
             (NewUpdateDnsRecordOptions id)))).

(** The calls of an upsert that finds, for every target, the entry whose id
    [idOf] gives: one list and one update of that entry per target. *)
Definition updatesOnly (record : DNSRecord) (idOf : string -> string)
  (targets : list string) : list Call :=
  flat_map (fun t => [CallList (upsertFilter record t);
                      CallUpdate (updateOptOf record (idOf t) t)]) targets.

(** The TTL a create or update call carries is [ttl]. *)
Definition usesTTL (ttl : Z) (c : Call) : Prop :=
  match c with
  | CallCreate o => co_TTL o = Some ttl
  | CallUpdate o => uo_TTL o = Some ttl
  | CallList _ | CallDelete _ => True
  end.

(** A list call filters on [listName]; a create or update call writes
    [writeName]. *)
Definition usesNames (listName writeName : string) (c : Call) : Prop :=
  match c with
  | CallList o => lo_Name o = Some listName
  | CallCreate o => co_Name o = Some writeName
  | CallUpdate o => uo_Name o = Some writeName
  | CallDelete _ => True
  end.

(** A list call filters on [name]. *)
Definition listsOn (name : string) (c : Call) : Prop :=
  match c with
  | CallList o => lo_Name o = Some name
  | CallCreate _ | CallUpdate _ | CallDelete _ => True
  end.

(** [o] is the outcome of an operation that returned [e] and did nothing
    else: no remote call, the provider and the record as they were. *)
Definition stopped (o : Outcome St) (p : Provider St)
  (record : option DNSRecord) (e : error) : Prop :=
  exit o = Returned (Some e)
  /\ trace o = []
  /\ providerAfter o = p
  /\ recordAfter o = record.

(** The content filters of the list calls of a trace, in order. *)
Definition listedTargets (cs : list Call) : list (option string) :=
  flat_map (fun c => match c with
                     | CallList o => [lo_Content o]
                     | CallCreate _ | CallUpdate _ | CallDelete _ => []
                     end) cs.

(** The loop listed [done ++ [t]], a prefix of [targets], and stopped. *)
Definition stoppedAt (targets : list string) (listed : list (option string))
  : Prop :=
  exists done t rest,
    targets = done ++ t :: rest /\ listed = map Some (done ++ [t]).

(** The outcome of a loop over [targets] that ends at the first target with
    a failing step: when it returns no error it has listed every target;
    when it returns an error, the error is one step's failure ([F]) and the
    targets after the failing one were never listed. *)
Definition stopsAtFirstFailure (F : error -> Prop) (targets : list string)
  (o : Outcome St) : Prop :=
  match exit o with
  | Returned None => listedTargets (trace o) = map Some targets
  | Returned (Some e) => F e /\ stoppedAt targets (listedTargets (trace o))
  | Panicked => stoppedAt targets (listedTargets (trace o))
  end.

Definition notFound : option DetailedResponse :=
  Some {| StatusCode := http.StatusNotFound |}.

(** The world after one more call [c] that left the remote state [st]. *)
Definition called (c : Call) (st : St) (w : World St) : World St :=
  {| remote := st; calls := calls w ++ [c]; logs := logs w |}.

(** A list reply that is a 404-class failure. *)
Definition isNotFound (r : ListReply) : Prop :=
  match r with
  | (_, response, Some _) => response = notFound
  | (_, _, None) => False
  end.

(** A list reply that reports no matching entry: a 404-class failure, or a
    success with an empty result. *)
Definition noMatch (r : ListReply) : Prop :=
  match r with
  | (_, response, Some _) => response = notFound
  | (Some {| Result := Some [] |}, _, None) => True
  | (_, _, None) => False
  end.

(** Every list call of a loop over [targets] that does nothing but list,
    started on the remote state [st], gets a reply that satisfies [P]. *)
Fixpoint everyListReply (P : ListReply -> Prop) (opt : ListAllDnsRecordsOptions)
  (targets : list string) (st : St) : Prop :=
  match targets with
  | [] => True
  | t :: targets' =>
      P (fst (ListAllDnsRecords (list_SetContent t opt) st))
      /\ everyListReply P opt targets'
           (snd (ListAllDnsRecords (list_SetContent t opt) st))
  end.

(** One list call for every target, and nothing else. *)
Definition listCalls (opt : ListAllDnsRecordsOptions) (targets : list string)
  : list Call :=
  map (fun t => CallList (list_SetContent t opt)) targets.

(** The first entry of a list result the code looks into carries an id. *)
Definition firstHasID (r : ListReply) : Prop :=
  match r with
  | (Some {| Result := Some (first :: _) |}, _, None) => rd_ID first <> None
  | (_, _, _) => True
  end.

(** [m] always falls through: it neither returns an error nor panics. *)
Definition completes {A : Type} (m : M A) : Prop :=
  forall w : World St, exists a, fst (m w) = Normal a.

(** A list reply without error whose result is there and whose entries all
    carry an id. *)
Definition wellFormed (r : ListReply) : Prop :=
  exists entries response,
    r = (Some {| Result := Some entries |}, response, None)
    /\ Forall (fun e => rd_ID e <> None) entries.

(** The client answers every call without error, and every list with a
    well-formed result. *)
Definition faultless : Prop :=
  (forall opt st, wellFormed (fst (ListAllDnsRecords opt st)))
  /\ (forall opt st, snd (fst (CreateDnsRecord opt st)) = None)
  /\ (forall opt st, snd (fst (UpdateDnsRecord opt st)) = None)
  /\ (forall opt st, snd (fst (DeleteDnsRecord opt st)) = None).

(** [m] never panics. *)
Definition safe {A : Type} (m : M A) : Prop :=
  forall w : World St, fst (m w) <> Panic.

End Notions.

(** The failures a step of the upsert loop returns. *)
Inductive upsertFailure : error -> Prop :=
| upsert_list_failed (cause : error) :
    upsertFailure
      (Wrapf "createOrUpdateDNSRecord: failed to list the dns record: " cause)
| upsert_invalid_result :
    upsertFailure (Errorf "createOrUpdateDNSRecord: invalid result")
| upsert_create_failed (cause : error) :
    upsertFailure
      (Wrapf "createOrUpdateDNSRecord: failed to create the dns record: " cause)
| upsert_update_failed (cause : error) :
    upsertFailure
      (Wrapf "createOrUpdateDNSRecord: failed to update the dns record: " cause).

(** The failures a step of the delete loop returns. *)
Inductive deleteFailure : error -> Prop :=
| delete_list_failed (cause : error) :
    deleteFailure (Wrapf "delete: failed to list the dns record: " cause)
| delete_invalid_result :
    deleteFailure (Errorf "delete: invalid result")
| delete_nil_id :
    deleteFailure (Errorf "delete: record id is nil")
| delete_delete_failed (cause : error) :
    deleteFailure (Wrapf "delete: failed to delete the dns record: " cause).

(** ** The validation rules as the specification lists them *)

Inductive Rule : Type :=
| RecordIsNil
| NameIsEmpty
| TypeIsEmpty
| TargetsAreEmpty
| ZoneIDIsEmpty.

(** The rules in the order of the specification. *)
Definition rules : list Rule :=
  [RecordIsNil; NameIsEmpty; TypeIsEmpty; TargetsAreEmpty; ZoneIDIsEmpty].

(** Whether the pair violates a rule. A rule about a field of the record
    speaks of a record that is there. *)
Definition violates (record : option DNSRecord) (zone : DNSZone) (rule : Rule)
  : bool :=
  match rule, record with
  | RecordIsNil, None => true
  | RecordIsNil, Some _ => false
  | NameIsEmpty, Some r => String.eqb (DNSName (Spec r)) ""
  | TypeIsEmpty, Some r => String.eqb (RecordType (Spec r)) ""
  | TargetsAreEmpty, Some r =>
      match Targets (Spec r) with [] => true | _ :: _ => false end
  | (NameIsEmpty | TypeIsEmpty | TargetsAreEmpty), None => false
  | ZoneIDIsEmpty, _ => String.eqb (ID zone) ""
  end.

(** The failure reported for a rule. *)
Definition failureOf (rule : Rule) : error :=
  match rule with
  | RecordIsNil => Errorf "validateInputDNSData: dns record is nil"
  | NameIsEmpty => Errorf "validateInputDNSData: dns record name is empty"
  | TypeIsEmpty => Errorf "validateInputDNSData: dns record type is empty"
  | TargetsAreEmpty => Errorf "validateInputDNSData: dns record content is empty"
  | ZoneIDIsEmpty => Errorf "validateInputDNSData: dns zone id is empty"
  end.

(** Validation in the words of the specification: one failure for every
    violated rule, all of them combined into one aggregate. *)
Definition validation_spec (record : option DNSRecord) (zone : DNSZone)
  : option error :=
  kerrors.NewAggregate (map failureOf (List.filter (violates record zone) rules)).

(** ** Inputs for the examples *)

Module Examples.

Import Scripted.

Definition zone1 : DNSZone := {| ID := "zone1" |}.

Definition wildcard (ttl : Z) : DNSRecord :=
  {| Spec := {| DNSName := "*.apps.example.com.";
                Targets := ["1.2.3.4"; "5.6.7.8"];
                RecordType := "A";
                RecordTTL := ttl |} |}.

Definition unnamed : DNSRecord :=
  {| Spec := {| DNSName := ""; Targets := ["1.2.3.4"]; RecordType := "A";
                RecordTTL := 0 |} |}.

(** An entry without id, as a malformed list result may carry. *)
Definition anonymous : DnsrecordDetails :=
  Scripted.entry None "*.apps.example.com" "A" "1.2.3.4" 120.

(** A provider whose only zone is [zone1], held in memory. *)
Definition stored (z : MemStore.Zone) : Provider MemStore.Zone :=
  {| dnsServices := {[ "zone1" := z ]} |}.

Definition emptyZone : MemStore.Zone :=
  {| MemStore.entries := []; MemStore.created := 0 |}.

Definition api : DNSRecord :=
  {| Spec := {| DNSName := "api.example.com"; Targets := ["1.2.3.4"];
                RecordType := "A"; RecordTTL := 300 |} |}.

(** A zone that holds the same entry twice, under two ids. *)
Definition duplicated : MemStore.Zone :=
  {| MemStore.entries :=
       [ {| MemStore.e_id := MemStore.idOf 0; MemStore.e_name := "api.example.com";
            MemStore.e_type := "A"; MemStore.e_content := "1.2.3.4";
            MemStore.e_ttl := 300 |};
         {| MemStore.e_id := MemStore.idOf 1; MemStore.e_name := "api.example.com";
            MemStore.e_type := "A"; MemStore.e_content := "1.2.3.4";
            MemStore.e_ttl := 300 |} ];
     MemStore.created := 2 |}.

(** Two ways for the service to compare names: as they are, and without a
    trailing dot. *)
Definition exactly (name : string) : string := name.
Definition dotless (name : string) : string := TrimSuffix name ".".

(** A provider whose only zone is [zone1], which is and stays empty. *)
Definition blank : Provider unit := {| dnsServices := {[ "zone1" := tt ]} |}.

(** A provider whose only zone is [zone1], served by a scripted client. *)
Definition scripted (s : Script) : Provider Script :=
  {| dnsServices := {[ "zone1" := s ]} |}.

End Examples.


(** * The rest of the provider file *)

(** ** Service endpoints *)

Module ibm.

(** [ServiceEndpoint]: a custom URL that overrides the default endpoint of
    an IBM service. *)
Record ServiceEndpoint : Type := {
  Name : string;
  URL : string
}.

Definition CISCustomEndpointName : string := "cis".

Definition defaultCISURL : string := "https://api.cis.cloud.ibm.com/".

(** [getCISEndpointURL]: the URL of the first endpoint named "cis", or the
    default URL when there is none. *)
Fixpoint getCISEndpointURL (endpoint : list ServiceEndpoint) : string :=
  match endpoint with
  | [] => defaultCISURL
  | ep :: endpoint' =>
      if String.eqb (Name ep) CISCustomEndpointName
      then URL ep
      else getCISEndpointURL endpoint'
  end.

End ibm.

(** ** Further notions about the two loops *)

Section MoreNotions.

Context {St : Type} `{DnsClient St}.

(** A list reply that failed without any response (no status to look at). *)
Definition isUnanswered (r : ListReply) : Prop :=
  match r with
  | (_, None, Some _) => True
  | (_, _, _) => False
  end.

(** A call that removes nothing / writes nothing. *)
Definition notADelete (c : Call) : Prop :=
  match c with
  | CallDelete _ => False
  | CallList _ | CallCreate _ | CallUpdate _ => True
  end.

Definition notAWrite (c : Call) : Prop :=
  match c with
  | CallCreate _ | CallUpdate _ => False
  | CallList _ | CallDelete _ => True
  end.

(** [m] keeps the property [I] of the remote state. *)
Definition preserves {A : Type} (I : St -> Prop) (m : M A) : Prop :=
  forall w : World St, I (remote w) -> I (remote (snd (m w))).

End MoreNotions.

(** The options of the list call the delete loop issues for [target]. *)
Definition deleteFilter (record : DNSRecord) (target : string)
  : ListAllDnsRecordsOptions :=
  list_SetContent target (deleteListOpt record).

(** An entry of a zone held in memory that the delete loop for [record]
    lists for one of the targets. *)
Definition targeted (canon : string -> string) (record : DNSRecord)
  (targets : list string) (e : MemStore.Entry) : bool :=
  existsb (fun t => MemStore.selects canon (deleteFilter record t) e) targets.

(** An entry that carries the name and the type of [record] and one of its
    targets, letter for letter. *)
Definition carries (record : DNSRecord) (e : MemStore.Entry) : Prop :=
  MemStore.e_name e = DNSName (Spec record)
  /\ MemStore.e_type e = RecordType (Spec record)
  /\ In (MemStore.e_content e) (Targets (Spec record)).

(** ** The loops, pass by pass

    What one pass through the body of a loop does, told by the replies of
    the client on the remote state the pass starts on: the calls it issues,
    how it ends and the remote state it leaves. The name of the list filter,
    the name and the TTL of the writes and the record type are arguments, so
    that a statement can say which ones an operation uses. *)

Section Passes.

Context {St : Type} `{DnsClient St}.

(** How a pass ends. *)
Inductive PassEnd : Type :=
| Proceeds            (* the loop goes on with the next element *)
| Fails (e : error)   (* [return e] *)
| Crashes.            (* a nil pointer is dereferenced *)

(** The calls issued, the end, the remote state left. *)
Definition Pass : Type := (list Call * PassEnd * St)%type.

Definition issued (p : Pass) : list Call := fst (fst p).
Definition ending (p : Pass) : PassEnd := snd (fst p).
Definition leaves (p : Pass) : St := snd p.

Definition exitOf (e : PassEnd) : Exit :=
  match e with
  | Proceeds => Returned None
  | Fails e => Returned (Some e)
  | Crashes => Panicked
  end.

Definition resOf (e : PassEnd) : Res unit :=
  match e with
  | Proceeds => Normal tt
  | Fails e => Return e
  | Crashes => Panic
  end.

(** A loop: the passes in order, up to the first one that does not
    proceed. *)
Fixpoint passes {A : Type} (pass : A -> St -> Pass) (l : list A) (st : St)
  : Pass :=
  match l with
  | [] => ([], Proceeds, st)
  | x :: l' =>
      let '(cs, e, st1) := pass x st in
      match e with
      | Proceeds =>
          let '(cs', e', st2) := passes pass l' st1 in (cs ++ cs', e', st2)
      | Fails _ | Crashes => (cs, e, st1)
      end
  end.

(** The end of a pass after a create or an update: any error ends it. *)
Definition afterWrite (prefix : string) (err : option error) : PassEnd :=
  match err with
  | Some err => Fails (Wrapf prefix err)
  | None => Proceeds
  end.

(** The end of a pass after a list or a delete that returned [err]: the
    error ends it only when it comes with a response that is not a 404. *)
Definition afterRead (prefix : string) (response : option DetailedResponse)
  (err : error) : PassEnd :=
  if notNilNorNotFound response then Fails (Wrapf prefix err) else Proceeds.

(** One pass of the loop at dns.go:178-213, for [target]. *)
Definition upsertPass (listName writeName recordType : string) (ttl : Z)
  (target : string) (st : St) : Pass :=
  let filter :=
    {| lo_Type := Some recordType; lo_Name := Some listName;
       lo_Content := Some target |} in
  let '(reply, st1) := ListAllDnsRecords filter st in
  let '(result, response, err) := reply in
  match err with
  | Some err =>
      ([CallList filter],
       afterRead "createOrUpdateDNSRecord: failed to list the dns record: "
         response err,
       st1)
  | None =>
      match result with
      | None =>
          ([CallList filter],
           Fails (Errorf "createOrUpdateDNSRecord: invalid result"), st1)
      | Some result =>
          match Result result with
          | None =>
              ([CallList filter],
               Fails (Errorf "createOrUpdateDNSRecord: invalid result"), st1)
          | Some [] =>
              let create :=
                {| co_Name := Some writeName; co_Type := Some recordType;
                   co_Content := Some target; co_TTL := Some ttl |} in
              let '(reply, st2) := CreateDnsRecord create st1 in
              ([CallList filter; CallCreate create],
               afterWrite
                 "createOrUpdateDNSRecord: failed to create the dns record: "
                 (snd reply),
               st2)
          | Some (first :: _) =>
              match rd_ID first with
              | None => ([CallList filter], Crashes, st1)
              | Some id =>
                  let update :=
                    {| uo_DnsrecordIdentifier := id; uo_Name := Some writeName;
                       uo_Type := Some recordType; uo_Content := Some target;
                       uo_TTL := Some ttl |} in
                  let '(reply, st2) := UpdateDnsRecord update st1 in
                  ([CallList filter; CallUpdate update],
                   afterWrite
                     "createOrUpdateDNSRecord: failed to update the dns record: "
                     (snd reply),
                   st2)
              end
          end
      end
  end.

(** One pass of the inner loop of [Delete], dns.go:139-153, for one listed
    entry. *)
Definition deleteEntryPass (resultData : DnsrecordDetails) (st : St) : Pass :=
  match rd_ID resultData with
  | None => ([], Fails (Errorf "delete: record id is nil"), st)
  | Some id =>
      let delete := {| do_DnsrecordIdentifier := id |} in
      let '(reply, st1) := DeleteDnsRecord delete st in
      let '(delResponse, err) := reply in
      ([CallDelete delete],
       match err with
       | Some err =>
           afterRead "delete: failed to delete the dns record: " delResponse err
       | None => Proceeds
       end,
       st1)
  end.

(** One pass of the loop over the targets of [Delete], dns.go:127-154. *)
Definition deletePass (name recordType : string) (target : string) (st : St)
  : Pass :=
  let filter :=
    {| lo_Type := Some recordType; lo_Name := Some name;
       lo_Content := Some target |} in
  let '(reply, st1) := ListAllDnsRecords filter st in
  let '(result, response, err) := reply in
  match err with
  | Some err =>
      ([CallList filter],
       afterRead "delete: failed to list the dns record: " response err, st1)
  | None =>
      match result with
      | None => ([CallList filter], Fails (Errorf "delete: invalid result"), st1)
      | Some result =>
          match Result result with
          | None =>
              ([CallList filter], Fails (Errorf "delete: invalid result"), st1)
          | Some entries =>
              let '(cs, e, st2) := passes deleteEntryPass entries st1 in
              (CallList filter :: cs, e, st2)
          end
      end
  end.

(** The statement [m] of the provider does what [pass] tells: it ends the
    same way, adds the same calls to the trace and leaves the same remote
    state. *)
Definition follows (m : M unit) (pass : St -> Pass) : Prop :=
  forall w : World St,
    fst (m w) = resOf (ending (pass (remote w)))
    /\ calls (snd (m w)) = calls w ++ issued (pass (remote w))
    /\ remote (snd (m w)) = leaves (pass (remote w)).

(** The passes of the two loops for [record], with the names and the TTL the
    operations use. *)
Definition upsertPassOf (record : DNSRecord) : string -> St -> Pass :=
  upsertPass (TrimSuffix (DNSName (Spec record)) ".") (DNSName (Spec record))
    (RecordType (Spec record)) (effectiveTTL (RecordTTL (Spec record))).

Definition deletePassOf (record : DNSRecord) : string -> St -> Pass :=
  deletePass (DNSName (Spec record)) (RecordType (Spec record)).

End Passes.

(** * The router deployment controller

    A shallow embedding of
    [pkg/operator/controller/controller_router_deployment.go]. The
    Kubernetes types carry the fields this file reads or writes; an embedded
    struct is flattened into the struct that embeds it. A function of
    another package ([manifests.RouterDeployment], the label selector
    conversions of [metav1], [filepath.Join], [errors.IsNotFound], the
    verbs [%q] and [%v] of [fmt]) and a constant declared elsewhere are
    parameters. The cluster ingress is passed by value: every function of the
    file dereferences it, or hands it to [manifests], before anything else. *)

Module metav1.

Record LabelSelectorRequirement : Type := {
  Key : string;
  Operator : string;
  Values : list string
}.

Record LabelSelector : Type := {
  MatchLabels : option (gmap string string);
  MatchExpressions : list LabelSelectorRequirement
}.

End metav1.

Module types.

Record NamespacedName : Type := {
  Namespace : string;
  Name : string
}.

End types.

Module corev1.

(** [SecretKeySelector], with the name of its [LocalObjectReference]. *)
Record SecretKeySelector : Type := {
  sk_Name : string;
  sk_Key : string
}.

Record EnvVarSource : Type := { SecretKeyRef : option SecretKeySelector }.

Record EnvVar : Type := {
  ev_Name : string;
  ev_Value : string;
  ev_ValueFrom : option EnvVarSource
}.

Record SecretVolumeSource : Type := { SecretName : string }.

(** [Volume], with the secret of its [VolumeSource]. *)
Record Volume : Type := {
  vol_Name : string;
  vol_Secret : option SecretVolumeSource
}.

Record VolumeMount : Type := {
  vm_Name : string;
  vm_MountPath : string;
  vm_ReadOnly : bool
}.

Record HTTPGetAction : Type := { Host : string }.

(** [Probe], with the HTTP action of its [Handler]. *)
Record Probe : Type := { HTTPGet : option HTTPGetAction }.

Record Container : Type := {
  Env : list EnvVar;
  Image : string;
  VolumeMounts : list VolumeMount;
  LivenessProbe : option Probe;
  ReadinessProbe : option Probe
}.

Record PodSpec : Type := {
  Volumes : list Volume;
  Containers : list Container;
  NodeSelector : option (gmap string string);
  HostNetwork : bool
}.

(** [PodTemplateSpec], with the labels of its [ObjectMeta]. *)
Record PodTemplateSpec : Type := {
  tpl_Labels : option (gmap string string);
  tpl_Spec : PodSpec
}.

End corev1.

Module appsv1.

Record DeploymentSpec : Type := {
  Replicas : option Z;
  Selector : option metav1.LabelSelector;
  Template : corev1.PodTemplateSpec
}.

(** [Deployment], with the name, namespace and labels of its
    [ObjectMeta]. *)
Record Deployment : Type := {
  d_Name : string;
  d_Namespace : string;
  d_Labels : option (gmap string string);
  d_Spec : DeploymentSpec
}.

End appsv1.

Module ingressv1alpha1.

Record NodePlacement : Type := {
  np_NodeSelector : option metav1.LabelSelector
}.

Record ClusterIngressSpec : Type := {
  ci_NodePlacement : option NodePlacement;
  ci_NamespaceSelector : option metav1.LabelSelector;
  ci_Replicas : Z;
  ci_RouteSelector : option metav1.LabelSelector;
  ci_DefaultCertificateSecret : option string
}.

(** [ClusterIngressStatus], with the type of its [HighAvailability]. *)
Record ClusterIngressStatus : Type := {
  ci_IngressDomain : string;
  ci_HighAvailabilityType : string
}.

(** [ClusterIngress], with the name of its [ObjectMeta]. *)
Record ClusterIngress : Type := {
  ci_Name : string;
  ci_Spec : ClusterIngressSpec;
  ci_Status : ClusterIngressStatus
}.

End ingressv1alpha1.

Module infrastructure.

(** [configv1.Infrastructure], with the platform of its status. *)
Record Infrastructure : Type := { Platform : string }.

End infrastructure.

Module controller.

Import metav1 types corev1 appsv1 ingressv1alpha1 infrastructure.

(** *** Results of a function that may return an error or panic *)

Definition bindR {A B : Type} (m : Res A) (k : A -> Res B) : Res B :=
  match m with
  | Normal a => k a
  | Return e => Return e
  | Panic => Panic
  end.

Notation "'let?' x := m 'in' k" := (bindR m (fun x => k))
  (at level 10, x name, m at level 100, k at level 200).

(** *** Writes to nested fields *)

Definition overSpec (f : DeploymentSpec -> DeploymentSpec) (d : Deployment)
  : Deployment :=
  {| d_Name := d_Name d; d_Namespace := d_Namespace d; d_Labels := d_Labels d;
     d_Spec := f (d_Spec d) |}.

Definition overTemplate (f : PodTemplateSpec -> PodTemplateSpec)
  (s : DeploymentSpec) : DeploymentSpec :=
  {| Replicas := Replicas s; Selector := Selector s; Template := f (Template s) |}.

Definition overPodSpec (f : PodSpec -> PodSpec) (t : PodTemplateSpec)
  : PodTemplateSpec :=
  {| tpl_Labels := tpl_Labels t; tpl_Spec := f (tpl_Spec t) |}.

(** A write somewhere in [deployment.Spec.Template.Spec]. *)
Definition overPod (f : PodSpec -> PodSpec) (d : Deployment) : Deployment :=
  overSpec (overTemplate (overPodSpec f)) d.

(** The pod spec of a deployment. *)
Definition podOf (d : Deployment) : PodSpec := tpl_Spec (Template (d_Spec d)).

Definition setVolumes (vs : list Volume) (p : PodSpec) : PodSpec :=
  {| Volumes := vs; Containers := Containers p;
     NodeSelector := NodeSelector p; HostNetwork := HostNetwork p |}.

Definition setContainers (cs : list Container) (p : PodSpec) : PodSpec :=
  {| Volumes := Volumes p; Containers := cs;
     NodeSelector := NodeSelector p; HostNetwork := HostNetwork p |}.

Definition setNodeSelector (m : option (gmap string string)) (p : PodSpec)
  : PodSpec :=
  {| Volumes := Volumes p; Containers := Containers p;
     NodeSelector := m; HostNetwork := HostNetwork p |}.

Definition setHostNetwork (b : bool) (p : PodSpec) : PodSpec :=
  {| Volumes := Volumes p; Containers := Containers p;
     NodeSelector := NodeSelector p; HostNetwork := b |}.

Definition setReplicas (r : option Z) (d : Deployment) : Deployment :=
  overSpec (fun s => {| Replicas := r; Selector := Selector s;
                        Template := Template s |}) d.

Definition setSelector (sel : option LabelSelector) (d : Deployment)
  : Deployment :=
  overSpec (fun s => {| Replicas := Replicas s; Selector := sel;
                        Template := Template s |}) d.

Definition setTemplateLabels (m : option (gmap string string)) (d : Deployment)
  : Deployment :=
  overSpec (overTemplate (fun t => {| tpl_Labels := m; tpl_Spec := tpl_Spec t |})) d.

(** [m[key] = value] on a map that was made when it was nil. *)
Definition assign (key value : string) (m : option (gmap string string))
  : option (gmap string string) :=
  Some (<[key := value]> (default ∅ m)).

(** A write to [Containers[0]]: a panic when there is no container. *)
Definition onContainer0 (f : Container -> Container) (d : Deployment)
  : Res Deployment :=
  match Containers (podOf d) with
  | [] => Panic
  | c :: cs => Normal (overPod (setContainers (f c :: cs)) d)
  end.

(** [probe.Handler.HTTPGet.Host = host]: a panic when the probe or its HTTP
    action is nil. *)
Definition setProbeHost (host : string) (probe : option Probe)
  : Res (option Probe) :=
  match probe with
  | None => Panic
  | Some pr =>
      match HTTPGet pr with
      | None => Panic
      | Some _ => Normal (Some {| HTTPGet := Some {| Host := host |} |})
      end
  end.

(** [Volumes[0].Secret.SecretName = name]: a panic when there is no volume
    or the first volume has no secret. *)
Definition setSecretName0 (name : string) (d : Deployment) : Res Deployment :=
  match Volumes (podOf d) with
  | [] => Panic
  | v :: vs =>
      match vol_Secret v with
      | None => Panic
      | Some _ =>
          Normal (overPod (setVolumes
                             ({| vol_Name := vol_Name v;
                                 vol_Secret := Some {| SecretName := name |} |}
                              :: vs)) d)
      end
  end.

(** [Volumes[0].Secret.SecretName], read: a panic under the same
    conditions. *)
Definition secretName0 (d : Deployment) : Res string :=
  match Volumes (podOf d) with
  | [] => Panic
  | v :: _ =>
      match vol_Secret v with
      | None => Panic
      | Some s => Normal (SecretName s)
      end
  end.

(** *** The functions of the file that touch no cluster *)

Definition routerDeploymentName (ci : ClusterIngress) : NamespacedName :=
  {| Namespace := "openshift-ingress"; Name := "router-" +:+ ci_Name ci |}.

(** [deploymentConfigChanged]: whether the secret name or the replicas of
    [current] differ from those of [expected], and the deployment to send in
    that case. *)
Definition deploymentConfigChanged (current expected : Deployment)
  : Res (bool * option Deployment) :=
  let? currentSecret := secretName0 current in
  let? expectedSecret := secretName0 expected in
  let? same :=
    if String.eqb currentSecret expectedSecret
    then match Replicas (d_Spec current) with
         | None => Normal false
         | Some currentReplicas =>
             match Replicas (d_Spec expected) with
             | None => Panic
             | Some expectedReplicas =>
                 Normal (currentReplicas =? expectedReplicas)
             end
         end
    else Normal false in
  if (same : bool)
  then Normal (false, None)
  else
    let updated := current in
    let? updated := setSecretName0 expectedSecret updated in
    let replicas := 1 in
    let replicas :=
      match Replicas (d_Spec expected) with
      | Some expectedReplicas => expectedReplicas
      | None => replicas
      end in
    let updated := setReplicas (Some replicas) updated in
    Normal (true, Some updated).

(** *** The cluster client

    [r.Client], as far as the file uses it, on deployments. A method takes
    the object it is given by pointer and the state of the cluster; it gives
    its error and the next state, and the object as the client left it where
    the file goes on using it. *)

Class Client (K : Type) : Type := {
  Get : NamespacedName -> Deployment -> K -> (Deployment * option error) * K;
  Create : Deployment -> K -> (Deployment * option error) * K;
  Update : Deployment -> K -> (Deployment * option error) * K;
  Delete : Deployment -> K -> option error * K
}.

(** The requests a function of the reconciler sends, in order. *)
Inductive Request : Type :=
| ReqGet (name : NamespacedName)
| ReqCreate (d : Deployment)
| ReqUpdate (d : Deployment)
| ReqDelete (d : Deployment).

(** The cluster, the requests sent so far and the lines logged so far. *)
Record Cluster (K : Type) : Type := {
  kube : K;
  requests : list Request;
  lines : list string
}.

Arguments kube {K} c.
Arguments requests {K} c.
Arguments lines {K} c.

(** [&appsv1.Deployment{}] *)
Definition zeroDeployment : Deployment :=
  {| d_Name := ""; d_Namespace := ""; d_Labels := None;
     d_Spec := {| Replicas := None; Selector := None;
                  Template := {| tpl_Labels := None;
                                 tpl_Spec := {| Volumes := []; Containers := [];
                                                NodeSelector := None;
                                                HostNetwork := false |} |} |} |}.

(** *** What the file takes from other packages *)

Class Packages : Type := {
  (** [manifests.RouterDeployment] and
      [manifests.OwningClusterIngressLabel] *)
  RouterDeployment : ClusterIngress -> Deployment;
  OwningClusterIngressLabel : string;
  (** the constants [ingressv1alpha1.CloudClusterIngressHA],
      [ingressv1alpha1.UserDefinedClusterIngressHA] and
      [configv1.AWSPlatform] *)
  CloudClusterIngressHA : string;
  UserDefinedClusterIngressHA : string;
  AWSPlatform : string;
  (** [metav1.LabelSelectorAsMap], and [metav1.LabelSelectorAsSelector]
      with the [String] method of the selector it returns *)
  LabelSelectorAsMap :
    LabelSelector -> option (gmap string string) * option error;
  LabelsSelector : Type;
  LabelSelectorAsSelector : LabelSelector -> LabelsSelector * option error;
  SelectorString : LabelsSelector -> string;
  (** [filepath.Join] of two elements, and the verbs [%q] (of a string) and
      [%v] (of an error) of [fmt] *)
  Join : string -> string -> string;
  Quote : string -> string;
  ErrorString : error -> string;
  (** [errors.IsNotFound], which also takes a nil error *)
  IsNotFound : option error -> bool
}.

(** [r.Config], as far as the file reads it. *)
Record Config : Type := { RouterImage : string }.

Section Desired.

Context `{Packages}.

Definition plainEnv (name value : string) : EnvVar :=
  {| ev_Name := name; ev_Value := value; ev_ValueFrom := None |}.

Definition secretEnv (name secret key : string) : EnvVar :=
  {| ev_Name := name; ev_Value := "";
     ev_ValueFrom :=
       Some {| SecretKeyRef := Some {| sk_Name := secret; sk_Key := key |} |} |}.

(** *** [desiredRouterDeployment], block by block *)

(** Lines 69-82: the name, the namespace, the label of the owning cluster
    ingress and the label of the pods. *)
Definition named (ci : ClusterIngress) (deployment : Deployment) : Deployment :=
  let name := routerDeploymentName ci in
  let deployment :=
    {| d_Name := Name name; d_Namespace := Namespace name;
       d_Labels := d_Labels deployment; d_Spec := d_Spec deployment |} in
  let deployment :=
    {| d_Name := d_Name deployment; d_Namespace := d_Namespace deployment;
       d_Labels := assign OwningClusterIngressLabel (ci_Name ci)
                     (d_Labels deployment);
       d_Spec := d_Spec deployment |} in
  setTemplateLabels
    (assign "router" (d_Name deployment)
       (tpl_Labels (Template (d_Spec deployment)))) deployment.

(** Lines 84-87: [Spec.Selector] is a pointer. *)
Definition withRouterSelector (deployment : Deployment) : Res Deployment :=
  match Selector (d_Spec deployment) with
  | None => Panic
  | Some sel =>
      Normal (setSelector
                (Some {| MatchLabels := assign "router" (d_Name deployment)
                                          (MatchLabels sel);
                         MatchExpressions := MatchExpressions sel |})
                deployment)
  end.

(** Lines 89-108. *)
Definition statsEnv (ci : ClusterIngress) : list EnvVar :=
  let statsSecretName := "router-stats-" +:+ ci_Name ci in
  [ plainEnv "ROUTER_SERVICE_NAME" (ci_Name ci);
    secretEnv "STATS_USERNAME" statsSecretName "statsUsername";
    secretEnv "STATS_PASSWORD" statsSecretName "statsPassword" ].

Definition certsVolumeName : string := "metrics-certs".
Definition certsVolumeMountPath : string := "/etc/pki/tls/metrics-certs".

(** Lines 111-127: the volume and the mount of the metrics certificates. *)
Definition metricsVolume (ci : ClusterIngress) : Volume :=
  let certsSecretName := "router-metrics-certs-" +:+ ci_Name ci in
  {| vol_Name := certsVolumeName;
     vol_Secret := Some {| SecretName := certsSecretName |} |}.

Definition metricsMount : VolumeMount :=
  {| vm_Name := certsVolumeName; vm_MountPath := certsVolumeMountPath;
     vm_ReadOnly := true |}.

Definition appendMount (mount : VolumeMount) (c : Container) : Container :=
  {| Env := Env c; Image := Image c;
     VolumeMounts := VolumeMounts c ++ [mount];
     LivenessProbe := LivenessProbe c; ReadinessProbe := ReadinessProbe c |}.

(** Lines 129-130. *)
Definition withMetricsCerts (ci : ClusterIngress) (deployment : Deployment)
  : Res Deployment :=
  let deployment :=
    overPod (fun p => setVolumes (Volumes p ++ [metricsVolume ci]) p)
      deployment in
  onContainer0 (appendMount metricsMount) deployment.

(** Lines 132-134. *)
Definition metricsEnv : list EnvVar :=
  [ plainEnv "ROUTER_METRICS_TYPE" "haproxy";
    plainEnv "ROUTER_METRICS_TLS_CERT_FILE" (Join certsVolumeMountPath "tls.crt");
    plainEnv "ROUTER_METRICS_TLS_KEY_FILE" (Join certsVolumeMountPath "tls.key") ].

(** Lines 136-138. *)
Definition hostnameEnv (ci : ClusterIngress) : list EnvVar :=
  if (0 <? String.length (ci_IngressDomain (ci_Status ci)))%nat
  then [plainEnv "ROUTER_CANONICAL_HOSTNAME" (ci_IngressDomain (ci_Status ci))]
  else [].

(** Lines 140-146: [infraConfig] is a pointer. *)
Definition withProxyProtocol (ci : ClusterIngress)
  (infraConfig : option Infrastructure) (env : list EnvVar)
  : Res (list EnvVar) :=
  if String.eqb (ci_HighAvailabilityType (ci_Status ci)) CloudClusterIngressHA
  then match infraConfig with
       | None => Panic
       | Some infra =>
           if String.eqb (Platform infra) AWSPlatform
           then Normal (env ++ [plainEnv "ROUTER_USE_PROXY_PROTOCOL" "true"])
           else Normal env
       end
  else Normal env.

(** The error of lines 152, 163 and 179 for the field [field]. *)
Definition invalidSelector (ci : ClusterIngress) (field : string) (err : error)
  : error :=
  Errorf ("clusteringress " +:+ Quote (ci_Name ci) +:+ " has invalid " +:+ field
          +:+ ": " +:+ ErrorString err).

(** Lines 148-158. *)
Definition withNodeSelector (ci : ClusterIngress) (deployment : Deployment)
  : Res Deployment :=
  match ci_NodePlacement (ci_Spec ci) with
  | None => Normal deployment
  | Some placement =>
      match np_NodeSelector placement with
      | None => Normal deployment
      | Some selector =>
          let '(nodeSelector, err) := LabelSelectorAsMap selector in
          match err with
          | Some err =>
              Return (invalidSelector ci "spec.nodePlacement.nodeSelector" err)
          | None => Normal (overPod (setNodeSelector nodeSelector) deployment)
          end
      end
  end.

(** Lines 160-171 (for [NAMESPACE_LABELS]) and 176-182 (for
    [ROUTE_LABELS]). *)
Definition withSelectorEnv (ci : ClusterIngress) (name field : string)
  (selector : option LabelSelector) (env : list EnvVar) : Res (list EnvVar) :=
  match selector with
  | None => Normal env
  | Some selector =>
      let '(labelsSelector, err) := LabelSelectorAsSelector selector in
      match err with
      | Some err => Return (invalidSelector ci field err)
      | None => Normal (env ++ [plainEnv name (SelectorString labelsSelector)])
      end
  end.

Definition appendEnv (env : list EnvVar) (c : Container) : Container :=
  {| Env := Env c ++ env; Image := Image c; VolumeMounts := VolumeMounts c;
     LivenessProbe := LivenessProbe c; ReadinessProbe := ReadinessProbe c |}.

Definition setImage (image : string) (c : Container) : Container :=
  {| Env := Env c; Image := image; VolumeMounts := VolumeMounts c;
     LivenessProbe := LivenessProbe c; ReadinessProbe := ReadinessProbe c |}.

(** Lines 188-199: host networking for the user-defined kind, with probes on
    localhost. *)
Definition withHostNetwork (ci : ClusterIngress) (deployment : Deployment)
  : Res Deployment :=
  if String.eqb (ci_HighAvailabilityType (ci_Status ci))
       UserDefinedClusterIngressHA
  then
    let deployment := overPod (setHostNetwork true) deployment in
    match Containers (podOf deployment) with
    | [] => Panic
    | c :: cs =>
        let? liveness := setProbeHost "localhost" (LivenessProbe c) in
        let? readiness := setProbeHost "localhost" (ReadinessProbe c) in
        Normal (overPod (setContainers
                           ({| Env := Env c; Image := Image c;
                               VolumeMounts := VolumeMounts c;
                               LivenessProbe := liveness;
                               ReadinessProbe := readiness |} :: cs))
                  deployment)
    end
  else Normal deployment.

(** Lines 201-205: the name of the default certificate secret. *)
Definition certSecretName (ci : ClusterIngress) : string :=
  let secretName := "router-certs-" +:+ ci_Name ci in
  match ci_DefaultCertificateSecret (ci_Spec ci) with
  | Some secret =>
      if (0 <? String.length secret)%nat then secret else secretName
  | None => secretName
  end.

Definition desiredRouterDeployment (ci : ClusterIngress) (routerImage : string)
  (infraConfig : option Infrastructure) : Res Deployment :=
  let deployment := RouterDeployment ci in
  let deployment := named ci deployment in
  let? deployment := withRouterSelector deployment in
  let env := statsEnv ci in
  let? deployment := withMetricsCerts ci deployment in
  let env := env ++ metricsEnv in
  let env := env ++ hostnameEnv ci in
  let? env := withProxyProtocol ci infraConfig env in
  let? deployment := withNodeSelector ci deployment in
  let? env :=
    withSelectorEnv ci "NAMESPACE_LABELS" "spec.namespaceSelector"
      (ci_NamespaceSelector (ci_Spec ci)) env in
  let replicas := ci_Replicas (ci_Spec ci) in
  let deployment := setReplicas (Some replicas) deployment in
  let? env :=
    withSelectorEnv ci "ROUTE_LABELS" "spec.routeSelector"
      (ci_RouteSelector (ci_Spec ci)) env in
  let? deployment := onContainer0 (appendEnv env) deployment in
  let? deployment := onContainer0 (setImage routerImage) deployment in
  let? deployment := withHostNetwork ci deployment in
  let? deployment := setSecretName0 (certSecretName ci) deployment in
  Normal deployment.

(** *** What [desiredRouterDeployment] puts into the deployment *)

(** The cluster ingress is of the cloud kind, on AWS. *)
Definition usesProxyProtocol (ci : ClusterIngress)
  (infraConfig : option Infrastructure) : bool :=
  String.eqb (ci_HighAvailabilityType (ci_Status ci)) CloudClusterIngressHA
  && match infraConfig with
     | Some infra => String.eqb (Platform infra) AWSPlatform
     | None => false
     end.

(** The cluster ingress is of the user-defined kind. *)
Definition isUserDefined (ci : ClusterIngress) : bool :=
  String.eqb (ci_HighAvailabilityType (ci_Status ci)) UserDefinedClusterIngressHA.

(** The variable that carries a selector, when the selector is there. *)
Definition selectorEnv (name : string) (selector : option LabelSelector)
  : list EnvVar :=
  match selector with
  | Some s => [plainEnv name (SelectorString (fst (LabelSelectorAsSelector s)))]
  | None => []
  end.

(** The variables added to the first container, in order. *)
Definition addedEnv (ci : ClusterIngress) (infraConfig : option Infrastructure)
  : list EnvVar :=
  statsEnv ci ++ metricsEnv ++ hostnameEnv ci
  ++ (if usesProxyProtocol ci infraConfig
      then [plainEnv "ROUTER_USE_PROXY_PROTOCOL" "true"] else [])
  ++ selectorEnv "NAMESPACE_LABELS" (ci_NamespaceSelector (ci_Spec ci))
  ++ selectorEnv "ROUTE_LABELS" (ci_RouteSelector (ci_Spec ci)).

(** A probe that has an HTTP action. *)
Definition hasHTTPGet (probe : option Probe) : Prop :=
  exists pr action, probe = Some pr /\ HTTPGet pr = Some action.

Definition localhostProbe : option Probe :=
  Some {| HTTPGet := Some {| Host := "localhost" |} |}.

(** The node selector the cluster ingress asks for, when it asks for one. *)
Definition requestedNodeSelector (ci : ClusterIngress) : option LabelSelector :=
  match ci_NodePlacement (ci_Spec ci) with
  | Some placement => np_NodeSelector placement
  | None => None
  end.

(** The error of a selector that does not convert, when it is there. *)
Definition nodeSelectorError (ci : ClusterIngress) : option error :=
  match requestedNodeSelector ci with
  | Some s => snd (LabelSelectorAsMap s)
  | None => None
  end.

Definition asSelectorError (selector : option LabelSelector) : option error :=
  match selector with
  | Some s => snd (LabelSelectorAsSelector s)
  | None => None
  end.

(** The error for the first selector that does not convert: the node
    selector, then the namespace selector, then the route selector. *)
Definition selectorError (ci : ClusterIngress) : option error :=
  match nodeSelectorError ci with
  | Some err => Some (invalidSelector ci "spec.nodePlacement.nodeSelector" err)
  | None =>
      match asSelectorError (ci_NamespaceSelector (ci_Spec ci)) with
      | Some err => Some (invalidSelector ci "spec.namespaceSelector" err)
      | None =>
          match asSelectorError (ci_RouteSelector (ci_Spec ci)) with
          | Some err => Some (invalidSelector ci "spec.routeSelector" err)
          | None => None
          end
      end
  end.

(** The manifest and the infrastructure config have what
    [desiredRouterDeployment] dereferences before it converts a selector: a
    selector and a first container in the manifest, and an infrastructure
    config when [ci] is of the cloud kind. *)
Definition reachesSelectors (ci : ClusterIngress)
  (infraConfig : option Infrastructure) : Prop :=
  let base := RouterDeployment ci in
  Selector (d_Spec base) <> None
  /\ Containers (podOf base) <> []
  /\ (String.eqb (ci_HighAvailabilityType (ci_Status ci)) CloudClusterIngressHA
      = true -> infraConfig <> None).

(** The manifest and the infrastructure config have what
    [desiredRouterDeployment] dereferences for [ci]: a selector, a first
    container (with both probes on HTTP when [ci] is of the user-defined
    kind), a secret in the first volume if there is a volume, and an
    infrastructure config when [ci] is of the cloud kind. *)
Definition dereferenceable (ci : ClusterIngress)
  (infraConfig : option Infrastructure) : Prop :=
  let base := RouterDeployment ci in
  Selector (d_Spec base) <> None
  /\ (exists c cs,
        Containers (podOf base) = c :: cs
        /\ (isUserDefined ci = true ->
            hasHTTPGet (LivenessProbe c) /\ hasHTTPGet (ReadinessProbe c)))
  /\ (forall v vs, Volumes (podOf base) = v :: vs -> vol_Secret v <> None)
  /\ (String.eqb (ci_HighAvailabilityType (ci_Status ci)) CloudClusterIngressHA
      = true -> infraConfig <> None).

(** *** The functions of the reconciler *)

Context {K : Type} `{Client K}.

Definition sent (req : Request) (k : K) (c : Cluster K) : Cluster K :=
  {| kube := k; requests := requests c ++ [req]; lines := lines c |}.

Definition logged (line : string) (c : Cluster K) : Cluster K :=
  {| kube := kube c; requests := requests c; lines := lines c ++ [line] |}.

Definition ensureRouterDeleted (ci : ClusterIngress) (c : Cluster K)
  : option error * Cluster K :=
  let deployment := RouterDeployment ci in
  let name := routerDeploymentName ci in
  let deployment :=
    {| d_Name := Name name; d_Namespace := Namespace name;
       d_Labels := d_Labels deployment; d_Spec := d_Spec deployment |} in
  let '(err, k) := Delete deployment (kube c) in
  let c := sent (ReqDelete deployment) k c in
  if negb (IsNotFound err) then (err, c) else (None, c).

Definition currentRouterDeployment (ci : ClusterIngress) (c : Cluster K)
  : (option Deployment * option error) * Cluster K :=
  let deployment := zeroDeployment in
  let '((deployment, err), k) :=
    Get (routerDeploymentName ci) deployment (kube c) in
  let c := sent (ReqGet (routerDeploymentName ci)) k c in
  match err with
  | Some err =>
      if IsNotFound (Some err)
      then ((None, None), c)
      else ((Some deployment, None), c)
  | None => ((Some deployment, None), c)
  end.

Definition createRouterDeployment (deployment : Deployment) (c : Cluster K)
  : option error * Cluster K :=
  let request := ReqCreate deployment in
  let '((deployment, err), k) := Create deployment (kube c) in
  let c := sent request k c in
  match err with
  | Some err =>
      (Some (Errorf ("failed to create router deployment "
                     +:+ d_Namespace deployment +:+ "/" +:+ d_Name deployment
                     +:+ ": " +:+ ErrorString err)), c)
  | None => (None, logged "created router deployment" c)
  end.

Definition updateRouterDeployment (current desired : Deployment)
  (c : Cluster K) : Res (option error) * Cluster K :=
  match deploymentConfigChanged current desired with
  | Panic => (Panic, c)
  | Return e => (Return e, c)
  | Normal (changed, updated) =>
      if negb changed then (Normal None, c)
      else
        match updated with
        | None => (Panic, c)
        | Some updated =>
            let request := ReqUpdate updated in
            let '((updated, err), k) := Update updated (kube c) in
            let c := sent request k c in
            match err with
            | Some err =>
                (Normal
                   (Some (Errorf ("failed to update router deployment "
                                  +:+ d_Namespace updated +:+ "/"
                                  +:+ d_Name updated +:+ ": "
                                  +:+ ErrorString err))), c)
            | None => (Normal None, logged "updated router deployment" c)
            end
        end
  end.

(** [ensureRouterDeployment]: [Normal d] is the return of [d] with a nil
    error, [Return e] the return of a nil deployment with [e]. *)
Definition ensureRouterDeployment (r : Config) (ci : ClusterIngress)
  (infraConfig : option Infrastructure) (c : Cluster K)
  : Res (option Deployment) * Cluster K :=
  match desiredRouterDeployment ci (RouterImage r) infraConfig with
  | Panic => (Panic, c)
  | Return err =>
      (Return (Errorf ("failed to build router deployment: "
                       +:+ ErrorString err)), c)
  | Normal desired =>
      let '((current, err), c) := currentRouterDeployment ci c in
      match err with
      | Some err => (Return err, c)
      | None =>
          let '(step, c) :=
            match current with
            | None =>
                let '(err, c) := createRouterDeployment desired c in
                (Normal err, c)
            | Some current => updateRouterDeployment current desired c
            end in
          match step with
          | Panic => (Panic, c)
          | Return err | Normal (Some err) => (Return err, c)
          | Normal None =>
              let '((deployment, err), c) := currentRouterDeployment ci c in
              match err with
              | Some err => (Return err, c)
              | None => (Normal deployment, c)
              end
          end
      end
  end.

End Desired.

End controller.

(** ** Notions used to state the properties of the controller *)

Module controller_notions.

Import metav1 types corev1 appsv1 ingressv1alpha1 infrastructure controller.

(** The secret name of the first volume, when there is a first volume and it
    has a secret. *)
Definition firstSecret (d : Deployment) : option string :=
  match Volumes (podOf d) with
  | v :: _ => SecretName <$> vol_Secret v
  | [] => None
  end.

(** [updated] is [current] but for the secret name of its first volume and
    its replicas. *)
Definition sameButSecretAndReplicas (current updated : Deployment) : Prop :=
  d_Name updated = d_Name current
  /\ d_Namespace updated = d_Namespace current
  /\ d_Labels updated = d_Labels current
  /\ Selector (d_Spec updated) = Selector (d_Spec current)
  /\ tpl_Labels (Template (d_Spec updated)) = tpl_Labels (Template (d_Spec current))
  /\ Containers (podOf updated) = Containers (podOf current)
  /\ NodeSelector (podOf updated) = NodeSelector (podOf current)
  /\ HostNetwork (podOf updated) = HostNetwork (podOf current)
  /\ map vol_Name (Volumes (podOf updated)) = map vol_Name (Volumes (podOf current))
  /\ tl (Volumes (podOf updated)) = tl (Volumes (podOf current)).

End controller_notions.

(** ** A manifest, packages and a cluster for the examples

    Stand-ins for what the controller takes from elsewhere, used where a
    property is shown on a concrete input: a manifest with one container and
    one volume, selector conversions that accept a selector without
    expressions, and a cluster that holds at most one deployment and can be
    unreachable. *)

Module controller_examples.

Import metav1 types corev1 appsv1 ingressv1alpha1 infrastructure controller.

Definition probe : option Probe := Some {| HTTPGet := Some {| Host := "" |} |}.

Definition manifest : Deployment :=
  {| d_Name := "router"; d_Namespace := "openshift-ingress"; d_Labels := None;
     d_Spec :=
       {| Replicas := None;
          Selector := Some {| MatchLabels := Some {[ "app" := "router" ]};
                              MatchExpressions := [] |};
          Template :=
            {| tpl_Labels := Some {[ "app" := "router" ]};
               tpl_Spec :=
                 {| Volumes :=
                      [ {| vol_Name := "default-certificate";
                           vol_Secret :=
                             Some {| SecretName := "router-certs-default" |} |} ];
                    Containers :=
                      [ {| Env := [plainEnv "STATS_PORT" "1936"];
                           Image := "openshift/origin-haproxy-router:v4.0";
                           VolumeMounts :=
                             [ {| vm_Name := "default-certificate";
                                  vm_MountPath := "/etc/pki/tls/private";
                                  vm_ReadOnly := true |} ];
                           LivenessProbe := probe;
                           ReadinessProbe := probe |} ];
                    NodeSelector := None;
                    HostNetwork := false |} |} |} |}.

Fixpoint errorText (e : error) : string :=
  match e with
  | Errorf msg => msg
  | Wrapf msg cause => msg +:+ errorText cause
  | Aggregate errs => "[" +:+ String.concat ", " (map errorText errs) +:+ "]"
  end.

Definition unsupported (r : LabelSelectorRequirement) : error :=
  Errorf (Operator r +:+ " is not a valid label selector operator").

Definition asMap (s : LabelSelector)
  : option (gmap string string) * option error :=
  match MatchExpressions s with
  | [] => (Some (default ∅ (MatchLabels s)), None)
  | r :: _ => (Some (default ∅ (MatchLabels s)), Some (unsupported r))
  end.

Definition asSelector (s : LabelSelector) : string * option error :=
  match MatchExpressions s with
  | [] =>
      (String.concat ","
         (map (fun kv => fst kv +:+ "=" +:+ snd kv)
            (map_to_list (default ∅ (MatchLabels s)))), None)
  | r :: _ => ("", Some (unsupported r))
  end.

Definition quote : string := String (Ascii.ascii_of_nat 34) "".

Definition notFound : error := Errorf "not found".

Definition packages : Packages :=
  {| RouterDeployment := fun _ => manifest;
     OwningClusterIngressLabel := "ingress.openshift.io/clusteringress";
     CloudClusterIngressHA := "Cloud";
     UserDefinedClusterIngressHA := "UserDefined";
     AWSPlatform := "AWS";
     LabelSelectorAsMap := asMap;
     LabelsSelector := string;
     LabelSelectorAsSelector := asSelector;
     SelectorString := fun s => s;
     Join := fun dir file => dir +:+ "/" +:+ file;
     Quote := fun s => quote +:+ s +:+ quote;
     ErrorString := errorText;
     IsNotFound := fun err =>
       match err with
       | Some (Errorf msg) => String.eqb msg "not found"
       | _ => false
       end |}.

(** The cluster: the deployment it holds, and whether it answers. *)
Record Kube : Type := {
  stored : option Deployment;
  reachable : bool
}.

Definition unreachable : error := Errorf "connection refused".

Definition holding (d : option Deployment) (k : Kube) : Kube :=
  {| stored := d; reachable := reachable k |}.

Definition client : Client Kube :=
  {| Get := fun _ obj k =>
       if reachable k
       then match stored k with
            | Some d => ((d, None), k)
            | None => ((obj, Some notFound), k)
            end
       else ((obj, Some unreachable), k);
     Create := fun d k =>
       if reachable k
       then match stored k with
            | Some _ => ((d, Some (Errorf "already exists")), k)
            | None => ((d, None), holding (Some d) k)
            end
       else ((d, Some unreachable), k);
     Update := fun d k =>
       if reachable k
       then match stored k with
            | Some _ => ((d, None), holding (Some d) k)
            | None => ((d, Some notFound), k)
            end
       else ((d, Some unreachable), k);
     Delete := fun _ k =>
       if reachable k
       then match stored k with
            | Some _ => (None, holding None k)
            | None => (Some notFound, k)
            end
       else (Some unreachable, k) |}.

Definition cluster (d : option Deployment) (up : bool) : Cluster Kube :=
  {| kube := {| stored := d; reachable := up |}; requests := []; lines := [] |}.

Definition labelled (key value : string) : LabelSelector :=
  {| MatchLabels := Some {[ key := value ]}; MatchExpressions := [] |}.

(** A cluster ingress of the kind [kind] named [default]. *)
Definition ingress (kind : string) : ClusterIngress :=
  {| ci_Name := "default";
     ci_Spec :=
       {| ci_NodePlacement :=
            Some {| np_NodeSelector :=
                      Some (labelled "node-role.kubernetes.io/worker" "") |};
          ci_NamespaceSelector := Some (labelled "env" "prod");
          ci_Replicas := 2;
          ci_RouteSelector := None;
          ci_DefaultCertificateSecret := Some "my-certs" |};
     ci_Status := {| ci_IngressDomain := "apps.example.com";
                     ci_HighAvailabilityType := kind |} |}.

(** [ingress kind] with a route selector that does not convert. *)
Definition invalidIngress (kind : string) : ClusterIngress :=
  let ci := ingress kind in
  {| ci_Name := ci_Name ci;
     ci_Spec :=
       {| ci_NodePlacement := ci_NodePlacement (ci_Spec ci);
          ci_NamespaceSelector := ci_NamespaceSelector (ci_Spec ci);
          ci_Replicas := ci_Replicas (ci_Spec ci);
          ci_RouteSelector :=
            Some {| MatchLabels := None;
                    MatchExpressions :=
                      [ {| Key := "tier"; Operator := "Within";
                           Values := ["a"] |} ] |};
          ci_DefaultCertificateSecret :=
            ci_DefaultCertificateSecret (ci_Spec ci) |};
     ci_Status := ci_Status ci |}.

Definition aws : option Infrastructure := Some {| Platform := "AWS" |}.

Definition config : Config := {| RouterImage := "registry/router:v4.1" |}.

(** The deployment [desiredRouterDeployment] returns, or the zero deployment
    when it returns none. *)
Definition desiredOf (ci : ClusterIngress) (image : string)
  (infraConfig : option Infrastructure) : Deployment :=
  match desiredRouterDeployment (H := packages) ci image infraConfig with
  | Normal d => d
  | _ => zeroDeployment
  end.

End controller_examples.
(** * Properties *)

(** ** [strings.TrimSuffix] on a trailing dot *)

Section TrimSuffixDot.

Lemma length_append_dot (s : string) :
  String.length (s +:+ ".") = S (String.length s).
Proof. induction s as [|c s IH]; simpl; [reflexivity | now rewrite IH]. Qed.

Lemma substring_last_dot (s : string) :
  substring (String.length s) 1 (s +:+ ".") = ".".
Proof. induction s as [|c s IH]; simpl; [reflexivity | exact IH]. Qed.

Lemma substring_init_dot (s : string) :
  substring 0 (String.length s) (s +:+ ".") = s.
Proof. induction s as [|c s IH]; simpl; [reflexivity | now rewrite IH]. Qed.

(** A name that ends with a dot loses exactly that dot. *)
Lemma TrimSuffix_dot_app (s : string) : TrimSuffix (s +:+ ".") "." = s.
Proof.
  unfold TrimSuffix, HasSuffix. rewrite length_append_dot. simpl.
  rewrite Nat.sub_0_r, substring_last_dot. simpl.
  apply substring_init_dot.
Qed.

(** A name accepted by [HasSuffix _ "."] is its prefix followed by a dot. *)
Lemma HasSuffix_dot_inv (s : string) :
  HasSuffix s "." = true ->
  s = substring 0 (String.length s - 1) s +:+ ".".
Proof.
  unfold HasSuffix. simpl String.length.
  induction s as [|c s IH]; [discriminate |].
  destruct s as [|d s].
  - simpl. destruct (Ascii.eqb_spec c "."%char) as [->|]; [reflexivity | discriminate].
  - intros Hs.
    replace (String.length (String c (String d s)) - 1)%nat
      with (S (String.length (String d s) - 1)) by (simpl; lia).
    change (String c (String d s) =
            String c (substring 0 (String.length (String d s) - 1) (String d s) +:+ ".")).
    f_equal. apply IH.
    replace (String.length (String d s) - 1)%nat with (String.length s)
      by (simpl; lia).
    replace (String.length (String c (String d s)) - 1)%nat
      with (S (String.length s)) in Hs by (simpl; lia).
    exact Hs.
Qed.

(** A name that does not end with a dot is left as it is. *)
Lemma TrimSuffix_dot_id (s : string) :
  (forall s', s <> s' +:+ ".") -> TrimSuffix s "." = s.
Proof.
  intros Hno. unfold TrimSuffix.
  destruct (HasSuffix s ".") eqn:Hs; [| reflexivity].
  exfalso. exact (Hno _ (HasSuffix_dot_inv s Hs)).
Qed.

End TrimSuffixDot.

(** ** The shape of an operation that passes its two gates *)

Section Runs.

Context {St : Type} `{DnsClient St}.


Lemma normalized_TTL (record : DNSRecord) :
  RecordTTL (Spec (normalized record)) = effectiveTTL (RecordTTL (Spec record)).
Proof.
  unfold normalized, effectiveTTL.
  now destruct (ttlOutOfRange (RecordTTL (Spec record))).
Qed.

Lemma normalized_fields (record : DNSRecord) :
  DNSName (Spec (normalized record)) = DNSName (Spec record)
  /\ RecordType (Spec (normalized record)) = RecordType (Spec record)
  /\ Targets (Spec (normalized record)) = Targets (Spec record).
Proof.
  unfold normalized.
  now destruct (ttlOutOfRange (RecordTTL (Spec record))).
Qed.

Lemma validate_nil_record (zone : DNSZone) :
  validateInputDNSData None zone <> None.
Proof.
  unfold validateInputDNSData.
  now destruct (String.length (ID zone) =? 0)%nat.
Qed.

Lemma createOrUpdate_run (p : Provider St) (record : DNSRecord)
  (zone : DNSZone) (dnsService : St) :
  validateInputDNSData (Some record) zone = None ->
  dnsServices p !! ID zone = Some dnsService ->
  createOrUpdateDNSRecord p (Some record) zone
  = finish p (Some (normalized record)) zone
      (forEach (upsertTarget (normalized record) (upsertListOpt (normalized record)))
         (Targets (Spec (normalized record)))
         (upsertStart record dnsService)).
Proof.
  intros Hv Hz. unfold createOrUpdateDNSRecord. rewrite Hv, Hz.
  unfold normalized, upsertStart.
  now destruct (ttlOutOfRange (RecordTTL (Spec record))).
Qed.

Lemma Delete_run (p : Provider St) (record : DNSRecord) (zone : DNSZone)
  (dnsService : St) :
  validateInputDNSData (Some record) zone = None ->
  dnsServices p !! ID zone = Some dnsService ->
  Delete p (Some record) zone
  = finish p (Some record) zone
      (forEach (deleteTarget (deleteListOpt record)) (Targets (Spec record))
         (deleteStart dnsService)).
Proof.
  intros Hv Hz. unfold Delete. now rewrite Hv, Hz.
Qed.


Lemma createOrUpdate_gated (p : Provider St) (record : option DNSRecord)
  (zone : DNSZone) :
  Gated p record zone ->
  exists e, createOrUpdateDNSRecord p record zone = rejected p record e.
Proof.
  intros [Hv | Hz]; unfold createOrUpdateDNSRecord.
  - destruct (validateInputDNSData record zone); [eauto | congruence].
  - destruct (validateInputDNSData record zone); [eauto |].
    rewrite Hz. eauto.
Qed.

Lemma Delete_gated (p : Provider St) (record : option DNSRecord)
  (zone : DNSZone) :
  Gated p record zone ->
  exists e, Delete p record zone = rejected p record e.
Proof.
  intros [Hv | Hz]; unfold Delete.
  - destruct (validateInputDNSData record zone); [eauto | congruence].
  - destruct (validateInputDNSData record zone); [eauto |].
    rewrite Hz. eauto.
Qed.

(** Every call of an operation either is stopped by a gate or runs its loop
    on a record that is there. *)
Lemma gate_cases (p : Provider St) (record : option DNSRecord) (zone : DNSZone) :
  Gated p record zone
  \/ exists r dnsService,
       record = Some r
       /\ validateInputDNSData (Some r) zone = None
       /\ dnsServices p !! ID zone = Some dnsService.
Proof.
  destruct (validateInputDNSData record zone) eqn:Hv.
  - left. apply gated_invalid. congruence.
  - destruct (dnsServices p !! ID zone) as [dnsService|] eqn:Hz.
    + destruct record as [r|].
      * right. eauto.
      * now destruct (validate_nil_record zone).
    + left. now apply gated_unknown.
Qed.

End Runs.

(** ** The calls an operation issues *)

Section Calls.

Context {St : Type} `{DnsClient St}.

Local Abbreviation emits := (emits (St := St)).


Lemma emits_ret {A : Type} (P : Call -> Prop) (a : A) : emits P (ret a).
Proof. intros w. exists []. simpl. now rewrite app_nil_r. Qed.

Lemma emits_returnErr {A : Type} (P : Call -> Prop) (e : error) :
  emits P (returnErr (A := A) e).
Proof. intros w. exists []. simpl. now rewrite app_nil_r. Qed.

Lemma emits_panic {A : Type} (P : Call -> Prop) : emits P (panic (A := A)).
Proof. intros w. exists []. simpl. now rewrite app_nil_r. Qed.

Lemma emits_logInfo (P : Call -> Prop) (msg : string) : emits P (logInfo msg).
Proof. intros w. exists []. simpl. now rewrite app_nil_r. Qed.

Lemma emits_invoke {O R : Type} (P : Call -> Prop)
  (method : O -> St -> R * St) (mk : O -> Call) (opt : O) :
  P (mk opt) -> emits P (invoke method mk opt).
Proof.
  intros HP w. exists [mk opt]. unfold invoke.
  destruct (method opt (remote w)) as [r st]. simpl. split; [reflexivity |].
  now constructor.
Qed.

Lemma emits_bind {A B : Type} (P : Call -> Prop) (m : M A) (k : A -> M B) :
  emits P m -> (forall a, emits P (k a)) -> emits P (bind m k).
Proof.
  intros Hm Hk w. unfold bind.
  destruct (Hm w) as (cs & Hcs & HP).
  destruct (m w) as [[a | e |] w1]; simpl in *; [| now eauto | now eauto].
  destruct (Hk a w1) as (cs' & Hcs' & HP').
  exists (cs ++ cs'). rewrite Hcs', Hcs, app_assoc. split; [reflexivity |].
  apply Forall_app; auto.
Qed.

Lemma emits_forEach {A : Type} (P : Call -> Prop) (body : A -> M unit)
  (l : list A) :
  (forall x, In x l -> emits P (body x)) -> emits P (forEach body l).
Proof.
  induction l as [|x l IH]; intros Hbody; simpl.
  - apply emits_ret.
  - apply emits_bind.
    + apply Hbody. now left.
    + intros _. apply IH. intros y Hy. apply Hbody. now right.
Qed.

Lemma emits_trace {A : Type} (P : Call -> Prop) (m : M A) (w : World St) :
  emits P m -> calls w = [] -> Forall P (calls (snd (m w))).
Proof.
  intros Hm Hw. destruct (Hm w) as (cs & -> & HP). now rewrite Hw.
Qed.


Lemma upsertTarget_emits (record : DNSRecord) (target : string) :
  In target (Targets (Spec record)) ->
  emits (upsertCall record) (upsertTarget record (upsertListOpt record) target).
Proof.
  intros Hin. unfold upsertTarget.
  apply emits_bind.
  { apply emits_invoke. simpl. eauto. }
  intros [[result response] err].
  destruct err as [err|].
  { destruct (notNilNorNotFound response);
      [apply emits_returnErr | apply emits_ret]. }
  destruct result as [[[[|first rest]|]]|]; cbn [Result];
    try apply emits_returnErr.
  - apply emits_bind.
    { apply emits_invoke. simpl. eauto 6. }
    intros [resp [err|]]; [apply emits_returnErr | apply emits_logInfo].
  - destruct (rd_ID first) as [id|]; [| apply emits_panic].
    apply emits_bind.
    { apply emits_invoke. simpl. eauto 6. }
    intros [resp [err|]]; [apply emits_returnErr | apply emits_logInfo].
Qed.

Lemma deleteEntry_emits (record : DNSRecord) (resultData : DnsrecordDetails) :
  emits (deleteCall record) (deleteEntry resultData).
Proof.
  unfold deleteEntry.
  destruct (rd_ID resultData) as [id|]; [| apply emits_returnErr].
  apply emits_bind.
  { apply emits_invoke. exact I. }
  intros [delResponse err].
  apply emits_bind.
  - destruct err as [err|]; [| apply emits_ret].
    destruct (notNilNorNotFound delResponse);
      [apply emits_returnErr | apply emits_ret].
  - intros _. destruct (notNilNorNotFound delResponse);
      [apply emits_logInfo | apply emits_ret].
Qed.

Lemma deleteTarget_emits (record : DNSRecord) (target : string) :
  In target (Targets (Spec record)) ->
  emits (deleteCall record) (deleteTarget (deleteListOpt record) target).
Proof.
  intros Hin. unfold deleteTarget.
  apply emits_bind.
  { apply emits_invoke. simpl. eauto. }
  intros [[result response] err].
  destruct err as [err|].
  { destruct (notNilNorNotFound response);
      [apply emits_returnErr | apply emits_ret]. }
  destruct result as [[[entries|]]|]; cbn [Result];
    try apply emits_returnErr.
  apply emits_forEach. intros e _. apply deleteEntry_emits.
Qed.

(** Every call [Ensure] and [Replace] issue is a call of the upsert loop for
    the normalised record. *)
Lemma createOrUpdate_trace (p : Provider St) (record : DNSRecord)
  (zone : DNSZone) :
  Forall (upsertCall (normalized record))
    (trace (createOrUpdateDNSRecord p (Some record) zone)).
Proof.
  destruct (gate_cases p (Some record) zone)
    as [Hg | (r & dnsService & [= <-] & Hv & Hz)].
  - destruct (createOrUpdate_gated _ _ _ Hg) as [e ->]. constructor.
  - rewrite (createOrUpdate_run _ _ _ _ Hv Hz). simpl.
    apply emits_trace; [| reflexivity].
    apply emits_forEach. intros t Ht. now apply upsertTarget_emits.
Qed.

Lemma Delete_trace (p : Provider St) (record : DNSRecord) (zone : DNSZone) :
  Forall (deleteCall record) (trace (Delete p (Some record) zone)).
Proof.
  destruct (gate_cases p (Some record) zone)
    as [Hg | (r & dnsService & [= <-] & Hv & Hz)].
  - destruct (Delete_gated _ _ _ Hg) as [e ->]. constructor.
  - rewrite (Delete_run _ _ _ _ Hv Hz). simpl.
    apply emits_trace; [| reflexivity].
    apply emits_forEach. intros t Ht. now apply deleteTarget_emits.
Qed.

End Calls.

(** ** TTL normalisation *)

Section TTL.

Context {St : Type} `{DnsClient St}.

Lemma usesTTL_of_upsertCall (record : DNSRecord) (c : Call) :
  upsertCall record c -> usesTTL (RecordTTL (Spec record)) c.
Proof. destruct c; simpl; tauto. Qed.

(** Every create and update call of the upsert operation carries the
    effective TTL of the record it was given. *)
Lemma createOrUpdate_usesTTL (p : Provider St) (record : DNSRecord)
  (zone : DNSZone) :
  Forall (usesTTL (effectiveTTL (RecordTTL (Spec record))))
    (trace (createOrUpdateDNSRecord p (Some record) zone)).
Proof.
  rewrite <- normalized_TTL.
  eapply List.Forall_impl; [| apply createOrUpdate_trace].
  apply usesTTL_of_upsertCall.
Qed.

Lemma effectiveTTL_default (ttl : Z) :
  1 < ttl < 120 \/ ttl = 0 -> effectiveTTL ttl = 120.
Proof.
  intros Hr. unfold effectiveTTL, ttlOutOfRange, defaultCISRecordTTL.
  destruct (ttl >? 1) eqn:H1, (ttl <? 120) eqn:H2, (ttl =? 0) eqn:H3;
    simpl; try reflexivity; lia.
Qed.

Lemma effectiveTTL_unchanged (ttl : Z) :
  ~ (1 < ttl < 120 \/ ttl = 0) -> effectiveTTL ttl = ttl.
Proof.
  intros Hr. unfold effectiveTTL, ttlOutOfRange.
  destruct (ttl >? 1) eqn:H1, (ttl <? 120) eqn:H2, (ttl =? 0) eqn:H3;
    simpl; try reflexivity; exfalso; apply Hr; lia.
Qed.

(** C2, as the code has it. The TTL used by an upsert operation is the
    default 120 when the requested TTL is 0 or strictly between 1 and 120,
    and the requested TTL itself otherwise (so 1, every value from 120 on
    and every negative value pass through); every create and update call
    of the operation carries that one effective TTL. *)
Theorem ttl_normalisation (p : Provider St) (record : DNSRecord)
  (zone : DNSZone) :
  let requestedTTL := RecordTTL (Spec record) in
  (1 < requestedTTL < 120 \/ requestedTTL = 0 ->
   effectiveTTL requestedTTL = 120)
  /\ (~ (1 < requestedTTL < 120 \/ requestedTTL = 0) ->
      effectiveTTL requestedTTL = requestedTTL)
  /\ effectiveTTL 1 = 1
  /\ Forall (usesTTL (effectiveTTL requestedTTL))
       (trace (createOrUpdateDNSRecord p (Some record) zone)).
Proof.
  intros requestedTTL. split; [apply effectiveTTL_default |].
  split; [apply effectiveTTL_unchanged |].
  split; [reflexivity | apply createOrUpdate_usesTTL].
Qed.

(** For the requested TTLs of the table, no create or update call of
    [Ensure] or [Replace] carries another TTL than the effective one. *)
Lemma ttl_table_in_traces (p : Provider St) (record : DNSRecord)
  (zone : DNSZone) (requested effective : Z) :
  In (requested, effective)
     [(0, 120); (1, 1); (50, 120); (119, 120); (120, 120); (121, 121);
      (2147483647, 2147483647)] ->
  RecordTTL (Spec record) = requested ->
  effectiveTTL requested = effective
  /\ Forall (usesTTL effective) (trace (Ensure p (Some record) zone))
  /\ Forall (usesTTL effective) (trace (Replace p (Some record) zone)).
Proof.
  intros Hin Hrec.
  assert (Heff : effectiveTTL requested = effective).
  { simpl in Hin.
    repeat (destruct Hin as [[= <- <-] | Hin]; [reflexivity |]).
    destruct Hin. }
  unfold Ensure, Replace. rewrite <- Heff, <- Hrec.
  auto using createOrUpdate_usesTTL.
Qed.

End TTL.

(** C2, as stated, fails at the automatic sentinel: 1 lies strictly between
    0 and 120, and the operation creates the entry with TTL 1, not 120. *)
Lemma ttl_sentinel_not_defaulted :
  (0 < 1 < 120 \/ 1 = 0)
  /\ effectiveTTL 1 <> 120
  /\ trace (Ensure (Examples.scripted [Scripted.listed []; Scripted.callOk;
                                       Scripted.listed []; Scripted.callOk])
                   (Some (Examples.wildcard 1)) Examples.zone1)
     = [CallList {| lo_Type := Some "A"; lo_Name := Some "*.apps.example.com";
                    lo_Content := Some "1.2.3.4" |};
        CallCreate {| co_Name := Some "*.apps.example.com."; co_Type := Some "A";
                      co_Content := Some "1.2.3.4"; co_TTL := Some 1 |};
        CallList {| lo_Type := Some "A"; lo_Name := Some "*.apps.example.com";
                    lo_Content := Some "5.6.7.8" |};
        CallCreate {| co_Name := Some "*.apps.example.com."; co_Type := Some "A";
                      co_Content := Some "5.6.7.8"; co_TTL := Some 1 |}].
Proof.
  split; [lia |]. split; [discriminate |]. vm_compute. reflexivity.
Qed.

Lemma ttl_normalisation_witness :
  (1 < 50 < 120 \/ 50 = 0)
  /\ effectiveTTL 50 = 120.
Proof.
  split; [lia |].
  apply (ttl_normalisation (Examples.scripted []) (Examples.wildcard 50)
           Examples.zone1).
  simpl. lia.
Defined.

(** ** Input validation *)

Section Validation.

Lemma length_eqb_0 (s : string) : (String.length s =? 0)%nat = String.eqb s "".
Proof. now destruct s. Qed.

Lemma validate_refines_spec (record : option DNSRecord) (zone : DNSZone) :
  validateInputDNSData record zone = validation_spec record zone.
Proof.
  unfold validateInputDNSData, validation_spec, rules.
  rewrite length_eqb_0.
  destruct record as [r|]; simpl.
  - rewrite !length_eqb_0.
    destruct (String.eqb (DNSName (Spec r)) ""),
             (String.eqb (RecordType (Spec r)) ""),
             (Targets (Spec r)), (String.eqb (ID zone) ""); reflexivity.
  - destruct (String.eqb (ID zone) ""); reflexivity.
Qed.

Lemma NewAggregate_None (errs : list error) :
  kerrors.NewAggregate errs = None <-> errs = [].
Proof. destruct errs; simpl; split; congruence. Qed.

Lemma filter_nil_iff {A : Type} (f : A -> bool) (l : list A) :
  List.filter f l = [] <-> forall x, In x l -> f x = false.
Proof.
  induction l as [|a l IH]; simpl.
  - split; [intros _ x [] | reflexivity].
  - destruct (f a) eqn:Ha; split.
    + discriminate.
    + intros Hall. specialize (Hall a (or_introl eq_refl)). congruence.
    + intros Hnil x [<- | Hx]; [exact Ha | now apply IH].
    + intros Hall. apply IH. auto.
Qed.

Lemma rules_complete (rule : Rule) : In rule rules.
Proof. destruct rule; simpl; tauto. Qed.

(** C5. Validation reports one failure for every violated rule among
    "record is nil", "name empty", "type empty", "targets empty" and "zone id
    empty", in that order and without stopping at the first, combined into
    a single aggregate; it passes exactly when no rule is violated. *)
Theorem validation_reports_every_violation (record : option DNSRecord)
  (zone : DNSZone) :
  let violated := List.filter (violates record zone) rules in
  validateInputDNSData record zone = kerrors.NewAggregate (map failureOf violated)
  /\ (validateInputDNSData record zone = None
      <-> forall rule, violates record zone rule = false)
  /\ (violated <> [] ->
      validateInputDNSData record zone = Some (Aggregate (map failureOf violated))
      /\ length (map failureOf violated) = length violated).
Proof.
  intros violated. split; [apply validate_refines_spec |]. split.
  - rewrite validate_refines_spec. unfold validation_spec.
    rewrite NewAggregate_None. fold violated. split.
    + intros Hnil rule. destruct violated eqn:Hv; [| discriminate].
      apply (proj1 (filter_nil_iff _ _) Hv), rules_complete.
    + intros Hall. assert (Hv : violated = []).
      { apply filter_nil_iff. auto. }
      now rewrite Hv.
  - intros Hne. rewrite validate_refines_spec. unfold validation_spec.
    fold violated. rewrite length_map. split; [| reflexivity].
    destruct violated; [congruence | reflexivity].
Qed.

End Validation.

Lemma validation_reports_every_violation_witness :
  validateInputDNSData (Some Examples.unnamed) {| ID := "" |}
  = Some (Aggregate [Errorf "validateInputDNSData: dns record name is empty";
                     Errorf "validateInputDNSData: dns zone id is empty"]).
Proof.
  apply (validation_reports_every_violation (Some Examples.unnamed) {| ID := "" |}).
  discriminate.
Defined.

(** ** The two gates *)

Section Gates.

Context {St : Type} `{DnsClient St}.

Lemma rejected_stopped (p : Provider St) (record : option DNSRecord)
  (e : error) :
  stopped (rejected p record e) p record e.
Proof. repeat split. Qed.

Lemma createOrUpdate_stopped (p : Provider St) (record : option DNSRecord)
  (zone : DNSZone) :
  Gated p record zone ->
  exists e,
    stopped (createOrUpdateDNSRecord p record zone) p record e
    /\ (validateInputDNSData record zone = None ->
        e = Errorf ("createOrUpdateDNSRecord: unknown zone: " +:+ ID zone)).
Proof.
  intros Hg. unfold createOrUpdateDNSRecord.
  destruct (validateInputDNSData record zone) as [err|] eqn:Hv.
  - eexists. split; [apply rejected_stopped | discriminate].
  - destruct Hg as [Hg | Hz]; [congruence |]. rewrite Hz.
    eexists. split; [apply rejected_stopped | reflexivity].
Qed.

Lemma Delete_stopped (p : Provider St) (record : option DNSRecord)
  (zone : DNSZone) :
  Gated p record zone ->
  exists e,
    stopped (Delete p record zone) p record e
    /\ (validateInputDNSData record zone = None ->
        e = Errorf ("delete: unknown zone: " +:+ ID zone)).
Proof.
  intros Hg. unfold Delete.
  destruct (validateInputDNSData record zone) as [err|] eqn:Hv.
  - eexists. split; [apply rejected_stopped | discriminate].
  - destruct Hg as [Hg | Hz]; [congruence |]. rewrite Hz.
    eexists. split; [apply rejected_stopped | reflexivity].
Qed.

(** C4. When the input fails validation, or the zone id is not in the
    registry, [Ensure], [Replace] and [Delete] return an error and issue no
    remote call (the provider and the record stay as they were); for an
    input that passes validation the error names the unknown zone id. *)
Theorem gates_stop_before_any_remote_call (p : Provider St)
  (record : option DNSRecord) (zone : DNSZone) :
  validateInputDNSData record zone <> None
  \/ dnsServices p !! ID zone = None ->
  (exists e,
      stopped (Ensure p record zone) p record e
      /\ (validateInputDNSData record zone = None ->
          e = Errorf ("createOrUpdateDNSRecord: unknown zone: " +:+ ID zone)))
  /\ (exists e,
         stopped (Replace p record zone) p record e
         /\ (validateInputDNSData record zone = None ->
             e = Errorf ("createOrUpdateDNSRecord: unknown zone: " +:+ ID zone)))
  /\ (exists e,
         stopped (Delete p record zone) p record e
         /\ (validateInputDNSData record zone = None ->
             e = Errorf ("delete: unknown zone: " +:+ ID zone))).
Proof.
  intros Hg.
  assert (Hg' : Gated p record zone).
  { destruct Hg; [now apply gated_invalid | now apply gated_unknown]. }
  unfold Ensure, Replace.
  auto using createOrUpdate_stopped, Delete_stopped.
Qed.

End Gates.

Lemma gates_stop_before_any_remote_call_witness :
  dnsServices (Examples.scripted []) !! "missing" = None
  /\ exists e,
       stopped (Ensure (Examples.scripted []) (Some (Examples.wildcard 300))
                  {| ID := "missing" |})
         (Examples.scripted []) (Some (Examples.wildcard 300)) e
       /\ (validateInputDNSData (Some (Examples.wildcard 300)) {| ID := "missing" |}
           = None ->
           e = Errorf "createOrUpdateDNSRecord: unknown zone: missing").
Proof.
  split; [reflexivity |].
  apply (gates_stop_before_any_remote_call (Examples.scripted [])
           (Some (Examples.wildcard 300)) {| ID := "missing" |}).
  right. reflexivity.
Defined.

(** ** Names in the list filter and in the writes *)

Section Names.

Context {St : Type} `{DnsClient St}.

Lemma usesNames_of_upsertCall (record : DNSRecord) (c : Call) :
  upsertCall record c ->
  usesNames (TrimSuffix (DNSName (Spec record)) ".") (DNSName (Spec record)) c.
Proof. destruct c; simpl; tauto. Qed.

Lemma listsOn_of_deleteCall (record : DNSRecord) (c : Call) :
  deleteCall record c -> listsOn (DNSName (Spec record)) c.
Proof. destruct c; simpl; tauto. Qed.

(** In the upsert path no list call filters on another name than the
    desired name with one trailing dot removed, and no create or update call
    writes another name than the desired name as it is; in the delete path no
    list call filters on another name than the desired name as it is. *)
Lemma names_in_traces (p : Provider St) (record : DNSRecord)
  (zone : DNSZone) :
  let name := DNSName (Spec record) in
  Forall (usesNames (TrimSuffix name ".") name)
    (trace (createOrUpdateDNSRecord p (Some record) zone))
  /\ Forall (listsOn name) (trace (Delete p (Some record) zone))
  /\ (forall s, name = s +:+ "." -> TrimSuffix name "." = s)
  /\ ((forall s, name <> s +:+ ".") -> TrimSuffix name "." = name).
Proof.
  intros name. repeat split.
  - destruct (normalized_fields record) as (Hname & _). fold name in Hname.
    rewrite <- Hname.
    eapply List.Forall_impl; [| apply createOrUpdate_trace].
    apply usesNames_of_upsertCall.
  - eapply List.Forall_impl; [| apply Delete_trace].
    apply listsOn_of_deleteCall.
  - intros s ->. apply TrimSuffix_dot_app.
  - apply TrimSuffix_dot_id.
Qed.

End Names.

(** ** The record after an operation *)

Section RecordAfter.

Context {St : Type} `{DnsClient St}.

Lemma ttlOutOfRange_iff (ttl : Z) :
  ttlOutOfRange ttl = true <-> (ttl = 0 \/ 1 < ttl < 120).
Proof.
  unfold ttlOutOfRange.
  destruct (ttl >? 1) eqn:H1, (ttl <? 120) eqn:H2, (ttl =? 0) eqn:H3;
    simpl; split; intros Hr; try reflexivity; try discriminate; lia.
Qed.

Lemma createOrUpdate_recordAfter (p : Provider St) (record : DNSRecord)
  (zone : DNSZone) :
  (Gated p (Some record) zone
   /\ recordAfter (createOrUpdateDNSRecord p (Some record) zone) = Some record)
  \/ (validateInputDNSData (Some record) zone = None
      /\ is_Some (dnsServices p !! ID zone)
      /\ recordAfter (createOrUpdateDNSRecord p (Some record) zone)
         = Some (normalized record)).
Proof.
  destruct (gate_cases p (Some record) zone)
    as [Hg | (r & dnsService & [= <-] & Hv & Hz)].
  - left. split; [exact Hg |].
    now destruct (createOrUpdate_gated _ _ _ Hg) as [e ->].
  - right. rewrite (createOrUpdate_run _ _ _ _ Hv Hz). eauto.
Qed.

Lemma Delete_recordAfter (p : Provider St) (record : option DNSRecord)
  (zone : DNSZone) :
  recordAfter (Delete p record zone) = record.
Proof.
  destruct (gate_cases p record zone)
    as [Hg | (r & dnsService & -> & Hv & Hz)].
  - now destruct (Delete_gated _ _ _ Hg) as [e ->].
  - now rewrite (Delete_run _ _ _ _ Hv Hz).
Qed.

(** C9, as the code has it. On a call that passes validation and zone
    resolution, [Ensure] and [Replace] write the default 120 into the
    caller's record when its TTL is 0 or strictly between 1 and 120; on a
    call stopped by validation or zone resolution, and for every other TTL,
    they leave the record as it was; [Delete] leaves it as it was on every
    input. *)
Theorem ttl_default_written_to_caller_record (p : Provider St)
  (record : DNSRecord) (zone : DNSZone) :
  let ttl := RecordTTL (Spec record) in
  (validateInputDNSData (Some record) zone = None ->
   is_Some (dnsServices p !! ID zone) ->
   ttl = 0 \/ 1 < ttl < 120 ->
   recordAfter (Ensure p (Some record) zone)
     = Some (setRecordTTL 120 record)
   /\ recordAfter (Replace p (Some record) zone)
     = Some (setRecordTTL 120 record))
  /\ (validateInputDNSData (Some record) zone <> None
      \/ dnsServices p !! ID zone = None
      \/ ~ (ttl = 0 \/ 1 < ttl < 120) ->
      recordAfter (Ensure p (Some record) zone) = Some record
      /\ recordAfter (Replace p (Some record) zone) = Some record)
  /\ (forall anyRecord, recordAfter (Ensure p None zone) = None
                        /\ recordAfter (Replace p None zone) = None
                        /\ recordAfter (Delete p anyRecord zone) = anyRecord).
Proof.
  intros ttl. unfold Ensure, Replace. split; [| split; [| intros anyRecord; repeat split]].
  - intros Hv Hz Httl.
    destruct (createOrUpdate_recordAfter p record zone)
      as [([Hg | Hg] & _) | (_ & _ & ->)];
      [congruence | destruct Hz; congruence |].
    unfold normalized. fold ttl.
    rewrite (proj2 (ttlOutOfRange_iff ttl) Httl). now split.
  - intros Hcase.
    destruct (createOrUpdate_recordAfter p record zone)
      as [(_ & ->) | (Hv & Hz & ->)]; [now split |].
    destruct Hcase as [Hv' | [Hz' | Httl]];
      [congruence | destruct Hz; congruence |].
    unfold normalized. fold ttl.
    destruct (ttlOutOfRange ttl) eqn:Ho; [| now split].
    destruct Httl. now apply ttlOutOfRange_iff.
  - destruct (createOrUpdate_gated p None zone) as [e ->]; [| reflexivity].
    apply gated_invalid, validate_nil_record.
  - destruct (createOrUpdate_gated p None zone) as [e ->]; [| reflexivity].
    apply gated_invalid, validate_nil_record.
  - apply Delete_recordAfter.
Qed.

End RecordAfter.

(** C9, as stated, fails on a call stopped by validation: the record has
    TTL 0 and an empty name, [Ensure] returns the validation error and the
    record still has TTL 0. *)
Lemma invalid_record_keeps_its_ttl :
  RecordTTL (Spec Examples.unnamed) = 0
  /\ recordAfter (Ensure (Examples.scripted []) (Some Examples.unnamed)
                    Examples.zone1)
     = Some Examples.unnamed
  /\ recordAfter (Ensure (Examples.scripted []) (Some Examples.unnamed)
                    Examples.zone1)
     <> Some (setRecordTTL 120 Examples.unnamed).
Proof.
  split; [reflexivity |]. split; [reflexivity |]. discriminate.
Qed.

Lemma ttl_default_written_to_caller_record_witness :
  recordAfter (Ensure (Examples.scripted []) (Some (Examples.wildcard 50))
                 Examples.zone1)
  = Some (Examples.wildcard 120).
Proof.
  apply (ttl_default_written_to_caller_record (Examples.scripted [])
           (Examples.wildcard 50) Examples.zone1).
  - reflexivity.
  - eexists. reflexivity.
  - simpl. lia.
Defined.

(** ** The loops stop at the first failing step *)

Section Loops.

Context {St : Type} `{DnsClient St}.

Lemma listedTargets_app (cs cs' : list Call) :
  listedTargets (cs ++ cs') = listedTargets cs ++ listedTargets cs'.
Proof. apply flat_map_app. Qed.

Lemma forEach_cons {A : Type} (body : A -> M unit) (x : A) (l : list A)
  (w : World St) :
  forEach body (x :: l) w
  = match body x w with
    | (Normal _, w') => forEach body l w'
    | (Return e, w') => (Return e, w')
    | (Panic, w') => (Panic, w')
    end.
Proof. reflexivity. Qed.

(** Case analysis on the replies of the client calls in the goal. *)
Ltac replies :=
  unfold bind, invoke, ret, returnErr, panic, logInfo;
  repeat first
    [ progress cbn [fst snd Result calls remote logs]
    | match goal with
      | |- context [ListAllDnsRecords ?o ?s] =>
          destruct (ListAllDnsRecords o s)
      | |- context [CreateDnsRecord ?o ?s] => destruct (CreateDnsRecord o s)
      | |- context [UpdateDnsRecord ?o ?s] => destruct (UpdateDnsRecord o s)
      | |- context [DeleteDnsRecord ?o ?s] => destruct (DeleteDnsRecord o s)
      | |- context [notNilNorNotFound ?r] => destruct (notNilNorNotFound r)
      | |- context [rd_ID ?e] => destruct (rd_ID e)
      | |- context [Result ?l] => is_var l; destruct l
      | |- context [snd ?c] => is_var c; destruct c
      | |- context [match ?x with _ => _ end] => is_var x; destruct x
      end ].

Lemma upsertTarget_lists_once (record : DNSRecord)
  (opt : ListAllDnsRecordsOptions) (t : string) (w : World St) :
  listedTargets (calls (snd (upsertTarget record opt t w)))
  = listedTargets (calls w) ++ [Some t].
Proof.
  unfold upsertTarget. replies;
    rewrite ?listedTargets_app; cbn; rewrite ?app_nil_r; reflexivity.
Qed.

Lemma upsertTarget_failure (record : DNSRecord)
  (opt : ListAllDnsRecordsOptions) (t : string) (w : World St) (e : error) :
  fst (upsertTarget record opt t w) = Return e -> upsertFailure e.
Proof.
  unfold upsertTarget. replies;
    intros [= <-]; constructor.
Qed.

Lemma deleteEntry_lists_nothing (resultData : DnsrecordDetails) (w : World St) :
  listedTargets (calls (snd (deleteEntry resultData w)))
  = listedTargets (calls w).
Proof.
  unfold deleteEntry. replies;
    rewrite ?listedTargets_app; cbn; rewrite ?app_nil_r; reflexivity.
Qed.

Lemma deleteEntry_failure (resultData : DnsrecordDetails) (w : World St)
  (e : error) :
  fst (deleteEntry resultData w) = Return e -> deleteFailure e.
Proof.
  unfold deleteEntry. replies; intros [= <-]; constructor.
Qed.

Lemma deleteEntries_lists_nothing (entries : list DnsrecordDetails)
  (w : World St) :
  listedTargets (calls (snd (forEach deleteEntry entries w)))
  = listedTargets (calls w).
Proof.
  revert w. induction entries as [|e entries IH]; intros w; [reflexivity |].
  rewrite forEach_cons.
  pose proof (deleteEntry_lists_nothing e w) as He.
  destruct (deleteEntry e w) as [[[] | err |] w1]; cbn [fst snd] in *;
    [| exact He | exact He].
  now rewrite IH.
Qed.

Lemma deleteEntries_failure (entries : list DnsrecordDetails) (w : World St)
  (e : error) :
  fst (forEach deleteEntry entries w) = Return e -> deleteFailure e.
Proof.
  revert w. induction entries as [|d entries IH]; intros w; [discriminate |].
  rewrite forEach_cons.
  pose proof (deleteEntry_failure d w) as Hd.
  destruct (deleteEntry d w) as [[[] | err |] w1]; cbn [fst snd] in *.
  - apply IH.
  - intros [= <-]. now apply Hd.
  - discriminate.
Qed.

Lemma deleteTarget_lists_once (opt : ListAllDnsRecordsOptions) (t : string)
  (w : World St) :
  listedTargets (calls (snd (deleteTarget opt t w)))
  = listedTargets (calls w) ++ [Some t].
Proof.
  unfold deleteTarget, bind, invoke.
  destruct (ListAllDnsRecords _ _) as [[[[[[entries|]]|] response] [err|]] st];
    cbn [fst snd Result]; try destruct (notNilNorNotFound response);
    cbn [returnErr ret fst snd calls];
    rewrite ?deleteEntries_lists_nothing; cbn [calls];
    rewrite listedTargets_app; reflexivity.
Qed.

Lemma deleteTarget_failure (opt : ListAllDnsRecordsOptions) (t : string)
  (w : World St) (e : error) :
  fst (deleteTarget opt t w) = Return e -> deleteFailure e.
Proof.
  unfold deleteTarget, bind, invoke.
  destruct (ListAllDnsRecords _ _) as [[[[[[entries|]]|] response] [err|]] st];
    cbn [fst snd Result]; try destruct (notNilNorNotFound response);
    cbn [returnErr ret fst snd];
    try (intros [= <-]; constructor); try discriminate.
  all: apply deleteEntries_failure.
Qed.

(** A loop whose body lists its target exactly once lists a prefix of the
    targets: all of them when it completes, and those up to the failing one
    when a step returns an error or panics. *)
Lemma forEach_stops (F : error -> Prop) (body : string -> M unit) :
  (forall t (w : World St),
      listedTargets (calls (snd (body t w)))
      = listedTargets (calls w) ++ [Some t]) ->
  (forall t (w : World St) e, fst (body t w) = Return e -> F e) ->
  forall (targets : list string) (w : World St),
    calls w = [] ->
    match fst (forEach body targets w) with
    | Normal _ =>
        listedTargets (calls (snd (forEach body targets w))) = map Some targets
    | Return e =>
        F e /\ stoppedAt targets
                 (listedTargets (calls (snd (forEach body targets w))))
    | Panic =>
        stoppedAt targets (listedTargets (calls (snd (forEach body targets w))))
    end.
Proof.
  intros Hlist Hfail targets w Hw.
  assert (Hgen : forall targets w,
    match fst (forEach body targets w) with
    | Normal _ =>
        listedTargets (calls (snd (forEach body targets w)))
        = listedTargets (calls w) ++ map Some targets
    | Return e =>
        F e /\ exists done t rest,
          targets = done ++ t :: rest
          /\ listedTargets (calls (snd (forEach body targets w)))
             = listedTargets (calls w) ++ map Some (done ++ [t])
    | Panic =>
        exists done t rest,
          targets = done ++ t :: rest
          /\ listedTargets (calls (snd (forEach body targets w)))
             = listedTargets (calls w) ++ map Some (done ++ [t])
    end).
  { clear targets w Hw.
    induction targets as [|t targets IH]; intros w.
    - cbn. now rewrite app_nil_r.
    - rewrite forEach_cons.
      pose proof (Hlist t w) as Ht. pose proof (Hfail t w) as Hf.
      destruct (body t w) as [[[] | err |] w1]; cbn [fst snd] in *.
      + specialize (IH w1). rewrite Ht in IH.
        destruct (fst (forEach body targets w1)) as [[] | err |].
        * rewrite IH. now rewrite <- app_assoc.
        * destruct IH as (HF & done & t' & rest & Htargets & Hlisted).
          split; [exact HF |]. exists (t :: done), t', rest.
          rewrite Hlisted, Htargets.
          split; [reflexivity | now rewrite <- app_assoc].
        * destruct IH as (done & t' & rest & Htargets & Hlisted).
          exists (t :: done), t', rest.
          rewrite Hlisted, Htargets.
          split; [reflexivity | now rewrite <- app_assoc].
      + split; [now apply Hf |]. now exists [], t, targets.
      + now exists [], t, targets. }
  specialize (Hgen targets w). rewrite Hw in Hgen. exact Hgen.
Qed.

Local Abbreviation completes := (completes (St := St)).

Lemma completes_ret {A : Type} (a : A) : completes (ret a).
Proof. intros w. now exists a. Qed.

Lemma completes_logInfo (msg : string) : completes (logInfo msg).
Proof. intros w. now exists tt. Qed.

Lemma completes_after_call {O R B : Type} (P : R -> Prop)
  (method : O -> St -> R * St) (mk : O -> Call) (opt : O) (k : R -> M B) :
  (forall st, P (fst (method opt st))) ->
  (forall r, P r -> completes (k r)) ->
  completes (bind (invoke method mk opt) k).
Proof.
  intros HP Hk w. unfold bind, invoke.
  specialize (HP (remote w)).
  destruct (method opt (remote w)) as [r st]. now apply Hk.
Qed.

Lemma completes_bind {A B : Type} (m : M A) (k : A -> M B) :
  completes m -> (forall a, completes (k a)) -> completes (bind m k).
Proof.
  intros Hm Hk w. unfold bind. destruct (Hm w) as [a Ha].
  destruct (m w) as [[a' | e |] w1]; cbn [fst] in Ha; try discriminate.
  apply Hk.
Qed.

Lemma completes_forEach {A : Type} (body : A -> M unit) (l : list A) :
  (forall x, In x l -> completes (body x)) -> completes (forEach body l).
Proof.
  induction l as [|x l IH]; intros Hbody; [apply completes_ret |].
  apply completes_bind; [apply Hbody; now left |].
  intros _. apply IH. intros y Hy. apply Hbody. now right.
Qed.

Lemma upsertTarget_completes (record : DNSRecord)
  (listOpt : ListAllDnsRecordsOptions) (t : string) :
  faultless -> completes (upsertTarget record listOpt t).
Proof.
  intros (Hlist & Hcreate & Hupdate & _). unfold upsertTarget.
  apply (completes_after_call wellFormed); [intros st; apply Hlist |].
  intros reply (entries & response & -> & Hids). cbn [Result].
  destruct entries as [|first rest].
  - apply (completes_after_call (fun r => snd r = None));
      [intros st; apply Hcreate |].
    intros reply ->. apply completes_logInfo.
  - apply Forall_cons in Hids as [Hid _].
    destruct (rd_ID first) as [id|]; [| congruence].
    apply (completes_after_call (fun r => snd r = None));
      [intros st; apply Hupdate |].
    intros reply ->. apply completes_logInfo.
Qed.

Lemma deleteEntry_completes (resultData : DnsrecordDetails) :
  faultless -> rd_ID resultData <> None -> completes (deleteEntry resultData).
Proof.
  intros (_ & _ & _ & Hdelete) Hid. unfold deleteEntry.
  destruct (rd_ID resultData) as [id|]; [| congruence].
  apply (completes_after_call (fun r => snd r = None));
    [intros st; apply Hdelete |].
  intros [delResponse err] Herr. cbn [snd] in Herr. subst err.
  apply completes_bind; [apply completes_ret |].
  intros _. destruct (notNilNorNotFound delResponse);
    [apply completes_logInfo | apply completes_ret].
Qed.

Lemma deleteTarget_completes (opt : ListAllDnsRecordsOptions) (t : string) :
  faultless -> completes (deleteTarget opt t).
Proof.
  intros Hok. pose proof Hok as (Hlist & _). unfold deleteTarget.
  apply (completes_after_call wellFormed); [intros st; apply Hlist |].
  intros reply (entries & response & -> & Hids). cbn [Result].
  apply completes_forEach. intros e He.
  apply deleteEntry_completes; [exact Hok |].
  exact (proj1 (List.Forall_forall _ _) Hids e He).
Qed.

Lemma finish_completes (p : Provider St) (record : option DNSRecord)
  (zone : DNSZone) (m : M unit) (w : World St) :
  completes m -> exit (finish p record zone (m w)) = Returned None.
Proof.
  intros Hm. unfold finish. cbn [exit]. destruct (Hm w) as [a ->].
  reflexivity.
Qed.

(** On a call that passes validation and zone resolution, when an error is
    returned it is one step's failure and the targets after the one it came
    from were not listed; when no error is returned every target was listed;
    and no error is returned when the client answers every call without
    error and every list with a well-formed result. *)
Lemma loops_stop (p : Provider St) (record : DNSRecord)
  (zone : DNSZone) :
  validateInputDNSData (Some record) zone = None ->
  is_Some (dnsServices p !! ID zone) ->
  let targets := Targets (Spec record) in
  stopsAtFirstFailure upsertFailure targets (Ensure p (Some record) zone)
  /\ stopsAtFirstFailure upsertFailure targets (Replace p (Some record) zone)
  /\ stopsAtFirstFailure deleteFailure targets (Delete p (Some record) zone)
  /\ (faultless ->
      exit (Ensure p (Some record) zone) = Returned None
      /\ exit (Replace p (Some record) zone) = Returned None
      /\ exit (Delete p (Some record) zone) = Returned None).
Proof.
  intros Hv [dnsService Hz] targets.
  assert (Hupsert : stopsAtFirstFailure upsertFailure targets
                      (createOrUpdateDNSRecord p (Some record) zone)).
  { rewrite (createOrUpdate_run _ _ _ _ Hv Hz).
    destruct (normalized_fields record) as (_ & _ & ->). fold targets.
    unfold stopsAtFirstFailure, finish. cbn [exit trace].
    pose proof (forEach_stops upsertFailure
                  (upsertTarget (normalized record) (upsertListOpt (normalized record)))
                  (upsertTarget_lists_once _ _) (upsertTarget_failure _ _)
                  targets (upsertStart record dnsService) eq_refl) as Hloop.
    now destruct (fst (forEach _ targets (upsertStart record dnsService)))
      as [[] | e |]. }
  unfold Ensure, Replace. split; [exact Hupsert |]. split; [exact Hupsert |].
  split.
  - rewrite (Delete_run _ _ _ _ Hv Hz).
    unfold stopsAtFirstFailure, finish. cbn [exit trace]. fold targets.
    pose proof (forEach_stops deleteFailure (deleteTarget (deleteListOpt record))
                  (deleteTarget_lists_once _) (deleteTarget_failure _)
                  targets (deleteStart dnsService) eq_refl) as Hloop.
    now destruct (fst (forEach _ targets (deleteStart dnsService))) as [[] | e |].
  - intros Hok.
    rewrite (createOrUpdate_run _ _ _ _ Hv Hz), (Delete_run _ _ _ _ Hv Hz).
    repeat split; apply finish_completes, completes_forEach; intros t _;
      auto using upsertTarget_completes, deleteTarget_completes.
Qed.

End Loops.

(** C1, as stated, fails where the create for the first of two targets
    fails: [Ensure] returns that one failure, the second target is never
    listed and its scripted replies are still unused; likewise [Delete]
    stops at a failing list. *)
Lemma later_targets_are_not_attempted :
  let upsert :=
    Ensure (Examples.scripted [Scripted.listed []; Scripted.callFails 500;
                               Scripted.listed []; Scripted.callFails 500])
           (Some (Examples.wildcard 300)) Examples.zone1 in
  let removal :=
    Delete (Examples.scripted [Scripted.listFails 500; Scripted.listFails 500])
           (Some (Examples.wildcard 300)) Examples.zone1 in
  exit upsert
  = Returned (Some (Wrapf "createOrUpdateDNSRecord: failed to create the dns record: "
                      (Errorf "call failed")))
  /\ listedTargets (trace upsert) = [Some "1.2.3.4"]
  /\ listedTargets (trace upsert)
     <> map Some (Targets (Spec (Examples.wildcard 300)))
  /\ dnsServices (providerAfter upsert) !! "zone1"
     = Some [Scripted.listed []; Scripted.callFails 500]
  /\ exit removal
     = Returned (Some (Wrapf "delete: failed to list the dns record: "
                         (Errorf "list failed")))
  /\ listedTargets (trace removal) = [Some "1.2.3.4"]
  /\ dnsServices (providerAfter removal) !! "zone1"
     = Some [Scripted.listFails 500].
Proof.
  cbv zeta. repeat split; try (vm_compute; reflexivity). discriminate.
Qed.

(** ** The loops, pass by pass *)

Section PassByPass.

Context {St : Type} `{DnsClient St}.

Lemma follows_forEach {A : Type} (body : A -> M unit)
  (pass : A -> St -> Pass) :
  (forall a, follows (body a) (pass a)) ->
  forall l, follows (forEach body l) (passes pass l).
Proof.
  intros Hbody l. induction l as [|a l IH]; intros w.
  - cbn. rewrite app_nil_r. auto.
  - cbn [forEach passes]. unfold bind.
    destruct (Hbody a w) as (Hend & Hcalls & Hremote).
    destruct (pass a (remote w)) as [[cs e] st1].
    unfold ending, issued, leaves in *. cbn [fst snd] in *.
    destruct (body a w) as [r w1]. cbn [fst snd] in *. subst r.
    destruct e as [|e|]; cbn [resOf]; cbn [fst snd]; auto.
    destruct (IH w1) as (Hend' & Hcalls' & Hremote').
    rewrite Hremote in *.
    destruct (passes pass l st1) as [[cs' e'] st2].
    unfold ending, issued, leaves in *. cbn [fst snd] in *.
    rewrite Hcalls', Hcalls, app_assoc. auto.
Qed.

Lemma upsertTarget_follows (record : DNSRecord) (listName : string)
  (content : option string) (t : string) :
  follows
    (upsertTarget record
       {| lo_Type := Some (RecordType (Spec record)); lo_Name := Some listName;
          lo_Content := content |} t)
    (upsertPass listName (DNSName (Spec record)) (RecordType (Spec record))
       (RecordTTL (Spec record)) t).
Proof.
  intros w. unfold upsertTarget, upsertPass, bind, invoke, list_SetContent.
  cbn [lo_Type lo_Name].
  destruct (ListAllDnsRecords _ (remote w)) as [[[result response] err] st1].
  unfold ending, issued, leaves, afterRead, afterWrite.
  destruct err as [err|].
  { destruct (notNilNorNotFound response); cbn; auto. }
  destruct result as [[[[|first others]|]]|]; cbn; auto.
  - unfold bind, invoke. cbn.
    destruct (CreateDnsRecord _ st1) as [[response' [err'|]] st2];
      cbn; rewrite <- ?app_assoc; auto.
  - destruct (rd_ID first) as [id|]; cbn; auto.
    unfold bind, invoke. cbn.
    destruct (UpdateDnsRecord _ st1) as [[response' [err'|]] st2];
      cbn; rewrite <- ?app_assoc; auto.
Qed.

Lemma deleteEntry_follows (resultData : DnsrecordDetails) :
  follows (deleteEntry resultData) (deleteEntryPass resultData).
Proof.
  intros w. unfold deleteEntry, deleteEntryPass, bind, invoke.
  unfold ending, issued, leaves, afterRead.
  destruct (rd_ID resultData) as [id|]; cbn; [| rewrite app_nil_r; auto].
  destruct (DeleteDnsRecord _ (remote w)) as [[response [err|]] st1]; cbn;
    destruct (notNilNorNotFound response); cbn; auto.
Qed.

Lemma deleteTarget_follows (name recordType : string)
  (content : option string) (t : string) :
  follows
    (deleteTarget
       {| lo_Type := Some recordType; lo_Name := Some name;
          lo_Content := content |} t)
    (deletePass name recordType t).
Proof.
  intros w. unfold deleteTarget, deletePass, bind, invoke, list_SetContent.
  cbn [lo_Type lo_Name].
  destruct (ListAllDnsRecords _ (remote w)) as [[[result response] err] st1].
  unfold afterRead.
  destruct err as [err|].
  { unfold ending, issued, leaves.
    destruct (notNilNorNotFound response); cbn; auto. }
  destruct result as [[[entries|]]|];
    [| unfold ending, issued, leaves; cbn; auto ..].
  cbn [Result].
  destruct (follows_forEach deleteEntry deleteEntryPass deleteEntry_follows
              entries
              {| remote := st1;
                 calls := calls w ++
                          [CallList {| lo_Type := Some recordType;
                                       lo_Name := Some name;
                                       lo_Content := Some t |}];
                 logs := logs w |}) as (Hend & Hcalls & Hremote).
  cbn [remote calls] in *.
  destruct (passes deleteEntryPass entries st1) as [[cs e] st2].
  unfold ending, issued, leaves in *. cbn [fst snd] in *.
  rewrite Hend, Hcalls, Hremote, <- app_assoc. auto.
Qed.


Lemma passes_app {A : Type} (pass : A -> St -> Pass) (done rest : list A)
  (st0 : St) (cs : list Call) (st : St) :
  passes pass done st0 = (cs, Proceeds, st) ->
  passes pass (done ++ rest) st0
  = (cs ++ issued (passes pass rest st), ending (passes pass rest st),
     leaves (passes pass rest st)).
Proof.
  revert st0 cs. induction done as [|a done IH]; intros st0 cs Hdone.
  - cbn in Hdone. injection Hdone as <- <-. cbn [app].
    now destruct (passes pass rest st0) as [[cs' e'] st'].
  - cbn [app passes] in *.
    destruct (pass a st0) as [[cs1 e1] st1].
    destruct e1 as [|e1|]; [| discriminate ..].
    destruct (passes pass done st1) as [[cs2 e2] st2] eqn:Hrest.
    injection Hdone as <- -> ->.
    rewrite (IH st1 cs2 Hrest).
    unfold issued, ending, leaves. cbn [fst snd]. now rewrite app_assoc.
Qed.

(** The loop over [done ++ t :: rest] once the passes of [done] have
    proceeded: the pass of [t] comes next, and nothing comes after it when
    it does not proceed. *)
Lemma passes_reaches {A : Type} (pass : A -> St -> Pass) (done : list A)
  (t : A) (rest : list A) (st0 : St) (cs : list Call) (st : St) :
  passes pass done st0 = (cs, Proceeds, st) ->
  (exists more,
     issued (passes pass (done ++ t :: rest) st0)
     = cs ++ issued (pass t st) ++ more)
  /\ (ending (pass t st) <> Proceeds ->
      passes pass (done ++ t :: rest) st0
      = (cs ++ issued (pass t st), ending (pass t st), leaves (pass t st))).
Proof.
  intros Hdone. rewrite (passes_app pass done (t :: rest) st0 cs st Hdone).
  cbn [passes]. destruct (pass t st) as [[cs1 e1] st1].
  unfold issued, ending, leaves. cbn [fst snd].
  destruct e1 as [|e1|].
  - destruct (passes pass rest st1) as [[cs2 e2] st2]. cbn [fst snd].
    split; [eauto | congruence].
  - cbn [fst snd]. split; [exists []; now rewrite app_nil_r | reflexivity].
  - cbn [fst snd]. split; [exists []; now rewrite app_nil_r | reflexivity].
Qed.

Lemma exit_finish (p : Provider St) (record : option DNSRecord)
  (zone : DNSZone) (run : Res unit * World St) (e : PassEnd) :
  fst run = resOf e -> exit (finish p record zone run) = exitOf e.
Proof. unfold finish. cbn [exit]. intros ->. now destruct e. Qed.

(** An upsert that passes its two gates does what the passes of its loop
    tell. *)
Lemma createOrUpdate_passes (p : Provider St) (record : DNSRecord)
  (zone : DNSZone) (dnsService : St) :
  validateInputDNSData (Some record) zone = None ->
  dnsServices p !! ID zone = Some dnsService ->
  let run := passes (upsertPassOf record) (Targets (Spec record)) dnsService in
  exit (createOrUpdateDNSRecord p (Some record) zone) = exitOf (ending run)
  /\ trace (createOrUpdateDNSRecord p (Some record) zone) = issued run
  /\ dnsServices (providerAfter (createOrUpdateDNSRecord p (Some record) zone))
     = <[ID zone := leaves run]> (dnsServices p).
Proof.
  intros Hv Hz run. rewrite (createOrUpdate_run _ _ _ _ Hv Hz).
  pose proof (follows_forEach
                (upsertTarget (normalized record)
                   (upsertListOpt (normalized record)))
                (upsertPass (TrimSuffix (DNSName (Spec (normalized record))) ".")
                   (DNSName (Spec (normalized record)))
                   (RecordType (Spec (normalized record)))
                   (RecordTTL (Spec (normalized record))))
                (fun t => upsertTarget_follows (normalized record) _ None t)
                (Targets (Spec (normalized record)))
                (upsertStart record dnsService)) as Hloop.
  rewrite normalized_TTL in Hloop.
  destruct (normalized_fields record) as (Hname & Htype & Htargets).
  rewrite Hname, Htype, Htargets in Hloop.
  rewrite Htargets.
  fold (upsertPassOf record) in Hloop. cbn [upsertStart remote calls] in Hloop.
  fold run in Hloop. destruct Hloop as (Hend & Hcalls & Hremote).
  split; [now apply exit_finish |].
  unfold finish. cbn [trace providerAfter dnsServices].
  now rewrite Hcalls, Hremote.
Qed.

(** A [Delete] that passes its two gates does what the passes of its loop
    tell. *)
Lemma Delete_passes (p : Provider St) (record : DNSRecord) (zone : DNSZone)
  (dnsService : St) :
  validateInputDNSData (Some record) zone = None ->
  dnsServices p !! ID zone = Some dnsService ->
  let run := passes (deletePassOf record) (Targets (Spec record)) dnsService in
  exit (Delete p (Some record) zone) = exitOf (ending run)
  /\ trace (Delete p (Some record) zone) = issued run
  /\ dnsServices (providerAfter (Delete p (Some record) zone))
     = <[ID zone := leaves run]> (dnsServices p).
Proof.
  intros Hv Hz run. rewrite (Delete_run _ _ _ _ Hv Hz).
  pose proof (follows_forEach (deleteTarget (deleteListOpt record))
                (deletePassOf record)
                (fun t => deleteTarget_follows _ _ None t)
                (Targets (Spec record)) (deleteStart dnsService)) as Hloop.
  cbn [deleteStart remote calls] in Hloop. fold run in Hloop.
  destruct Hloop as (Hend & Hcalls & Hremote).
  split; [now apply exit_finish |].
  unfold finish. cbn [trace providerAfter dnsServices].
  now rewrite Hcalls, Hremote.
Qed.

Lemma upsertPass_failure (listName writeName recordType : string) (ttl : Z)
  (t : string) (st : St) (e : error) :
  ending (upsertPass listName writeName recordType ttl t st) = Fails e ->
  upsertFailure e.
Proof.
  unfold upsertPass, ending, afterRead, afterWrite.
  destruct (ListAllDnsRecords _ st) as [[[result response] [err|]] st1].
  { destruct (notNilNorNotFound response); cbn; [| discriminate].
    intros [= <-]. constructor. }
  destruct result as [[[[|first others]|]]|]; cbn;
    try (intros [= <-]; constructor).
  - destruct (CreateDnsRecord _ st1) as [[response' [err'|]] st2]; cbn;
      [| discriminate]. intros [= <-]. constructor.
  - destruct (rd_ID first) as [id|]; cbn; [| discriminate].
    destruct (UpdateDnsRecord _ st1) as [[response' [err'|]] st2]; cbn;
      [| discriminate]. intros [= <-]. constructor.
Qed.

Lemma deleteEntryPasses_failure (entries : list DnsrecordDetails) (st : St)
  (e : error) :
  ending (passes deleteEntryPass entries st) = Fails e -> deleteFailure e.
Proof.
  revert st. induction entries as [|entry entries IH]; intros st;
    [discriminate |].
  cbn [passes]. unfold deleteEntryPass at 1. unfold afterRead.
  destruct (rd_ID entry) as [id|]; [| intros [= <-]; constructor].
  destruct (DeleteDnsRecord _ st) as [[response [err|]] st1].
  - destruct (notNilNorNotFound response).
    + intros [= <-]. constructor.
    + specialize (IH st1).
      destruct (passes deleteEntryPass entries st1) as [[cs e'] st2].
      exact IH.
  - specialize (IH st1).
    destruct (passes deleteEntryPass entries st1) as [[cs e'] st2].
    exact IH.
Qed.

Lemma deletePass_failure (name recordType : string) (t : string) (st : St)
  (e : error) :
  ending (deletePass name recordType t st) = Fails e -> deleteFailure e.
Proof.
  unfold deletePass, afterRead.
  destruct (ListAllDnsRecords _ st) as [[[result response] [err|]] st1].
  { unfold ending. destruct (notNilNorNotFound response); cbn; [| discriminate].
    intros [= <-]. constructor. }
  destruct result as [[[entries|]]|];
    try (unfold ending; cbn; intros [= <-]; constructor).
  cbn [Result]. pose proof (deleteEntryPasses_failure entries st1 e) as Hinner.
  destruct (passes deleteEntryPass entries st1) as [[cs e'] st2].
  exact Hinner.
Qed.

(** A pass that fails after the passes before it have proceeded ends the
    operation with its failure, the calls of the operation being those of
    the passes up to it. *)
Lemma failing_pass_ends {A : Type} (pass : A -> St -> Pass) (done : list A)
  (t : A) (rest : list A) (st0 : St) (cs : list Call) (st : St)
  (cs' : list Call) (e : error) (st' : St) :
  passes pass done st0 = (cs, Proceeds, st) ->
  pass t st = (cs', Fails e, st') ->
  passes pass (done ++ t :: rest) st0 = (cs ++ cs', Fails e, st').
Proof.
  intros Hdone Hpass.
  destruct (passes_reaches pass done t rest st0 cs st Hdone) as [_ Hstop].
  rewrite Hpass in Hstop. apply Hstop. discriminate.
Qed.

(** What the pass of the upsert loop issues, by the reply to its list
    call. *)
Lemma upsertPass_issued (listName writeName recordType : string) (ttl : Z)
  (t : string) (st : St) :
  let filter :=
    {| lo_Type := Some recordType; lo_Name := Some listName;
       lo_Content := Some t |} in
  let pass := upsertPass listName writeName recordType ttl t st in
  (exists more, issued pass = CallList filter :: more)
  /\ (forall response st1,
        ListAllDnsRecords filter st
        = ((Some {| Result := Some [] |}, response, None), st1) ->
        issued pass
        = [CallList filter;
           CallCreate {| co_Name := Some writeName; co_Type := Some recordType;
                         co_Content := Some t; co_TTL := Some ttl |}])
  /\ (forall first others id response st1,
        ListAllDnsRecords filter st
        = ((Some {| Result := Some (first :: others) |}, response, None), st1) ->
        rd_ID first = Some id ->
        issued pass
        = [CallList filter;
           CallUpdate {| uo_DnsrecordIdentifier := id; uo_Name := Some writeName;
                         uo_Type := Some recordType; uo_Content := Some t;
                         uo_TTL := Some ttl |}]).
Proof.
  intros filter pass. subst pass. unfold upsertPass. fold filter.
  split; [| split].
  - destruct (ListAllDnsRecords filter st) as [[[result response] [err|]] st1];
      [unfold issued; cbn; eauto |].
    destruct result as [[[[|first others]|]]|]; try (unfold issued; cbn; eauto).
    + destruct (CreateDnsRecord _ st1) as [reply st2]. unfold issued. cbn. eauto.
    + destruct (rd_ID first) as [id|]; [| unfold issued; cbn; eauto].
      destruct (UpdateDnsRecord _ st1) as [reply st2]. unfold issued. cbn. eauto.
  - intros response st1 ->. cbn [Result].
    now destruct (CreateDnsRecord _ st1) as [reply st2].
  - intros first others id response st1 -> Hid. cbn [Result]. rewrite Hid.
    now destruct (UpdateDnsRecord _ st1) as [reply st2].
Qed.

Lemma deletePass_issued (name recordType : string) (t : string) (st : St) :
  exists more,
    issued (deletePass name recordType t st)
    = CallList {| lo_Type := Some recordType; lo_Name := Some name;
                  lo_Content := Some t |} :: more.
Proof.
  unfold deletePass.
  destruct (ListAllDnsRecords _ st) as [[[result response] [err|]] st1];
    [unfold issued; cbn; eauto |].
  destruct result as [[[entries|]]|]; try (unfold issued; cbn; eauto).
  cbn [Result].
  destruct (passes deleteEntryPass entries st1) as [[cs e] st2].
  unfold issued. cbn. eauto.
Qed.

(** The calls of an upsert at the target its loop has reached. *)
Lemma upsert_reaches (p : Provider St) (record : DNSRecord) (zone : DNSZone)
  (dnsService : St) (ttl : Z) :
  validateInputDNSData (Some record) zone = None ->
  dnsServices p !! ID zone = Some dnsService ->
  effectiveTTL (RecordTTL (Spec record)) = ttl ->
  let name := DNSName (Spec record) in
  let type := RecordType (Spec record) in
  let pass := upsertPass (TrimSuffix name ".") name type ttl in
  let run := createOrUpdateDNSRecord p (Some record) zone in
  trace run = issued (passes pass (Targets (Spec record)) dnsService)
  /\ forall done t rest cs st,
       Targets (Spec record) = done ++ t :: rest ->
       passes pass done dnsService = (cs, Proceeds, st) ->
       let filter :=
         {| lo_Type := Some type; lo_Name := Some (TrimSuffix name ".");
            lo_Content := Some t |} in
       (exists more, trace run = cs ++ CallList filter :: more)
       /\ (forall response st1,
             ListAllDnsRecords filter st
             = ((Some {| Result := Some [] |}, response, None), st1) ->
             exists more,
               trace run
               = cs ++ CallList filter
                    :: CallCreate {| co_Name := Some name; co_Type := Some type;
                                     co_Content := Some t;
                                     co_TTL := Some ttl |}
                    :: more)
       /\ (forall first others id response st1,
             ListAllDnsRecords filter st
             = ((Some {| Result := Some (first :: others) |}, response, None),
                st1) ->
             rd_ID first = Some id ->
             exists more,
               trace run
               = cs ++ CallList filter
                    :: CallUpdate {| uo_DnsrecordIdentifier := id;
                                     uo_Name := Some name; uo_Type := Some type;
                                     uo_Content := Some t;
                                     uo_TTL := Some ttl |}
                    :: more).
Proof.
  intros Hv Hz <- name type pass run.
  destruct (createOrUpdate_passes p record zone dnsService Hv Hz)
    as (_ & Htrace & _).
  change (upsertPassOf record) with pass in Htrace. fold run in Htrace.
  split; [exact Htrace |].
  intros done t rest cs st Htargets Hdone filter.
  rewrite Htrace, Htargets.
  destruct (passes_reaches pass done t rest dnsService cs st Hdone)
    as [[more ->] _].
  destruct (upsertPass_issued (TrimSuffix name ".") name type
              (effectiveTTL (RecordTTL (Spec record))) t st)
    as (Hhead & Hcreate & Hupdate).
  fold filter in Hhead, Hcreate, Hupdate. fold pass in Hhead, Hcreate, Hupdate.
  split; [| split].
  - destruct Hhead as [tail ->]. cbn [app]. eauto.
  - intros response st1 Hlist. rewrite (Hcreate response st1 Hlist).
    cbn [app]. eauto.
  - intros first others id response st1 Hlist Hid.
    rewrite (Hupdate first others id response st1 Hlist Hid). cbn [app]. eauto.
Qed.

(** The list call of a [Delete] at the target its loop has reached. *)
Lemma Delete_reaches (p : Provider St) (record : DNSRecord) (zone : DNSZone)
  (dnsService : St) :
  validateInputDNSData (Some record) zone = None ->
  dnsServices p !! ID zone = Some dnsService ->
  let name := DNSName (Spec record) in
  let type := RecordType (Spec record) in
  let pass := deletePass name type in
  let run := Delete p (Some record) zone in
  trace run = issued (passes pass (Targets (Spec record)) dnsService)
  /\ forall done t rest cs st,
       Targets (Spec record) = done ++ t :: rest ->
       passes pass done dnsService = (cs, Proceeds, st) ->
       exists more,
         trace run
         = cs ++ CallList {| lo_Type := Some type; lo_Name := Some name;
                             lo_Content := Some t |} :: more.
Proof.
  intros Hv Hz name type pass run.
  destruct (Delete_passes p record zone dnsService Hv Hz) as (_ & Htrace & _).
  change (deletePassOf record) with pass in Htrace. fold run in Htrace.
  split; [exact Htrace |].
  intros done t rest cs st Htargets Hdone.
  rewrite Htrace, Htargets.
  destruct (passes_reaches pass done t rest dnsService cs st Hdone)
    as [[more ->] _].
  destruct (deletePass_issued name type t st) as [tail Htail].
  fold pass in Htail. rewrite Htail. cbn [app]. eauto.
Qed.


(** A loop ends with a failure exactly when one of its passes fails after
    the passes before it have proceeded. *)
Lemma passes_fails_iff {A : Type} (pass : A -> St -> Pass) (l : list A)
  (st : St) (e : error) :
  ending (passes pass l st) = Fails e
  <-> exists before x after cs st',
        l = before ++ x :: after
        /\ passes pass before st = (cs, Proceeds, st')
        /\ ending (pass x st') = Fails e.
Proof.
  split.
  - revert st. induction l as [|x l IH]; intros st; [discriminate |].
    cbn [passes]. destruct (pass x st) as [[cs1 e1] st1] eqn:Hpass.
    destruct e1 as [|e1|]; unfold ending at 1; cbn [fst snd].
    + intros Hrest.
      assert (Hend : ending (passes pass l st1) = Fails e).
      { destruct (passes pass l st1) as [[cs2 e2] st2]. exact Hrest. }
      destruct (IH st1 Hend) as (before & y & after & cs & st' & -> & Hbefore & Hy).
      exists (x :: before), y, after, (cs1 ++ cs), st'.
      split; [reflexivity |]. split; [| exact Hy].
      cbn [passes]. now rewrite Hpass, Hbefore.
    + intros [= <-]. exists [], x, l, [], st.
      split; [reflexivity |]. split; [reflexivity |]. now rewrite Hpass.
    + discriminate.
  - intros (before & x & after & cs & st' & -> & Hbefore & Hx).
    destruct (passes_reaches pass before x after st cs st' Hbefore) as [_ Hstop].
    rewrite Hstop; [exact Hx |]. rewrite Hx. discriminate.
Qed.

(** When a pass of the upsert loop fails, by the replies of the client. *)
Lemma upsertPass_fails_iff (listName writeName recordType : string) (ttl : Z)
  (t : string) (st : St) (e : error) :
  ending (upsertPass listName writeName recordType ttl t st) = Fails e
  <-> exists result response err st1,
        ListAllDnsRecords
          {| lo_Type := Some recordType; lo_Name := Some listName;
             lo_Content := Some t |} st
        = ((result, response, err), st1)
        /\ ((exists cause,
               err = Some cause /\ notNilNorNotFound response = true
               /\ e = Wrapf "createOrUpdateDNSRecord: failed to list the dns record: " cause)
            \/ (err = None
                /\ (result = None \/ result = Some {| Result := None |})
                /\ e = Errorf "createOrUpdateDNSRecord: invalid result")
            \/ (err = None /\ result = Some {| Result := Some [] |}
                /\ exists cause,
                     snd (fst (CreateDnsRecord
                                 {| co_Name := Some writeName;
                                    co_Type := Some recordType;
                                    co_Content := Some t;
                                    co_TTL := Some ttl |} st1))
                     = Some cause
                     /\ e = Wrapf "createOrUpdateDNSRecord: failed to create the dns record: " cause)
            \/ (err = None
                /\ exists first others id cause,
                     result = Some {| Result := Some (first :: others) |}
                     /\ rd_ID first = Some id
                     /\ snd (fst (UpdateDnsRecord
                                    {| uo_DnsrecordIdentifier := id;
                                       uo_Name := Some writeName;
                                       uo_Type := Some recordType;
                                       uo_Content := Some t;
                                       uo_TTL := Some ttl |} st1))
                        = Some cause
                     /\ e = Wrapf "createOrUpdateDNSRecord: failed to update the dns record: " cause)).
Proof.
  unfold upsertPass, afterRead, afterWrite.
  destruct (ListAllDnsRecords _ st) as [[[result response] err] st1].
  split.
  - intros Hfails. exists result, response, err, st1.
    split; [reflexivity |].
    destruct err as [cause|].
    { unfold ending in Hfails. cbn [fst snd] in Hfails.
      destruct (notNilNorNotFound response) eqn:Hresp; [| discriminate].
      injection Hfails as <-. left. eauto. }
    right. destruct result as [[[[|first others]|]]|].
    + right. left. cbn [Result] in Hfails.
      destruct (CreateDnsRecord _ st1) as [[response' [cause|]] st2];
        unfold ending in Hfails; cbn [fst snd] in Hfails; [| discriminate].
      injection Hfails as <-. cbn [fst snd]. eauto.
    + right. right. cbn [Result] in Hfails.
      destruct (rd_ID first) as [id|] eqn:Hid; [| discriminate].
      destruct (UpdateDnsRecord _ st1) as [[response' [cause|]] st2] eqn:Hupd;
        unfold ending in Hfails; cbn [fst snd] in Hfails; [| discriminate].
      injection Hfails as <-. split; [reflexivity |].
      exists first, others, id, cause. rewrite Hupd. auto.
    + left. unfold ending in Hfails. cbn in Hfails. injection Hfails as <-.
      auto.
    + left. unfold ending in Hfails. cbn in Hfails. injection Hfails as <-.
      auto.
  - intros (result' & response' & err' & st1' & [= <- <- <- <-] & Hcases).
    destruct Hcases
      as [(cause & -> & Hresp & ->)
         | [(-> & Hresult & ->)
           | [(-> & -> & cause & Hcreate & ->)
             | (-> & first & others & id & cause & -> & Hid & Hupdate & ->)]]].
    + unfold ending. cbn [fst snd]. now rewrite Hresp.
    + now destruct Hresult as [-> | ->].
    + cbn [Result].
      destruct (CreateDnsRecord _ st1) as [[response' err'] st2].
      cbn [fst snd] in Hcreate. subst err'. reflexivity.
    + cbn [Result]. rewrite Hid.
      destruct (UpdateDnsRecord _ st1) as [[response' err'] st2].
      cbn [fst snd] in Hupdate. subst err'. reflexivity.
Qed.

(** When the pass of the delete loop for one listed entry fails. *)
Lemma deleteEntryPass_fails_iff (entry : DnsrecordDetails) (st : St)
  (e : error) :
  ending (deleteEntryPass entry st) = Fails e
  <-> (rd_ID entry = None /\ e = Errorf "delete: record id is nil")
      \/ exists id response cause st1,
           rd_ID entry = Some id
           /\ DeleteDnsRecord {| do_DnsrecordIdentifier := id |} st
              = ((response, Some cause), st1)
           /\ notNilNorNotFound response = true
           /\ e = Wrapf "delete: failed to delete the dns record: " cause.
Proof.
  unfold deleteEntryPass, afterRead.
  destruct (rd_ID entry) as [id|].
  - destruct (DeleteDnsRecord _ st) as [[response [cause|]] st1] eqn:Hdel;
      unfold ending; cbn [fst snd].
    + destruct (notNilNorNotFound response) eqn:Hresp.
      * split.
        -- intros [= <-]. right. exists id, response, cause, st1. auto.
        -- intros [[Hnone _] | (id' & response' & cause' & st1' & Hid & Hreply
                                & _ & ->)]; [discriminate |].
           injection Hid as <-. rewrite Hdel in Hreply.
           injection Hreply as <- <- <-. reflexivity.
      * split; [discriminate |].
        intros [[Hnone _] | (id' & response' & cause' & st1' & Hid & Hreply
                             & Hresp' & _)]; [discriminate |].
        injection Hid as <-. rewrite Hdel in Hreply.
        injection Hreply as <- <- <-. congruence.
    + split; [discriminate |].
      intros [[Hnone _] | (id' & response' & cause' & st1' & Hid & Hreply & _)];
        [discriminate |].
      injection Hid as <-. rewrite Hdel in Hreply. discriminate.
  - unfold ending. cbn [fst snd]. split.
    + intros [= <-]. now left.
    + intros [[_ ->] | (id & response & cause & st1 & Hid & _)];
        [reflexivity | discriminate].
Qed.

(** When a pass of the delete loop fails, by the replies of the client. *)
Lemma deletePass_fails_iff (name recordType : string) (t : string) (st : St)
  (e : error) :
  ending (deletePass name recordType t st) = Fails e
  <-> exists result response err st1,
        ListAllDnsRecords
          {| lo_Type := Some recordType; lo_Name := Some name;
             lo_Content := Some t |} st
        = ((result, response, err), st1)
        /\ ((exists cause,
               err = Some cause /\ notNilNorNotFound response = true
               /\ e = Wrapf "delete: failed to list the dns record: " cause)
            \/ (err = None
                /\ (result = None \/ result = Some {| Result := None |})
                /\ e = Errorf "delete: invalid result")
            \/ (err = None
                /\ exists entries before entry after cs st2,
                     result = Some {| Result := Some entries |}
                     /\ entries = before ++ entry :: after
                     /\ passes deleteEntryPass before st1 = (cs, Proceeds, st2)
                     /\ ending (deleteEntryPass entry st2) = Fails e)).
Proof.
  unfold deletePass, afterRead.
  destruct (ListAllDnsRecords _ st) as [[[result response] err] st1].
  split.
  - intros Hfails. exists result, response, err, st1.
    split; [reflexivity |].
    destruct err as [cause|].
    { unfold ending in Hfails. cbn [fst snd] in Hfails.
      destruct (notNilNorNotFound response) eqn:Hresp; [| discriminate].
      injection Hfails as <-. left. eauto. }
    right. destruct result as [[[entries|]]|].
    + right. split; [reflexivity |]. cbn [Result] in Hfails.
      assert (Hinner : ending (passes deleteEntryPass entries st1) = Fails e).
      { destruct (passes deleteEntryPass entries st1) as [[cs e'] st2].
        exact Hfails. }
      apply passes_fails_iff in Hinner
        as (before & entry & after & cs & st2 & Hsplit & Hbefore & Hentry).
      exists entries, before, entry, after, cs, st2. auto.
    + left. unfold ending in Hfails. cbn in Hfails. injection Hfails as <-.
      auto.
    + left. unfold ending in Hfails. cbn in Hfails. injection Hfails as <-.
      auto.
  - intros (result' & response' & err' & st1' & [= <- <- <- <-] & Hcases).
    destruct Hcases
      as [(cause & -> & Hresp & ->)
         | [(-> & Hresult & ->)
           | (-> & entries & before & entry & after & cs & st2 & -> & Hsplit
              & Hbefore & Hentry)]].
    + unfold ending. cbn [fst snd]. now rewrite Hresp.
    + now destruct Hresult as [-> | ->].
    + cbn [Result].
      assert (Hinner : ending (passes deleteEntryPass entries st1) = Fails e).
      { apply passes_fails_iff. exists before, entry, after, cs, st2. auto. }
      destruct (passes deleteEntryPass entries st1) as [[cs' e'] st3].
      exact Hinner.
Qed.

(** C1, as the code has it. On a call that passes validation and zone
    resolution, a pass of the upsert loop or of the delete loop that fails,
    after the passes of the targets before it have proceeded, ends the
    operation: the caller receives the failure of that one pass (never an
    aggregate), and the calls of the operation are those of the passes up to
    it, so that no call is issued for the targets after it. Conversely an
    error is returned only when a pass has failed that way, and no error is
    returned when every pass proceeds. A pass fails when its list call
    returns an error with a response that is not a 404, or no error and no
    result; in the upsert loop also when its create or update returns an
    error; in the delete loop also when a listed entry has no id or its
    delete returns an error with a response that is not a 404. A list call
    that returns an error without a response, or with a 404, makes its pass
    proceed, having issued that one call. *)
Theorem loop_ends_at_first_failure (p : Provider St) (record : DNSRecord)
  (zone : DNSZone) (dnsService : St) :
  validateInputDNSData (Some record) zone = None ->
  dnsServices p !! ID zone = Some dnsService ->
  let name := DNSName (Spec record) in
  let type := RecordType (Spec record) in
  let ttl := effectiveTTL (RecordTTL (Spec record)) in
  let targets := Targets (Spec record) in
  let upsert := upsertPassOf record in
  let delete := deletePassOf record in
  (forall done t rest cs st cs' e st',
     targets = done ++ t :: rest ->
     passes upsert done dnsService = (cs, Proceeds, st) ->
     upsert t st = (cs', Fails e, st') ->
     upsertFailure e
     /\ exit (Ensure p (Some record) zone) = Returned (Some e)
     /\ trace (Ensure p (Some record) zone) = cs ++ cs'
     /\ exit (Replace p (Some record) zone) = Returned (Some e)
     /\ trace (Replace p (Some record) zone) = cs ++ cs')
  /\ (forall done t rest cs st cs' e st',
        targets = done ++ t :: rest ->
        passes delete done dnsService = (cs, Proceeds, st) ->
        delete t st = (cs', Fails e, st') ->
        deleteFailure e
        /\ exit (Delete p (Some record) zone) = Returned (Some e)
        /\ trace (Delete p (Some record) zone) = cs ++ cs')
  /\ (forall cs st,
        passes upsert targets dnsService = (cs, Proceeds, st) ->
        exit (Ensure p (Some record) zone) = Returned None
        /\ trace (Ensure p (Some record) zone) = cs
        /\ exit (Replace p (Some record) zone) = Returned None
        /\ trace (Replace p (Some record) zone) = cs)
  /\ (forall cs st,
        passes delete targets dnsService = (cs, Proceeds, st) ->
        exit (Delete p (Some record) zone) = Returned None
        /\ trace (Delete p (Some record) zone) = cs)
  /\ (forall e,
        exit (Ensure p (Some record) zone) = Returned (Some e) ->
        exists done t rest cs st,
          targets = done ++ t :: rest
          /\ passes upsert done dnsService = (cs, Proceeds, st)
          /\ ending (upsert t st) = Fails e)
  /\ (forall e,
        exit (Delete p (Some record) zone) = Returned (Some e) ->
        exists done t rest cs st,
          targets = done ++ t :: rest
          /\ passes delete done dnsService = (cs, Proceeds, st)
          /\ ending (delete t st) = Fails e)
  /\ (forall t st e,
        ending (upsert t st) = Fails e
        <-> exists result response err st1,
              ListAllDnsRecords (upsertFilter record t) st
              = ((result, response, err), st1)
              /\ ((exists cause,
                     err = Some cause /\ notNilNorNotFound response = true
                     /\ e = Wrapf "createOrUpdateDNSRecord: failed to list the dns record: " cause)
                  \/ (err = None
                      /\ (result = None \/ result = Some {| Result := None |})
                      /\ e = Errorf "createOrUpdateDNSRecord: invalid result")
                  \/ (err = None /\ result = Some {| Result := Some [] |}
                      /\ exists cause,
                           snd (fst (CreateDnsRecord
                                       {| co_Name := Some name;
                                          co_Type := Some type;
                                          co_Content := Some t;
                                          co_TTL := Some ttl |} st1))
                           = Some cause
                           /\ e = Wrapf "createOrUpdateDNSRecord: failed to create the dns record: " cause)
                  \/ (err = None
                      /\ exists first others id cause,
                           result = Some {| Result := Some (first :: others) |}
                           /\ rd_ID first = Some id
                           /\ snd (fst (UpdateDnsRecord
                                          {| uo_DnsrecordIdentifier := id;
                                             uo_Name := Some name;
                                             uo_Type := Some type;
                                             uo_Content := Some t;
                                             uo_TTL := Some ttl |} st1))
                              = Some cause
                           /\ e = Wrapf "createOrUpdateDNSRecord: failed to update the dns record: " cause)))
  /\ (forall t st e,
        ending (delete t st) = Fails e
        <-> exists result response err st1,
              ListAllDnsRecords (deleteFilter record t) st
              = ((result, response, err), st1)
              /\ ((exists cause,
                     err = Some cause /\ notNilNorNotFound response = true
                     /\ e = Wrapf "delete: failed to list the dns record: " cause)
                  \/ (err = None
                      /\ (result = None \/ result = Some {| Result := None |})
                      /\ e = Errorf "delete: invalid result")
                  \/ (err = None
                      /\ exists entries before entry after cs st2,
                           result = Some {| Result := Some entries |}
                           /\ entries = before ++ entry :: after
                           /\ passes deleteEntryPass before st1
                              = (cs, Proceeds, st2)
                           /\ ending (deleteEntryPass entry st2) = Fails e)))
  /\ (forall entry st e,
        ending (deleteEntryPass entry st) = Fails e
        <-> (rd_ID entry = None /\ e = Errorf "delete: record id is nil")
            \/ exists id response cause st1,
                 rd_ID entry = Some id
                 /\ DeleteDnsRecord {| do_DnsrecordIdentifier := id |} st
                    = ((response, Some cause), st1)
                 /\ notNilNorNotFound response = true
                 /\ e = Wrapf "delete: failed to delete the dns record: " cause)
  /\ (forall t st result response err st1,
        (ListAllDnsRecords (upsertFilter record t) st
         = ((result, response, Some err), st1) ->
         upsert t st
         = ([CallList (upsertFilter record t)],
            (if notNilNorNotFound response
             then Fails (Wrapf "createOrUpdateDNSRecord: failed to list the dns record: " err)
             else Proceeds),
            st1))
        /\ (ListAllDnsRecords (deleteFilter record t) st
            = ((result, response, Some err), st1) ->
            delete t st
            = ([CallList (deleteFilter record t)],
               (if notNilNorNotFound response
                then Fails (Wrapf "delete: failed to list the dns record: " err)
                else Proceeds),
               st1)))
  /\ stopsAtFirstFailure upsertFailure targets (Ensure p (Some record) zone)
  /\ stopsAtFirstFailure upsertFailure targets (Replace p (Some record) zone)
  /\ stopsAtFirstFailure deleteFailure targets (Delete p (Some record) zone)
  /\ (faultless ->
      exit (Ensure p (Some record) zone) = Returned None
      /\ exit (Replace p (Some record) zone) = Returned None
      /\ exit (Delete p (Some record) zone) = Returned None).
Proof.
  intros Hv Hz name type ttl targets upsert delete.
  destruct (createOrUpdate_passes p record zone dnsService Hv Hz)
    as (Hexit & Htrace & _).
  destruct (Delete_passes p record zone dnsService Hv Hz)
    as (Hexit' & Htrace' & _).
  fold targets upsert in Hexit, Htrace. fold targets delete in Hexit', Htrace'.
  unfold Ensure, Replace.
  split.
  { intros done t rest cs st cs' e st' Htargets Hdone Hpass.
    split.
    { exact (upsertPass_failure (TrimSuffix (DNSName (Spec record)) ".")
               (DNSName (Spec record)) (RecordType (Spec record))
               (effectiveTTL (RecordTTL (Spec record))) t st e
               (f_equal ending Hpass)). }
    rewrite Hexit, Htrace, Htargets,
      (failing_pass_ends upsert done t rest dnsService cs st cs' e st' Hdone Hpass).
    now repeat split. }
  split.
  { intros done t rest cs st cs' e st' Htargets Hdone Hpass.
    split.
    { exact (deletePass_failure (DNSName (Spec record))
               (RecordType (Spec record)) t st e (f_equal ending Hpass)). }
    rewrite Hexit', Htrace', Htargets,
      (failing_pass_ends delete done t rest dnsService cs st cs' e st' Hdone Hpass).
    now split. }
  split.
  { intros cs st Hall. rewrite Hexit, Htrace, Hall. now repeat split. }
  split.
  { intros cs st Hall. rewrite Hexit', Htrace', Hall. now split. }
  split.
  { intros e He. rewrite Hexit in He.
    apply (passes_fails_iff upsert targets dnsService e).
    destruct (ending (passes upsert targets dnsService)); try discriminate.
    now injection He as ->. }
  split.
  { intros e He. rewrite Hexit' in He.
    apply (passes_fails_iff delete targets dnsService e).
    destruct (ending (passes delete targets dnsService)); try discriminate.
    now injection He as ->. }
  split.
  { intros t st e.
    exact (upsertPass_fails_iff (TrimSuffix name ".") name type ttl t st e). }
  split.
  { intros t st e. exact (deletePass_fails_iff name type t st e). }
  split.
  { exact deleteEntryPass_fails_iff. }
  split.
  { intros t st result response err st1. split; intros Hlist.
    + unfold upsert, upsertPassOf, upsertPass.
      change {| lo_Type := Some (RecordType (Spec record));
                lo_Name := Some (TrimSuffix (DNSName (Spec record)) ".");
                lo_Content := Some t |} with (upsertFilter record t).
      now rewrite Hlist.
    + unfold delete, deletePassOf, deletePass.
      change {| lo_Type := Some (RecordType (Spec record));
                lo_Name := Some (DNSName (Spec record));
                lo_Content := Some t |} with (deleteFilter record t).
      now rewrite Hlist. }
  exact (loops_stop p record zone Hv (ex_intro _ dnsService Hz)).
Qed.

(** C3. For the requested TTLs 0, 1, 50, 119, 120, 121 and 2147483647 the
    create and update calls issued by [Ensure] and by [Replace] carry the
    TTLs 120, 1, 120, 120, 120, 121 and 2147483647: on a call that passes
    validation and zone resolution, wherever the loop has come to, a list
    that finds nothing is followed by a create with the effective TTL, and a
    list that finds an entry by an update of that entry with the effective
    TTL; and no create or update call carries another TTL. *)
Theorem ttl_clamping_table (p : Provider St) (record : DNSRecord)
  (zone : DNSZone) (requested effective : Z) :
  In (requested, effective)
     [(0, 120); (1, 1); (50, 120); (119, 120); (120, 120); (121, 121);
      (2147483647, 2147483647)] ->
  RecordTTL (Spec record) = requested ->
  let name := DNSName (Spec record) in
  let type := RecordType (Spec record) in
  let targets := Targets (Spec record) in
  let pass := upsertPass (TrimSuffix name ".") name type effective in
  effectiveTTL requested = effective
  /\ Forall (usesTTL effective) (trace (Ensure p (Some record) zone))
  /\ Forall (usesTTL effective) (trace (Replace p (Some record) zone))
  /\ Replace p (Some record) zone = Ensure p (Some record) zone
  /\ forall dnsService,
       validateInputDNSData (Some record) zone = None ->
       dnsServices p !! ID zone = Some dnsService ->
       trace (Ensure p (Some record) zone)
       = issued (passes pass targets dnsService)
       /\ forall done t rest cs st,
            targets = done ++ t :: rest ->
            passes pass done dnsService = (cs, Proceeds, st) ->
            let filter :=
              {| lo_Type := Some type; lo_Name := Some (TrimSuffix name ".");
                 lo_Content := Some t |} in
            (forall response st1,
               ListAllDnsRecords filter st
               = ((Some {| Result := Some [] |}, response, None), st1) ->
               exists more,
                 trace (Ensure p (Some record) zone)
                 = cs ++ CallList filter
                      :: CallCreate {| co_Name := Some name;
                                       co_Type := Some type;
                                       co_Content := Some t;
                                       co_TTL := Some effective |}
                      :: more)
            /\ (forall first others id response st1,
                  ListAllDnsRecords filter st
                  = ((Some {| Result := Some (first :: others) |}, response,
                      None), st1) ->
                  rd_ID first = Some id ->
                  exists more,
                    trace (Ensure p (Some record) zone)
                    = cs ++ CallList filter
                         :: CallUpdate {| uo_DnsrecordIdentifier := id;
                                          uo_Name := Some name;
                                          uo_Type := Some type;
                                          uo_Content := Some t;
                                          uo_TTL := Some effective |}
                         :: more).
Proof.
  intros Hin Hrec name type targets pass.
  destruct (ttl_table_in_traces p record zone requested effective Hin Hrec)
    as (Heff & Hensure & Hreplace).
  split; [exact Heff |]. split; [exact Hensure |]. split; [exact Hreplace |].
  split; [reflexivity |].
  intros dnsService Hv Hz.
  assert (Httl : effectiveTTL (RecordTTL (Spec record)) = effective)
    by now rewrite Hrec.
  destruct (upsert_reaches p record zone dnsService effective Hv Hz Httl)
    as [Htrace Hreach].
  split; [exact Htrace |].
  intros done t rest cs st Htargets Hdone filter.
  destruct (Hreach done t rest cs st Htargets Hdone) as (_ & Hcreate & Hupdate).
  split; [exact Hcreate | exact Hupdate].
Qed.

(** C6. On a call that passes validation and zone resolution, wherever the
    upsert loop has come to, its list call filters on the desired name with
    one trailing dot removed, and the create or the update that follows
    writes the desired name as it is; wherever the delete loop has come to,
    its list call filters on the desired name as it is. No list, create or
    update call of the two paths carries another name. *)
Theorem name_trimming_asymmetry (p : Provider St) (record : DNSRecord)
  (zone : DNSZone) :
  let name := DNSName (Spec record) in
  let type := RecordType (Spec record) in
  let targets := Targets (Spec record) in
  let ttl := effectiveTTL (RecordTTL (Spec record)) in
  let upsert := upsertPass (TrimSuffix name ".") name type ttl in
  let delete := deletePass name type in
  Forall (usesNames (TrimSuffix name ".") name)
    (trace (createOrUpdateDNSRecord p (Some record) zone))
  /\ Forall (listsOn name) (trace (Delete p (Some record) zone))
  /\ (forall s, name = s +:+ "." -> TrimSuffix name "." = s)
  /\ ((forall s, name <> s +:+ ".") -> TrimSuffix name "." = name)
  /\ forall dnsService,
       validateInputDNSData (Some record) zone = None ->
       dnsServices p !! ID zone = Some dnsService ->
       trace (createOrUpdateDNSRecord p (Some record) zone)
       = issued (passes upsert targets dnsService)
       /\ trace (Delete p (Some record) zone)
          = issued (passes delete targets dnsService)
       /\ (forall done t rest cs st,
             targets = done ++ t :: rest ->
             passes upsert done dnsService = (cs, Proceeds, st) ->
             let filter :=
               {| lo_Type := Some type; lo_Name := Some (TrimSuffix name ".");
                  lo_Content := Some t |} in
             (exists more,
                trace (createOrUpdateDNSRecord p (Some record) zone)
                = cs ++ CallList filter :: more)
             /\ (forall response st1,
                   ListAllDnsRecords filter st
                   = ((Some {| Result := Some [] |}, response, None), st1) ->
                   exists more,
                     trace (createOrUpdateDNSRecord p (Some record) zone)
                     = cs ++ CallList filter
                          :: CallCreate {| co_Name := Some name;
                                           co_Type := Some type;
                                           co_Content := Some t;
                                           co_TTL := Some ttl |}
                          :: more)
             /\ (forall first others id response st1,
                   ListAllDnsRecords filter st
                   = ((Some {| Result := Some (first :: others) |}, response,
                       None), st1) ->
                   rd_ID first = Some id ->
                   exists more,
                     trace (createOrUpdateDNSRecord p (Some record) zone)
                     = cs ++ CallList filter
                          :: CallUpdate {| uo_DnsrecordIdentifier := id;
                                           uo_Name := Some name;
                                           uo_Type := Some type;
                                           uo_Content := Some t;
                                           uo_TTL := Some ttl |}
                          :: more))
       /\ (forall done t rest cs st,
             targets = done ++ t :: rest ->
             passes delete done dnsService = (cs, Proceeds, st) ->
             exists more,
               trace (Delete p (Some record) zone)
               = cs ++ CallList {| lo_Type := Some type; lo_Name := Some name;
                                   lo_Content := Some t |} :: more).
Proof.
  intros name type targets ttl upsert delete.
  destruct (names_in_traces p record zone) as (Hupsert & Hdelete & Hdot & Hnodot).
  split; [exact Hupsert |]. split; [exact Hdelete |].
  split; [exact Hdot |]. split; [exact Hnodot |].
  intros dnsService Hv Hz.
  destruct (upsert_reaches p record zone dnsService ttl Hv Hz eq_refl)
    as [Htrace Hreach].
  destruct (Delete_reaches p record zone dnsService Hv Hz)
    as [Htrace' Hreach'].
  split; [exact Htrace |]. split; [exact Htrace' |].
  split; [exact Hreach | exact Hreach'].
Qed.

End PassByPass.

Lemma loop_ends_at_first_failure_witness :
  let upsert :=
    Ensure (Examples.scripted [Scripted.listed []; Scripted.callFails 500;
                               Scripted.listed []; Scripted.callFails 500])
           (Some (Examples.wildcard 300)) Examples.zone1 in
  exit upsert
  = Returned (Some (Wrapf "createOrUpdateDNSRecord: failed to create the dns record: "
                      (Errorf "call failed")))
  /\ trace upsert
     = [CallList {| lo_Type := Some "A"; lo_Name := Some "*.apps.example.com";
                    lo_Content := Some "1.2.3.4" |};
        CallCreate {| co_Name := Some "*.apps.example.com."; co_Type := Some "A";
                      co_Content := Some "1.2.3.4"; co_TTL := Some 300 |}].
Proof.
  assert (Hpass :
            upsertPassOf (Examples.wildcard 300) "1.2.3.4"
              [Scripted.listed []; Scripted.callFails 500;
               Scripted.listed []; Scripted.callFails 500]
            = ([CallList {| lo_Type := Some "A";
                            lo_Name := Some "*.apps.example.com";
                            lo_Content := Some "1.2.3.4" |};
                CallCreate {| co_Name := Some "*.apps.example.com.";
                              co_Type := Some "A";
                              co_Content := Some "1.2.3.4";
                              co_TTL := Some 300 |}],
               Fails (Wrapf "createOrUpdateDNSRecord: failed to create the dns record: "
                        (Errorf "call failed")),
               [Scripted.listed []; Scripted.callFails 500]))
    by (vm_compute; reflexivity).
  destruct (proj1 (loop_ends_at_first_failure
                     (Examples.scripted
                        [Scripted.listed []; Scripted.callFails 500;
                         Scripted.listed []; Scripted.callFails 500])
                     (Examples.wildcard 300) Examples.zone1
                     [Scripted.listed []; Scripted.callFails 500;
                      Scripted.listed []; Scripted.callFails 500]
                     eq_refl eq_refl)
              [] "1.2.3.4" ["5.6.7.8"] [] _ _ _ _ eq_refl eq_refl Hpass)
    as (_ & Hexit & Htrace & _).
  split; [exact Hexit | exact Htrace].
Defined.

Lemma ttl_clamping_table_witness :
  trace (Ensure (Examples.scripted [Scripted.listed []; Scripted.callOk;
                                    Scripted.listed []; Scripted.callOk])
                (Some (Examples.wildcard 50)) Examples.zone1)
  = [CallList {| lo_Type := Some "A"; lo_Name := Some "*.apps.example.com";
                 lo_Content := Some "1.2.3.4" |};
     CallCreate {| co_Name := Some "*.apps.example.com."; co_Type := Some "A";
                   co_Content := Some "1.2.3.4"; co_TTL := Some 120 |};
     CallList {| lo_Type := Some "A"; lo_Name := Some "*.apps.example.com";
                 lo_Content := Some "5.6.7.8" |};
     CallCreate {| co_Name := Some "*.apps.example.com."; co_Type := Some "A";
                   co_Content := Some "5.6.7.8"; co_TTL := Some 120 |}].
Proof.
  assert (Hin : In (50, 120)
                  [(0, 120); (1, 1); (50, 120); (119, 120); (120, 120);
                   (121, 121); (2147483647, 2147483647)])
    by (simpl; tauto).
  destruct (ttl_clamping_table
              (Examples.scripted [Scripted.listed []; Scripted.callOk;
                                  Scripted.listed []; Scripted.callOk])
              (Examples.wildcard 50) Examples.zone1 50 120 Hin eq_refl)
    as (_ & _ & _ & _ & Hruns).
  destruct (Hruns [Scripted.listed []; Scripted.callOk;
                   Scripted.listed []; Scripted.callOk] eq_refl eq_refl)
    as [Htrace _].
  rewrite Htrace. vm_compute. reflexivity.
Defined.

Lemma name_trimming_asymmetry_witness :
  trace (Ensure (Examples.scripted [Scripted.listed []; Scripted.callOk;
                                    Scripted.listFails 404])
                (Some (Examples.wildcard 300)) Examples.zone1)
  = [CallList {| lo_Type := Some "A"; lo_Name := Some "*.apps.example.com";
                 lo_Content := Some "1.2.3.4" |};
     CallCreate {| co_Name := Some "*.apps.example.com."; co_Type := Some "A";
                   co_Content := Some "1.2.3.4"; co_TTL := Some 300 |};
     CallList {| lo_Type := Some "A"; lo_Name := Some "*.apps.example.com";
                 lo_Content := Some "5.6.7.8" |}]
  /\ trace (Delete (Examples.scripted [Scripted.listFails 404;
                                       Scripted.listed []])
                   (Some (Examples.wildcard 300)) Examples.zone1)
     = [CallList {| lo_Type := Some "A"; lo_Name := Some "*.apps.example.com.";
                    lo_Content := Some "1.2.3.4" |};
        CallList {| lo_Type := Some "A"; lo_Name := Some "*.apps.example.com.";
                    lo_Content := Some "5.6.7.8" |}].
Proof.
  split.
  - destruct (name_trimming_asymmetry
                (Examples.scripted [Scripted.listed []; Scripted.callOk;
                                    Scripted.listFails 404])
                (Examples.wildcard 300) Examples.zone1)
      as (_ & _ & _ & _ & Hruns).
    destruct (Hruns [Scripted.listed []; Scripted.callOk;
                     Scripted.listFails 404] eq_refl eq_refl)
      as [Htrace _].
    unfold Ensure. rewrite Htrace. vm_compute. reflexivity.
  - destruct (name_trimming_asymmetry
                (Examples.scripted [Scripted.listFails 404; Scripted.listed []])
                (Examples.wildcard 300) Examples.zone1)
      as (_ & _ & _ & _ & Hruns).
    destruct (Hruns [Scripted.listFails 404; Scripted.listed []]
                eq_refl eq_refl)
      as (_ & Htrace & _).
    rewrite Htrace. vm_compute. reflexivity.
Defined.

(** ** "Not found" replies *)

Section NotFound.

Context {St : Type} `{DnsClient St}.

Lemma upsertTarget_notFound (record : DNSRecord)
  (listOpt : ListAllDnsRecordsOptions) (t : string) (w : World St) :
  isNotFound (fst (ListAllDnsRecords (list_SetContent t listOpt) (remote w))) ->
  upsertTarget record listOpt t w
  = (Normal tt,
     called (CallList (list_SetContent t listOpt))
       (snd (ListAllDnsRecords (list_SetContent t listOpt) (remote w))) w).
Proof.
  unfold upsertTarget, bind, invoke.
  destruct (ListAllDnsRecords _ _) as [[[result response] [err|]] st];
    cbn [fst snd isNotFound]; [| intros []].
  now intros ->.
Qed.

Lemma deleteTarget_noMatch (opt : ListAllDnsRecordsOptions) (t : string)
  (w : World St) :
  noMatch (fst (ListAllDnsRecords (list_SetContent t opt) (remote w))) ->
  deleteTarget opt t w
  = (Normal tt,
     called (CallList (list_SetContent t opt))
       (snd (ListAllDnsRecords (list_SetContent t opt) (remote w))) w).
Proof.
  unfold deleteTarget, bind, invoke.
  destruct (ListAllDnsRecords _ _) as [[[result response] [err|]] st];
    destruct result as [[[[|first rest]|]]|]; cbn [fst snd noMatch];
    intros Hr; try (now destruct Hr); now rewrite Hr.
Qed.

Lemma isNotFound_noMatch (r : ListReply) : isNotFound r -> noMatch r.
Proof.
  destruct r as [[result response] [err|]]; [| intros []].
  now destruct result as [[[[|first rest]|]]|].
Qed.

Lemma deleteEntry_notFound (entry : DnsrecordDetails) (id : string)
  (w : World St) (err : error) (st : St) :
  rd_ID entry = Some id ->
  DeleteDnsRecord (NewDeleteDnsRecordOptions id) (remote w)
  = ((notFound, Some err), st) ->
  deleteEntry entry w
  = (Normal tt, called (CallDelete (NewDeleteDnsRecordOptions id)) st w).
Proof.
  intros Hid Hreply. unfold deleteEntry, bind, invoke.
  now rewrite Hid, Hreply.
Qed.

(** A loop whose every step only lists and goes on lists every target and
    completes. *)
Lemma forEach_only_lists (P : ListReply -> Prop)
  (body : string -> M unit) (opt : ListAllDnsRecordsOptions) :
  (forall t (w : World St),
      P (fst (ListAllDnsRecords (list_SetContent t opt) (remote w))) ->
      body t w
      = (Normal tt,
         called (CallList (list_SetContent t opt))
           (snd (ListAllDnsRecords (list_SetContent t opt) (remote w))) w)) ->
  forall (targets : list string) (w : World St),
    everyListReply P opt targets (remote w) ->
    fst (forEach body targets w) = Normal tt
    /\ calls (snd (forEach body targets w)) = calls w ++ listCalls opt targets.
Proof.
  intros Hbody. induction targets as [|t targets IH]; intros w Hall.
  - cbn. now rewrite app_nil_r.
  - destruct Hall as [Ht Hall]. rewrite forEach_cons, (Hbody t w Ht).
    destruct (IH (called (CallList (list_SetContent t opt))
                    (snd (ListAllDnsRecords (list_SetContent t opt) (remote w))) w)
                Hall) as [-> ->].
    split; [reflexivity |]. cbn. now rewrite <- app_assoc.
Qed.

Lemma upsertListOpt_normalized (record : DNSRecord) :
  upsertListOpt (normalized record) = upsertListOpt record.
Proof.
  unfold upsertListOpt.
  destruct (normalized_fields record) as (-> & -> & _). reflexivity.
Qed.

(** C7. A 404-class reply to the list call of a target makes the upsert
    loop and the delete loop go on with the next target, with no failure and
    no further call for that target; a 404-class reply to the delete of an
    entry makes the delete loop go on with the next entry; so [Ensure] and
    [Replace] return no error when every list call is answered with a 404,
    and [Delete] returns no error when every list call reports no matching
    entry (a 404 or an empty result). *)
Theorem not_found_is_not_a_failure (p : Provider St) (record : DNSRecord)
  (zone : DNSZone) (dnsService : St) :
  (forall listOpt t rest (w : World St),
      isNotFound (fst (ListAllDnsRecords (list_SetContent t listOpt) (remote w))) ->
      let w' := called (CallList (list_SetContent t listOpt))
                  (snd (ListAllDnsRecords (list_SetContent t listOpt) (remote w))) w in
      forEach (upsertTarget record listOpt) (t :: rest) w
      = forEach (upsertTarget record listOpt) rest w'
      /\ forEach (deleteTarget listOpt) (t :: rest) w
         = forEach (deleteTarget listOpt) rest w')
  /\ (forall entry rest id (w : World St) err st,
         rd_ID entry = Some id ->
         DeleteDnsRecord (NewDeleteDnsRecordOptions id) (remote w)
         = ((notFound, Some err), st) ->
         forEach deleteEntry (entry :: rest) w
         = forEach deleteEntry rest
             (called (CallDelete (NewDeleteDnsRecordOptions id)) st w))
  /\ (validateInputDNSData (Some record) zone = None ->
      dnsServices p !! ID zone = Some dnsService ->
      everyListReply isNotFound (upsertListOpt record) (Targets (Spec record))
        dnsService ->
      exit (Ensure p (Some record) zone) = Returned None
      /\ exit (Replace p (Some record) zone) = Returned None
      /\ trace (Ensure p (Some record) zone)
         = listCalls (upsertListOpt record) (Targets (Spec record)))
  /\ (validateInputDNSData (Some record) zone = None ->
      dnsServices p !! ID zone = Some dnsService ->
      everyListReply noMatch (deleteListOpt record) (Targets (Spec record))
        dnsService ->
      exit (Delete p (Some record) zone) = Returned None
      /\ trace (Delete p (Some record) zone)
         = listCalls (deleteListOpt record) (Targets (Spec record))).
Proof.
  split; [| split; [| split]].
  - intros listOpt t rest w Hnf w'. rewrite !forEach_cons.
    rewrite (upsertTarget_notFound _ _ _ _ Hnf).
    rewrite (deleteTarget_noMatch _ _ _ (isNotFound_noMatch _ Hnf)).
    now split.
  - intros entry rest id w err st Hid Hreply.
    now rewrite forEach_cons, (deleteEntry_notFound _ _ _ _ _ Hid Hreply).
  - intros Hv Hz Hall. unfold Ensure, Replace.
    rewrite (createOrUpdate_run _ _ _ _ Hv Hz).
    rewrite upsertListOpt_normalized.
    destruct (normalized_fields record) as (_ & _ & ->).
    destruct (forEach_only_lists isNotFound
                (upsertTarget (normalized record) (upsertListOpt record))
                (upsertListOpt record)
                (fun t w => upsertTarget_notFound _ _ t w)
                (Targets (Spec record)) (upsertStart record dnsService) Hall)
      as [Hexit Hcalls].
    unfold finish. cbn [exit trace]. rewrite Hexit, Hcalls. auto.
  - intros Hv Hz Hall. rewrite (Delete_run _ _ _ _ Hv Hz).
    destruct (forEach_only_lists noMatch (deleteTarget (deleteListOpt record))
                (deleteListOpt record)
                (fun t w => deleteTarget_noMatch _ t w)
                (Targets (Spec record)) (deleteStart dnsService) Hall)
      as [Hexit Hcalls].
    unfold finish. cbn [exit trace]. rewrite Hexit, Hcalls. auto.
Qed.

End NotFound.

Lemma not_found_is_not_a_failure_witness :
  exit (Delete (Examples.scripted [Scripted.listFails 404; Scripted.listed []])
          (Some (Examples.wildcard 300)) Examples.zone1)
  = Returned None
  /\ trace (Delete (Examples.scripted [Scripted.listFails 404; Scripted.listed []])
              (Some (Examples.wildcard 300)) Examples.zone1)
     = listCalls (deleteListOpt (Examples.wildcard 300)) ["1.2.3.4"; "5.6.7.8"].
Proof.
  apply (not_found_is_not_a_failure
           (Examples.scripted [Scripted.listFails 404; Scripted.listed []])
           (Examples.wildcard 300) Examples.zone1
           [Scripted.listFails 404; Scripted.listed []]).
  - reflexivity.
  - reflexivity.
  - simpl. auto.
Defined.

(** ** Nil ids in list results *)

Section NilID.

Context {St : Type} `{DnsClient St}.

Local Abbreviation safe := (safe (St := St)).

Lemma safe_ret {A : Type} (a : A) : safe (ret a).
Proof. intros w. discriminate. Qed.

Lemma safe_returnErr {A : Type} (e : error) : safe (returnErr (A := A) e).
Proof. intros w. discriminate. Qed.

Lemma safe_logInfo (msg : string) : safe (logInfo msg).
Proof. intros w. discriminate. Qed.

(** After a client call whose reply always satisfies [P], it is enough that
    the rest is safe for replies that satisfy [P]. *)
Lemma safe_after_call {O R B : Type} (P : R -> Prop)
  (method : O -> St -> R * St) (mk : O -> Call) (opt : O) (k : R -> M B) :
  (forall st, P (fst (method opt st))) ->
  (forall r, P r -> safe (k r)) ->
  safe (bind (invoke method mk opt) k).
Proof.
  intros HP Hk w. unfold bind, invoke.
  specialize (HP (remote w)).
  destruct (method opt (remote w)) as [r st]. now apply Hk.
Qed.

Lemma safe_bind {A B : Type} (m : M A) (k : A -> M B) :
  safe m -> (forall a, safe (k a)) -> safe (bind m k).
Proof.
  intros Hm Hk w. unfold bind. specialize (Hm w).
  destruct (m w) as [[a | e |] w1]; cbn [fst] in *;
    [apply Hk | discriminate | congruence].
Qed.

Lemma safe_forEach {A : Type} (body : A -> M unit) (l : list A) :
  (forall x, safe (body x)) -> safe (forEach body l).
Proof.
  intros Hbody. induction l as [|x l IH]; [apply safe_ret |].
  apply safe_bind; auto.
Qed.

Lemma upsertTarget_safe (record : DNSRecord) (listOpt : ListAllDnsRecordsOptions)
  (t : string) :
  (forall opt st, firstHasID (fst (ListAllDnsRecords opt st))) ->
  safe (upsertTarget record listOpt t).
Proof.
  intros Hids. unfold upsertTarget.
  apply (safe_after_call firstHasID); [intros st; apply Hids |].
  intros [[result response] [err|]] Hr.
  { destruct (notNilNorNotFound response);
      [apply safe_returnErr | apply safe_ret]. }
  destruct result as [[[[|first rest]|]]|]; cbn [Result firstHasID] in *;
    try apply safe_returnErr.
  - apply (safe_after_call (fun _ => True)); [trivial |].
    intros [resp [err|]] _; [apply safe_returnErr | apply safe_logInfo].
  - destruct (rd_ID first) as [id|]; [| congruence].
    apply (safe_after_call (fun _ => True)); [trivial |].
    intros [resp [err|]] _; [apply safe_returnErr | apply safe_logInfo].
Qed.

Lemma deleteEntry_safe (resultData : DnsrecordDetails) :
  safe (deleteEntry resultData).
Proof.
  unfold deleteEntry.
  destruct (rd_ID resultData) as [id|]; [| apply safe_returnErr].
  apply (safe_after_call (fun _ => True)); [trivial |].
  intros [delResponse err] _. apply safe_bind.
  - destruct err as [err|]; [| apply safe_ret].
    destruct (notNilNorNotFound delResponse);
      [apply safe_returnErr | apply safe_ret].
  - intros _. destruct (notNilNorNotFound delResponse);
      [apply safe_logInfo | apply safe_ret].
Qed.

Lemma deleteTarget_safe (opt : ListAllDnsRecordsOptions) (t : string) :
  safe (deleteTarget opt t).
Proof.
  unfold deleteTarget.
  apply (safe_after_call (fun _ => True)); [trivial |].
  intros [[result response] [err|]] _.
  { destruct (notNilNorNotFound response);
      [apply safe_returnErr | apply safe_ret]. }
  destruct result as [[[entries|]]|]; cbn [Result];
    try apply safe_returnErr.
  apply safe_forEach, deleteEntry_safe.
Qed.

Lemma finish_safe (p : Provider St) (record : option DNSRecord)
  (zone : DNSZone) (m : M unit) (w : World St) :
  safe m -> exit (finish p record zone (m w)) <> Panicked.
Proof.
  intros Hm. unfold finish. cbn [exit]. specialize (Hm w).
  destruct (fst (m w)); congruence.
Qed.

Lemma createOrUpdate_safe (p : Provider St) (record : option DNSRecord)
  (zone : DNSZone) :
  (forall opt st, firstHasID (fst (ListAllDnsRecords opt st))) ->
  exit (createOrUpdateDNSRecord p record zone) <> Panicked.
Proof.
  intros Hids.
  destruct (gate_cases p record zone)
    as [Hg | (r & dnsService & -> & Hv & Hz)].
  - now destruct (createOrUpdate_gated _ _ _ Hg) as [e ->].
  - rewrite (createOrUpdate_run _ _ _ _ Hv Hz).
    apply finish_safe, safe_forEach. intros t. now apply upsertTarget_safe.
Qed.

Lemma Delete_safe (p : Provider St) (record : option DNSRecord)
  (zone : DNSZone) :
  exit (Delete p record zone) <> Panicked.
Proof.
  destruct (gate_cases p record zone)
    as [Hg | (r & dnsService & -> & Hv & Hz)].
  - now destruct (Delete_gated _ _ _ Hg) as [e ->].
  - rewrite (Delete_run _ _ _ _ Hv Hz).
    apply finish_safe, safe_forEach. intros t. apply deleteTarget_safe.
Qed.

(** C10. [Ensure] and [Replace] dereference the id of the first listed
    entry unguarded: they never panic when the first entry of every
    non-empty list result carries an id, and they do panic when the list
    result for the first target starts with an entry whose id is nil.
    [Delete] never panics: on such an entry it returns the error
    "delete: record id is nil" without issuing a delete call. *)
Theorem nil_id_is_guarded_in_Delete_only (p : Provider St) (record : DNSRecord)
  (zone : DNSZone) (dnsService : St) :
  ((forall opt st, firstHasID (fst (ListAllDnsRecords opt st))) ->
   forall anyRecord,
     exit (Ensure p anyRecord zone) <> Panicked
     /\ exit (Replace p anyRecord zone) <> Panicked)
  /\ (forall t targets first rest response st,
         validateInputDNSData (Some record) zone = None ->
         dnsServices p !! ID zone = Some dnsService ->
         Targets (Spec record) = t :: targets ->
         ListAllDnsRecords (list_SetContent t (upsertListOpt record)) dnsService
         = ((Some {| Result := Some (first :: rest) |}, response, None), st) ->
         rd_ID first = None ->
         exit (Ensure p (Some record) zone) = Panicked
         /\ exit (Replace p (Some record) zone) = Panicked)
  /\ (forall anyRecord, exit (Delete p anyRecord zone) <> Panicked)
  /\ (forall t targets first rest response st,
         validateInputDNSData (Some record) zone = None ->
         dnsServices p !! ID zone = Some dnsService ->
         Targets (Spec record) = t :: targets ->
         ListAllDnsRecords (list_SetContent t (deleteListOpt record)) dnsService
         = ((Some {| Result := Some (first :: rest) |}, response, None), st) ->
         rd_ID first = None ->
         exit (Delete p (Some record) zone)
         = Returned (Some (Errorf "delete: record id is nil"))
         /\ trace (Delete p (Some record) zone)
            = [CallList (list_SetContent t (deleteListOpt record))]).
Proof.
  split; [| split; [| split]].
  - intros Hids anyRecord. unfold Ensure, Replace.
    split; now apply createOrUpdate_safe.
  - intros t targets first rest response st Hv Hz Ht Hreply Hid.
    assert (Hpanic : exit (createOrUpdateDNSRecord p (Some record) zone)
                     = Panicked).
    { rewrite (createOrUpdate_run _ _ _ _ Hv Hz).
      rewrite upsertListOpt_normalized.
      destruct (normalized_fields record) as (_ & _ & ->). rewrite Ht.
      rewrite forEach_cons. unfold upsertTarget at 1, bind, invoke.
      cbn [upsertStart remote]. rewrite Hreply. cbn [Result]. rewrite Hid.
      reflexivity. }
    unfold Ensure, Replace. now split.
  - intros anyRecord. apply Delete_safe.
  - intros t targets first rest response st Hv Hz Ht Hreply Hid.
    rewrite (Delete_run _ _ _ _ Hv Hz), Ht.
    assert (Hrun : forEach (deleteTarget (deleteListOpt record)) (t :: targets)
                     (deleteStart dnsService)
                   = (Return (Errorf "delete: record id is nil"),
                      called (CallList (list_SetContent t (deleteListOpt record)))
                        st (deleteStart dnsService))).
    { rewrite forEach_cons. unfold deleteTarget at 1, bind, invoke.
      cbn [deleteStart remote]. rewrite Hreply. cbn [Result].
      rewrite forEach_cons. unfold deleteEntry at 1. rewrite Hid.
      reflexivity. }
    rewrite Hrun. now split.
Qed.

End NilID.

Lemma nil_id_is_guarded_in_Delete_only_witness :
  (forall anyRecord,
      exit (Ensure (H := MemStore.client Examples.exactly)
              (Examples.stored Examples.emptyZone) anyRecord Examples.zone1)
      <> Panicked
      /\ exit (Replace (H := MemStore.client Examples.exactly)
                 (Examples.stored Examples.emptyZone) anyRecord Examples.zone1)
         <> Panicked)
  /\ exit (Ensure (Examples.scripted [Scripted.listed [Examples.anonymous]])
             (Some (Examples.wildcard 300)) Examples.zone1)
     = Panicked
  /\ exit (Delete (Examples.scripted [Scripted.listed [Examples.anonymous]])
             (Some (Examples.wildcard 300)) Examples.zone1)
     = Returned (Some (Errorf "delete: record id is nil")).
Proof.
  split; [| split].
  - apply (nil_id_is_guarded_in_Delete_only (H := MemStore.client Examples.exactly)
             (Examples.stored Examples.emptyZone) (Examples.wildcard 300)
             Examples.zone1 Examples.emptyZone).
    intros opt st. cbn.
    destruct (List.filter _ _); cbn; [exact I | discriminate].
  - eapply (nil_id_is_guarded_in_Delete_only
              (Examples.scripted [Scripted.listed [Examples.anonymous]])
              (Examples.wildcard 300) Examples.zone1
              [Scripted.listed [Examples.anonymous]]);
      reflexivity.
  - eapply (nil_id_is_guarded_in_Delete_only
              (Examples.scripted [Scripted.listed [Examples.anonymous]])
              (Examples.wildcard 300) Examples.zone1
              [Scripted.listed [Examples.anonymous]]);
      reflexivity.
Defined.

(** ** Two upserts in a row on a zone held in memory *)

Section Idempotence.

Import MemStore.

Variable canon : string -> string.
Variable r : DNSRecord.

Hypothesis canon_trimmed :
  canon (TrimSuffix (DNSName (Spec r)) ".") = canon (DNSName (Spec r)).

Local Abbreviation ids t z := (matchIDs canon (upsertFilter r t) z).
Local Abbreviation body :=
  (upsertTarget (H := client canon) r (upsertListOpt r)).

(** The entry the service adds for target [t]. *)
Local Abbreviation added z t :=
  {| e_id := idOf (created z); e_name := DNSName (Spec r);
     e_type := RecordType (Spec r); e_content := t;
     e_ttl := RecordTTL (Spec r) |}.

(** The entries after an update of the entry [id] for target [t]. *)
Local Abbreviation updated z id t :=
  (map (fun e => if String.eqb (e_id e) id
                 then overwrite (updateOptOf r id t) e else e) (entries z)).

Lemma has_In (e : Entry) (z : Zone) : In e (entries z) -> has (e_id e) z = true.
Proof.
  intros He. unfold has. apply existsb_exists. exists e.
  split; [exact He | apply String.eqb_refl].
Qed.

Lemma step_create (t : string) (w : World Zone) :
  List.filter (selects canon (upsertFilter r t)) (entries (remote w)) = [] ->
  body t w
  = (Normal tt,
     {| remote := {| entries := entries (remote w) ++ [added (remote w) t];
                     created := S (created (remote w)) |};
        calls := (calls w ++ [CallList (upsertFilter r t)])
                 ++ [CallCreate (createOptOf r t)];
        logs := logs w ++ ["created DNS record"] |}).
Proof.
  intros Hnil. unfold upsertTarget, bind, invoke.
  cbn [ListAllDnsRecords client listAll]. fold (upsertFilter r t).
  rewrite Hnil. reflexivity.
Qed.

Lemma step_update (t : string) (w : World Zone) (e0 : Entry)
  (more : list Entry) :
  List.filter (selects canon (upsertFilter r t)) (entries (remote w))
  = e0 :: more ->
  body t w
  = (Normal tt,
     {| remote := {| entries := updated (remote w) (e_id e0) t;
                     created := created (remote w) |};
        calls := (calls w ++ [CallList (upsertFilter r t)])
                 ++ [CallUpdate (updateOptOf r (e_id e0) t)];
        logs := logs w ++ ["updated DNS record"] |}).
Proof.
  intros Hsel.
  assert (Hin : In e0 (entries (remote w))).
  { apply (proj1 (filter_In (selects canon (upsertFilter r t)) e0 _)).
    rewrite Hsel. now left. }
  unfold upsertTarget, bind, invoke.
  cbn [ListAllDnsRecords client listAll]. fold (upsertFilter r t).
  rewrite Hsel. cbn [map Result details rd_ID].
  fold (updateOptOf r (e_id e0) t).
  cbn [UpdateDnsRecord client remote]. unfold updateOne.
  change (uo_DnsrecordIdentifier (updateOptOf r (e_id e0) t)) with (e_id e0).
  rewrite (has_In _ _ Hin). reflexivity.
Qed.

Lemma selects_added (z : Zone) (t t' : string) :
  selects canon (upsertFilter r t') (added z t) = String.eqb t' t.
Proof.
  unfold selects. cbn. rewrite canon_trimmed, !String.eqb_refl. reflexivity.
Qed.

Lemma ids_create (z : Zone) (t t' : string) :
  ids t' {| entries := entries z ++ [added z t]; created := S (created z) |}
  = ids t' z ++ (if String.eqb t' t then [idOf (created z)] else []).
Proof.
  unfold matchIDs. cbn [entries]. rewrite List.filter_app, List.map_app.
  cbn [List.filter]. rewrite selects_added.
  now destruct (String.eqb t' t).
Qed.

Lemma NoDup_map_eq {A B : Type} (f : A -> B) (l : list A) (a b : A) :
  NoDup (map f l) -> In a l -> In b l -> f a = f b -> a = b.
Proof.
  induction l as [|x l IH]; cbn [map]; intros Hnd Ha Hb Hf; [destruct Ha |].
  apply NoDup_cons in Hnd as [Hx Hnd].
  rewrite list_elem_of_In in Hx.
  destruct Ha as [<- | Ha], Hb as [<- | Hb]; auto.
  - destruct Hx. rewrite Hf. now apply in_map.
  - destruct Hx. rewrite <- Hf. now apply in_map.
Qed.

(** An update for target [t] of an entry the list for [t] returned leaves
    the entry in the result of every list of the loop it was in. *)
Lemma selects_overwrite (e0 : Entry) (id t t' : string) :
  selects canon (upsertFilter r t) e0 = true ->
  selects canon (upsertFilter r t') (overwrite (updateOptOf r id t) e0)
  = selects canon (upsertFilter r t') e0.
Proof.
  unfold selects. cbn. rewrite !andb_true_iff, !String.eqb_eq.
  intros [[Hname Htype] Hcontent].
  rewrite canon_trimmed, <- Htype, <- Hcontent.
  rewrite <- Hname, canon_trimmed. reflexivity.
Qed.

Lemma filter_map_ids (f : Entry -> bool) (g : Entry -> Entry) (l : list Entry) :
  (forall e, In e l -> f (g e) = f e /\ e_id (g e) = e_id e) ->
  map e_id (List.filter f (map g l)) = map e_id (List.filter f l).
Proof.
  induction l as [|e l IH]; intros Hg; [reflexivity |].
  cbn [map List.filter].
  destruct (Hg e (or_introl eq_refl)) as [-> Hid].
  assert (IH' := IH (fun e' He' => Hg e' (or_intror He'))).
  destruct (f e); cbn [map]; now rewrite ?Hid, IH'.
Qed.

Lemma ids_update (z : Zone) (t t' : string) (e0 : Entry) (more : list Entry) :
  NoDup (map e_id (entries z)) ->
  List.filter (selects canon (upsertFilter r t)) (entries z) = e0 :: more ->
  ids t' {| entries := updated z (e_id e0) t; created := created z |}
  = ids t' z.
Proof.
  intros Hnd Hsel.
  assert (He0 : In e0 (entries z) /\ selects canon (upsertFilter r t) e0 = true).
  { apply filter_In. rewrite Hsel. now left. }
  destruct He0 as [Hin Hsel0].
  unfold matchIDs. cbn [entries]. apply filter_map_ids.
  intros e He. destruct (String.eqb_spec (e_id e) (e_id e0)) as [Heq | Hne];
    [| now split].
  rewrite (NoDup_map_eq e_id _ e e0 Hnd He Hin Heq).
  split; [now apply selects_overwrite | reflexivity].
Qed.

Lemma updated_ids (z : Zone) (id t : string) :
  map e_id (updated z id t) = map e_id (entries z).
Proof.
  rewrite List.map_map. apply List.map_ext. intros e.
  now destruct (String.eqb (e_id e) id).
Qed.

Lemma length_idOf (n : nat) : String.length (idOf n) = S n.
Proof. induction n as [|n IH]; cbn; [reflexivity | now rewrite IH]. Qed.

Lemma wf_create (z : Zone) (t : string) :
  wf z ->
  wf {| entries := entries z ++ [added z t]; created := S (created z) |}.
Proof.
  intros [Hnd Hlen]. split; cbn [entries created].
  - rewrite List.map_app. cbn [map e_id]. apply NoDup_app. split; [exact Hnd |].
    split; [| apply NoDup_singleton].
    intros id Hid Hnew. apply list_elem_of_In in Hid.
    apply list_elem_of_singleton in Hnew. subst id.
    apply in_map_iff in Hid as (e & Heq & He).
    specialize (Hlen e He). rewrite Heq, length_idOf in Hlen. lia.
  - intros e He. apply in_app_iff in He as [He | [<- | []]].
    + specialize (Hlen e He). lia.
    + cbn [e_id]. rewrite length_idOf. lia.
Qed.

Lemma wf_update (z : Zone) (id t : string) :
  wf z -> wf {| entries := updated z id t; created := created z |}.
Proof.
  intros [Hnd Hlen]. split; cbn [entries created].
  - now rewrite updated_ids.
  - intros e He. apply in_map_iff in He as (e' & <- & He').
    specialize (Hlen e' He').
    now destruct (String.eqb (e_id e') id).
Qed.

(** From [z] to [z'] the result of every list of the loop stayed the same or
    went from empty to one entry. *)
Local Abbreviation grows z z' :=
  (forall t', ids t' z' = ids t' z
              \/ (ids t' z = [] /\ exists id, ids t' z' = [id])).

Lemma grows_trans (z z1 z2 : Zone) : grows z z1 -> grows z1 z2 -> grows z z2.
Proof.
  intros H1 H2 t'.
  destruct (H1 t') as [Hsame | (Hnone & id & Hone)],
           (H2 t') as [Hsame' | (Hnone' & id' & Hone')].
  - left. congruence.
  - rewrite Hsame in Hnone'. right. eauto.
  - right. split; [exact Hnone |]. exists id. congruence.
  - congruence.
Qed.

Lemma step_total (t : string) (w : World Zone) :
  wf (remote w) ->
  exists w',
    body t w = (Normal tt, w')
    /\ wf (remote w')
    /\ grows (remote w) (remote w')
    /\ ids t (remote w') <> [].
Proof.
  intros Hwf.
  destruct (List.filter (selects canon (upsertFilter r t)) (entries (remote w)))
    as [|e0 more] eqn:Hsel.
  - assert (Hnone : ids t (remote w) = []).
    { unfold matchIDs. now rewrite Hsel. }
    eexists. split; [apply (step_create t w Hsel) |]. cbn [remote].
    split; [now apply wf_create |]. split.
    + intros t'. rewrite ids_create.
      destruct (String.eqb_spec t' t) as [-> | Hne].
      * right. rewrite Hnone. eauto.
      * left. apply app_nil_r.
    + now rewrite ids_create, String.eqb_refl, Hnone.
  - eexists. split; [apply (step_update t w e0 more Hsel) |]. cbn [remote].
    split; [now apply wf_update |]. split.
    + intros t'. left. now apply (ids_update _ t t' e0 more (proj1 Hwf)).
    + rewrite (ids_update _ t t e0 more (proj1 Hwf) Hsel).
      unfold matchIDs. now rewrite Hsel.
Qed.

(** The first upsert: it completes, and every target it went through is
    matched by an entry afterwards. *)
Lemma first_run (targets : list string) (w : World Zone) :
  wf (remote w) ->
  exists w',
    forEach body targets w = (Normal tt, w')
    /\ wf (remote w')
    /\ grows (remote w) (remote w')
    /\ forall t, In t targets -> ids t (remote w') <> [].
Proof.
  revert w. induction targets as [|t targets IH]; intros w Hwf.
  - exists w. split; [reflexivity |]. split; [exact Hwf |].
    split; [now left | intros t []].
  - destruct (step_total t w Hwf) as (w1 & Hstep & Hwf1 & Hgrow1 & Hfound).
    destruct (IH w1 Hwf1) as (w' & Hrun & Hwf' & Hgrow & Hall).
    exists w'. rewrite forEach_cons, Hstep.
    split; [exact Hrun |]. split; [exact Hwf' |].
    split; [exact (grows_trans _ _ _ Hgrow1 Hgrow) |].
    intros t' [<- | Ht']; [| now apply Hall].
    destruct (Hgrow t) as [-> | (Hnone & _)]; congruence.
Qed.

(** An upsert on a zone where every target is matched already: it
    completes, issues one list and one update of the first matching entry
    per target, and leaves the ids of the zone and the results of the lists
    as they were. *)
Lemma second_run (targets : list string) (w : World Zone) :
  wf (remote w) ->
  (forall t, In t targets -> ids t (remote w) <> []) ->
  exists w',
    forEach body targets w = (Normal tt, w')
    /\ (forall t', ids t' (remote w') = ids t' (remote w))
    /\ map e_id (entries (remote w')) = map e_id (entries (remote w))
    /\ calls w'
       = calls w ++ updatesOnly r (fun t => hd "" (ids t (remote w))) targets.
Proof.
  revert w. induction targets as [|t targets IH]; intros w Hwf Hall.
  - exists w. cbn. now rewrite app_nil_r.
  - destruct (List.filter (selects canon (upsertFilter r t)) (entries (remote w)))
      as [|e0 more] eqn:Hsel.
    { destruct (Hall t (or_introl eq_refl)). unfold matchIDs. now rewrite Hsel. }
    pose proof (step_update t w e0 more Hsel) as Hstep.
    set (w1 := {| remote := {| entries := updated (remote w) (e_id e0) t;
                               created := created (remote w) |};
                  calls := (calls w ++ [CallList (upsertFilter r t)])
                           ++ [CallUpdate (updateOptOf r (e_id e0) t)];
                  logs := logs w ++ ["updated DNS record"] |}) in *.
    assert (Hids : forall t', ids t' (remote w1) = ids t' (remote w)).
    { intros t'. exact (ids_update _ t t' e0 more (proj1 Hwf) Hsel). }
    destruct (IH w1) as (w' & Hrun & Hsame & Hzone & Hcalls).
    { now apply wf_update. }
    { intros t' Ht'. rewrite Hids. apply Hall. now right. }
    exists w'. rewrite forEach_cons, Hstep.
    split; [exact Hrun |].
    split; [intros t'; now rewrite Hsame, Hids |].
    split; [rewrite Hzone; apply updated_ids |].
    rewrite Hcalls. cbn [calls w1 updatesOnly flat_map].
    assert (Hhd : hd "" (ids t (remote w)) = e_id e0).
    { unfold matchIDs. now rewrite Hsel. }
    rewrite Hhd, <- !app_assoc. cbn [app]. do 3 f_equal.
    apply flat_map_ext. intros t'. now rewrite Hids.
Qed.

End Idempotence.

Lemma normalized_idem (record : DNSRecord) :
  normalized (normalized record) = normalized record.
Proof.
  unfold normalized.
  destruct (ttlOutOfRange (RecordTTL (Spec record))) eqn:Hout; [reflexivity |].
  now rewrite Hout.
Qed.

Lemma validate_normalized (record : DNSRecord) (zone : DNSZone) :
  validateInputDNSData (Some (normalized record)) zone
  = validateInputDNSData (Some record) zone.
Proof.
  unfold normalized.
  now destruct (ttlOutOfRange (RecordTTL (Spec record))).
Qed.

Lemma upsertFilter_normalized (record : DNSRecord) (t : string) :
  upsertFilter (normalized record) t = upsertFilter record t.
Proof. unfold upsertFilter. now rewrite upsertListOpt_normalized. Qed.

(** C8, as the code has it, on a zone held in memory whose service matches
    the desired name with its trailing-dot-stripped form. For a valid record
    and a registered zone that holds at most one entry matching each target,
    two [Ensure] calls in a row both return no error; after each of them
    exactly one entry matches each target, the same one; the second call
    issues no create: for every target it lists and updates the entry the
    first call left, and the ids in the zone are as the first call left
    them. *)
Theorem Ensure_twice_updates_in_place (canon : string -> string)
  (p : Provider MemStore.Zone) (record : DNSRecord) (zone : DNSZone)
  (z0 : MemStore.Zone) :
  validateInputDNSData (Some record) zone = None ->
  dnsServices p !! ID zone = Some z0 ->
  MemStore.wf z0 ->
  canon (TrimSuffix (DNSName (Spec record)) ".") = canon (DNSName (Spec record)) ->
  (forall t, In t (Targets (Spec record)) ->
             (length (MemStore.matchIDs canon (upsertFilter record t) z0) <= 1)%nat) ->
  let first := Ensure (H := MemStore.client canon) p (Some record) zone in
  let second :=
    Ensure (H := MemStore.client canon) (providerAfter first)
      (recordAfter first) zone in
  exit first = Returned None
  /\ exit second = Returned None
  /\ exists z1 z2,
       dnsServices (providerAfter first) !! ID zone = Some z1
       /\ dnsServices (providerAfter second) !! ID zone = Some z2
       /\ (forall t, In t (Targets (Spec record)) ->
             exists id,
               MemStore.matchIDs canon (upsertFilter record t) z1 = [id]
               /\ MemStore.matchIDs canon (upsertFilter record t) z2 = [id])
       /\ map MemStore.e_id (MemStore.entries z2)
          = map MemStore.e_id (MemStore.entries z1)
       /\ trace second
          = updatesOnly (normalized record)
              (fun t => hd "" (MemStore.matchIDs canon (upsertFilter record t) z1))
              (Targets (Spec record)).
Proof.
  intros Hv Hz Hwf Hcanon Hone first second. subst first second.
  unfold Ensure.
  destruct (normalized_fields record) as (Hname & Htype & Htargets).
  assert (Hcanon' : canon (TrimSuffix (DNSName (Spec (normalized record))) ".")
                    = canon (DNSName (Spec (normalized record)))).
  { now rewrite Hname. }
  destruct (first_run canon (normalized record) Hcanon'
              (Targets (Spec (normalized record))) (upsertStart record z0) Hwf)
    as (w1 & Hrun1 & Hwf1 & Hgrow & Hall1).
  pose (p1 := {| dnsServices := <[ID zone := remote w1]> (dnsServices p) |}).
  assert (Hfirst : createOrUpdateDNSRecord (H := MemStore.client canon)
                     p (Some record) zone
                   = {| exit := Returned None;
                        recordAfter := Some (normalized record);
                        providerAfter := p1; trace := calls w1;
                        journal := logs w1 |}).
  { rewrite (createOrUpdate_run (H := MemStore.client canon) _ _ _ _ Hv Hz).
    now rewrite Hrun1. }
  rewrite Hfirst. cbn [recordAfter providerAfter exit].
  assert (Hz1 : dnsServices p1 !! ID zone = Some (remote w1)).
  { apply lookup_insert_eq. }
  destruct (second_run canon (normalized record) Hcanon'
              (Targets (Spec (normalized record)))
              (upsertStart (normalized record) (remote w1)) Hwf1 Hall1)
    as (w2 & Hrun2 & Hsame & Hzone & Hcalls).
  assert (Hsecond : createOrUpdateDNSRecord (H := MemStore.client canon)
                      p1 (Some (normalized record)) zone
                    = {| exit := Returned None;
                         recordAfter := Some (normalized record);
                         providerAfter :=
                           {| dnsServices := <[ID zone := remote w2]> (dnsServices p1) |};
                         trace := calls w2; journal := logs w2 |}).
  { rewrite (createOrUpdate_run (H := MemStore.client canon) _ _ _ (remote w1)
               (eq_trans (validate_normalized record zone) Hv) Hz1).
    rewrite normalized_idem. now rewrite Hrun2. }
  rewrite Hsecond. cbn [recordAfter providerAfter exit trace].
  split; [reflexivity |]. split; [reflexivity |].
  exists (remote w1), (remote w2).
  split; [exact Hz1 |].
  split; [apply lookup_insert_eq |].
  cbn [upsertStart remote calls] in *. rewrite Htargets in *.
  split; [| split; [exact Hzone |]].
  - intros t Ht.
    specialize (Hone t Ht). specialize (Hall1 t Ht).
    specialize (Hgrow t). specialize (Hsame t).
    rewrite upsertFilter_normalized in *. rewrite Hsame.
    destruct Hgrow as [Hkept | (_ & id & Hnew)]; [| eauto].
    rewrite Hkept in *.
    destruct (MemStore.matchIDs canon (upsertFilter record t) z0)
      as [|id [|id' more]]; [congruence | eauto | cbn in Hone; lia].
  - rewrite Hcalls. cbn [app]. unfold updatesOnly.
    apply flat_map_ext. intros t. now rewrite upsertFilter_normalized.
Qed.

(** C8, as stated, fails in two ways. On a zone that already holds two
    entries for the target, two [Ensure] calls leave both of them. On an
    empty zone whose service compares names exactly, a name with a trailing
    dot is created again by the second call, which leaves two entries per
    target. *)
Lemma Ensure_twice_can_leave_duplicates :
  let first :=
    Ensure (H := MemStore.client Examples.exactly)
      (Examples.stored Examples.duplicated) (Some Examples.api) Examples.zone1 in
  let second :=
    Ensure (H := MemStore.client Examples.exactly) (providerAfter first)
      (recordAfter first) Examples.zone1 in
  let first' :=
    Ensure (H := MemStore.client Examples.exactly)
      (Examples.stored Examples.emptyZone) (Some (Examples.wildcard 300))
      Examples.zone1 in
  let second' :=
    Ensure (H := MemStore.client Examples.exactly) (providerAfter first')
      (recordAfter first') Examples.zone1 in
  (exit first = Returned None
   /\ exit second = Returned None
   /\ (MemStore.matchIDs Examples.exactly (upsertFilter Examples.api "1.2.3.4")
         <$> dnsServices (providerAfter second) !! "zone1")
      = Some ["r"; "ir"])
  /\ (exit first' = Returned None
      /\ exit second' = Returned None
      /\ trace second'
         = [CallList (upsertFilter (Examples.wildcard 300) "1.2.3.4");
            CallCreate (createOptOf (Examples.wildcard 300) "1.2.3.4");
            CallList (upsertFilter (Examples.wildcard 300) "5.6.7.8");
            CallCreate (createOptOf (Examples.wildcard 300) "5.6.7.8")]
      /\ (map MemStore.e_content <$>
            (MemStore.entries <$> dnsServices (providerAfter second') !! "zone1"))
         = Some ["1.2.3.4"; "5.6.7.8"; "1.2.3.4"; "5.6.7.8"]).
Proof.
  cbv zeta. repeat split; vm_compute; reflexivity.
Qed.

Lemma Ensure_twice_updates_in_place_witness :
  let first :=
    Ensure (H := MemStore.client Examples.dotless)
      (Examples.stored Examples.emptyZone) (Some (Examples.wildcard 50))
      Examples.zone1 in
  let second :=
    Ensure (H := MemStore.client Examples.dotless) (providerAfter first)
      (recordAfter first) Examples.zone1 in
  exit first = Returned None
  /\ exit second = Returned None
  /\ exists z1 z2,
       dnsServices (providerAfter first) !! "zone1" = Some z1
       /\ dnsServices (providerAfter second) !! "zone1" = Some z2
       /\ (forall t, In t ["1.2.3.4"; "5.6.7.8"] ->
             exists id,
               MemStore.matchIDs Examples.dotless
                 (upsertFilter (Examples.wildcard 50) t) z1 = [id]
               /\ MemStore.matchIDs Examples.dotless
                    (upsertFilter (Examples.wildcard 50) t) z2 = [id])
       /\ map MemStore.e_id (MemStore.entries z2)
          = map MemStore.e_id (MemStore.entries z1)
       /\ trace second
          = updatesOnly (normalized (Examples.wildcard 50))
              (fun t => hd "" (MemStore.matchIDs Examples.dotless
                                 (upsertFilter (Examples.wildcard 50) t) z1))
              ["1.2.3.4"; "5.6.7.8"].
Proof.
  apply (Ensure_twice_updates_in_place Examples.dotless
           (Examples.stored Examples.emptyZone) (Examples.wildcard 50)
           Examples.zone1 Examples.emptyZone).
  - reflexivity.
  - reflexivity.
  - split; [constructor | intros e []].
  - reflexivity.
  - intros t _. cbn. lia.
Defined.

(** * Further properties of the provider file *)

(** ** The CIS endpoint *)

Section Endpoint.

Import ibm.

(** X1. [getCISEndpointURL] returns the URL of the first endpoint named
    "cis", whatever comes before it under another name and whatever comes
    after it; it returns the default URL when no endpoint is named "cis". *)
Theorem getCISEndpointURL_first_match (before after : list ServiceEndpoint)
  (ep : ServiceEndpoint) :
  (forall e, In e before -> Name e <> "cis") ->
  (Name ep = "cis" -> getCISEndpointURL (before ++ ep :: after) = URL ep)
  /\ getCISEndpointURL before = "https://api.cis.cloud.ibm.com/".
Proof.
  intros Hbefore.
  induction before as [|e before IH]; cbn [getCISEndpointURL app].
  - split; [| reflexivity]. intros ->. reflexivity.
  - destruct (String.eqb_spec (Name e) CISCustomEndpointName) as [Heq | Hne].
    + destruct (Hbefore e (or_introl eq_refl) Heq).
    + apply IH. intros e' He'. apply Hbefore. now right.
Qed.

End Endpoint.

Lemma getCISEndpointURL_first_match_witness :
  ibm.getCISEndpointURL
    ([ {| ibm.Name := "iam"; ibm.URL := "https://iam.test" |} ]
     ++ {| ibm.Name := "cis"; ibm.URL := "https://cis.test" |}
        :: [ {| ibm.Name := "cis"; ibm.URL := "https://other.test" |} ])
  = "https://cis.test".
Proof.
  apply (getCISEndpointURL_first_match
           [ {| ibm.Name := "iam"; ibm.URL := "https://iam.test" |} ]
           [ {| ibm.Name := "cis"; ibm.URL := "https://other.test" |} ]
           {| ibm.Name := "cis"; ibm.URL := "https://cis.test" |}).
  - intros e [<- | []]. discriminate.
  - reflexivity.
Defined.

(** ** Failures without a response, and failures of writes *)

Section Edges.

Context {St : Type} `{DnsClient St}.

Lemma upsertTarget_unanswered (record : DNSRecord)
  (listOpt : ListAllDnsRecordsOptions) (t : string) (w : World St) :
  isUnanswered (fst (ListAllDnsRecords (list_SetContent t listOpt) (remote w))) ->
  upsertTarget record listOpt t w
  = (Normal tt,
     called (CallList (list_SetContent t listOpt))
       (snd (ListAllDnsRecords (list_SetContent t listOpt) (remote w))) w).
Proof.
  unfold upsertTarget, bind, invoke.
  destruct (ListAllDnsRecords _ _) as [[[result [response|]] [err|]] st];
    cbn [fst snd isUnanswered]; intros Hr; now destruct Hr.
Qed.

Lemma deleteTarget_unanswered (opt : ListAllDnsRecordsOptions) (t : string)
  (w : World St) :
  isUnanswered (fst (ListAllDnsRecords (list_SetContent t opt) (remote w))) ->
  deleteTarget opt t w
  = (Normal tt,
     called (CallList (list_SetContent t opt))
       (snd (ListAllDnsRecords (list_SetContent t opt) (remote w))) w).
Proof.
  unfold deleteTarget, bind, invoke.
  destruct (ListAllDnsRecords _ _) as [[[result [response|]] [err|]] st];
    cbn [fst snd isUnanswered]; intros Hr; now destruct Hr.
Qed.

(** X2. A list call that fails without any response (the client returns an
    error and a nil response) is not reported: the upsert loop and the
    delete loop go on with the next target. So when every list call fails
    that way, [Ensure], [Replace] and [Delete] return no error, having
    issued nothing but the list calls. *)
Theorem unanswered_list_failure_is_swallowed (p : Provider St)
  (record : DNSRecord) (zone : DNSZone) (dnsService : St) :
  validateInputDNSData (Some record) zone = None ->
  dnsServices p !! ID zone = Some dnsService ->
  (everyListReply isUnanswered (upsertListOpt record) (Targets (Spec record))
     dnsService ->
   exit (Ensure p (Some record) zone) = Returned None
   /\ exit (Replace p (Some record) zone) = Returned None
   /\ trace (Ensure p (Some record) zone)
      = listCalls (upsertListOpt record) (Targets (Spec record)))
  /\ (everyListReply isUnanswered (deleteListOpt record) (Targets (Spec record))
        dnsService ->
      exit (Delete p (Some record) zone) = Returned None
      /\ trace (Delete p (Some record) zone)
         = listCalls (deleteListOpt record) (Targets (Spec record))).
Proof.
  intros Hv Hz. split; intros Hall.
  - unfold Ensure, Replace. rewrite (createOrUpdate_run _ _ _ _ Hv Hz).
    rewrite upsertListOpt_normalized.
    destruct (normalized_fields record) as (_ & _ & ->).
    destruct (forEach_only_lists isUnanswered
                (upsertTarget (normalized record) (upsertListOpt record))
                (upsertListOpt record)
                (fun t w => upsertTarget_unanswered _ _ t w)
                (Targets (Spec record)) (upsertStart record dnsService) Hall)
      as [Hexit Hcalls].
    unfold finish. cbn [exit trace]. rewrite Hexit, Hcalls. auto.
  - rewrite (Delete_run _ _ _ _ Hv Hz).
    destruct (forEach_only_lists isUnanswered
                (deleteTarget (deleteListOpt record)) (deleteListOpt record)
                (fun t w => deleteTarget_unanswered _ t w)
                (Targets (Spec record)) (deleteStart dnsService) Hall)
      as [Hexit Hcalls].
    unfold finish. cbn [exit trace]. rewrite Hexit, Hcalls. auto.
Qed.

(** X3. A failing create or update ends the upsert loop whatever its
    response is (a 404, another status, or none at all): after a list that
    found nothing, an error from create is returned wrapped as "failed to
    create", and after a list that found an entry with an id, an error from
    update is returned wrapped as "failed to update"; the remaining targets
    are not touched. *)
Theorem write_failure_is_always_returned (record : DNSRecord)
  (listOpt : ListAllDnsRecordsOptions) (t : string) (rest : list string)
  (w : World St) (response response' : option DetailedResponse)
  (err : error) (st st' : St) :
  let listed := called (CallList (list_SetContent t listOpt)) st w in
  (ListAllDnsRecords (list_SetContent t listOpt) (remote w)
   = ((Some {| Result := Some [] |}, response, None), st) ->
   CreateDnsRecord (createOptOf record t) st = ((response', Some err), st') ->
   forEach (upsertTarget record listOpt) (t :: rest) w
   = (Return (Wrapf "createOrUpdateDNSRecord: failed to create the dns record: " err),
      called (CallCreate (createOptOf record t)) st' listed))
  /\ (forall first more id,
         ListAllDnsRecords (list_SetContent t listOpt) (remote w)
         = ((Some {| Result := Some (first :: more) |}, response, None), st) ->
         rd_ID first = Some id ->
         UpdateDnsRecord (updateOptOf record id t) st = ((response', Some err), st') ->
         forEach (upsertTarget record listOpt) (t :: rest) w
         = (Return (Wrapf "createOrUpdateDNSRecord: failed to update the dns record: " err),
            called (CallUpdate (updateOptOf record id t)) st' listed)).
Proof.
  intros listed. split.
  - intros Hlist Hcreate. rewrite forEach_cons.
    unfold upsertTarget, bind, invoke. rewrite Hlist. cbn [Result remote].
    fold (createOptOf record t). rewrite Hcreate. reflexivity.
  - intros first more id Hlist Hid Hupdate. rewrite forEach_cons.
    unfold upsertTarget, bind, invoke. rewrite Hlist. cbn [Result remote].
    rewrite Hid. unfold updateOptOf in Hupdate. cbn [remote] in *.
    rewrite Hupdate. reflexivity.
Qed.

(** X4. [Ensure] and [Replace] never issue a delete call, and [Delete]
    never issues a create or an update call, on any input. *)
Theorem operations_keep_to_their_calls (p : Provider St)
  (record : option DNSRecord) (zone : DNSZone) :
  Forall notADelete (trace (Ensure p record zone))
  /\ Forall notADelete (trace (Replace p record zone))
  /\ Forall notAWrite (trace (Delete p record zone)).
Proof.
  unfold Ensure, Replace. destruct record as [record|].
  - assert (Hupsert : Forall notADelete
                        (trace (createOrUpdateDNSRecord p (Some record) zone))).
    { eapply List.Forall_impl; [| apply createOrUpdate_trace].
      intros [o | o | o | o]; cbn; tauto. }
    split; [exact Hupsert |]. split; [exact Hupsert |].
    eapply List.Forall_impl; [| apply Delete_trace].
    intros [o | o | o | o]; cbn; tauto.
  - destruct (createOrUpdate_gated p None zone) as [e ->];
      [apply gated_invalid, validate_nil_record |].
    destruct (Delete_gated p None zone) as [e' ->];
      [apply gated_invalid, validate_nil_record |].
    repeat split; constructor.
Qed.

End Edges.

Lemma unanswered_list_failure_is_swallowed_witness :
  exit (Ensure (Examples.scripted []) (Some (Examples.wildcard 300))
          Examples.zone1)
  = Returned None
  /\ trace (Ensure (Examples.scripted []) (Some (Examples.wildcard 300))
              Examples.zone1)
     = listCalls (upsertListOpt (Examples.wildcard 300)) ["1.2.3.4"; "5.6.7.8"].
Proof.
  assert (Hall := proj1 (unanswered_list_failure_is_swallowed
                           (Examples.scripted []) (Examples.wildcard 300)
                           Examples.zone1 [] eq_refl eq_refl)).
  destruct Hall as (Hexit & _ & Htrace); [cbn; auto |].
  split; [exact Hexit | exact Htrace].
Defined.

Lemma write_failure_is_always_returned_witness :
  forEach (upsertTarget (Examples.wildcard 300) (upsertListOpt (Examples.wildcard 300)))
    ["1.2.3.4"; "5.6.7.8"]
    {| remote := [Scripted.listed []; Scripted.callFails 404];
       calls := []; logs := [] |}
  = (Return (Wrapf "createOrUpdateDNSRecord: failed to create the dns record: "
               (Errorf "call failed")),
     {| remote := [];
        calls := [CallList (upsertFilter (Examples.wildcard 300) "1.2.3.4");
                  CallCreate (createOptOf (Examples.wildcard 300) "1.2.3.4")];
        logs := [] |}).
Proof.
  apply (write_failure_is_always_returned (Examples.wildcard 300)
           (upsertListOpt (Examples.wildcard 300)) "1.2.3.4" ["5.6.7.8"]
           {| remote := [Scripted.listed []; Scripted.callFails 404];
              calls := []; logs := [] |}
           (Scripted.status 200) (Scripted.status 404) (Errorf "call failed")
           [Scripted.callFails 404] []).
  - reflexivity.
  - reflexivity.
Defined.

(** ** [Delete] on a zone held in memory *)

Section DeleteOnStore.

Import MemStore.

Variable canon : string -> string.

Local Abbreviation deleteEntryOn := (deleteEntry (H := client canon)).
Local Abbreviation deleteTargetOn := (deleteTarget (H := client canon)).

Lemma filter_keeps_all {A : Type} (f : A -> bool) (l : list A) :
  (forall x, In x l -> f x = true) -> List.filter f l = l.
Proof.
  induction l as [|x l IH]; intros Hall; [reflexivity |]. cbn [List.filter].
  rewrite (Hall x (or_introl eq_refl)), IH; [reflexivity |].
  intros y Hy. apply Hall. now right.
Qed.

Lemma has_false (id : string) (z : Zone) :
  has id z = false ->
  List.filter (fun e => negb (String.eqb (e_id e) id)) (entries z) = entries z.
Proof.
  intros Hno. apply filter_keeps_all. intros e He.
  destruct (String.eqb (e_id e) id) eqn:Heq; [| reflexivity].
  assert (Hhas : has id z = true).
  { apply existsb_exists. now exists e. }
  congruence.
Qed.

(** Deleting one listed entry leaves the zone without the entries of that
    id, and reports no failure, whether the id was there or not. *)
Lemma deleteEntry_on_store (e : Entry) (w : World Zone) :
  exists w',
    deleteEntryOn (details e) w = (Normal tt, w')
    /\ entries (remote w')
       = List.filter (fun e' => negb (String.eqb (e_id e') (e_id e)))
           (entries (remote w))
    /\ created (remote w') = created (remote w).
Proof.
  unfold deleteEntry, bind, invoke. cbn [details rd_ID DeleteDnsRecord client].
  unfold deleteOne. cbn [NewDeleteDnsRecordOptions do_DnsrecordIdentifier].
  destruct (has (e_id e) (remote w)) eqn:Hhas; cbn.
  - eexists. split; [reflexivity |]. now split.
  - eexists. split; [reflexivity |]. cbn. split; [| reflexivity].
    symmetry. now apply has_false.
Qed.

Lemma filter_filter_andb {A : Type} (f g : A -> bool) (l : list A) :
  List.filter g (List.filter f l) = List.filter (fun x => f x && g x) l.
Proof.
  induction l as [|x l IH]; [reflexivity |]. cbn [List.filter].
  destruct (f x); cbn [List.filter andb]; [| exact IH].
  destruct (g x); now rewrite IH.
Qed.

Lemma deleteEntries_on_store (es : list Entry) (w : World Zone) :
  exists w',
    forEach deleteEntryOn (map details es) w = (Normal tt, w')
    /\ entries (remote w')
       = List.filter
           (fun e' => negb (existsb (String.eqb (e_id e')) (map e_id es)))
           (entries (remote w))
    /\ created (remote w') = created (remote w).
Proof.
  revert w. induction es as [|e es IH]; intros w.
  - exists w. split; [reflexivity |]. split; [| reflexivity].
    symmetry. now apply filter_keeps_all.
  - destruct (deleteEntry_on_store e w) as (w1 & Hstep & Hent1 & Hcre1).
    destruct (IH w1) as (w' & Hrun & Hent & Hcre).
    exists w'. cbn [map]. rewrite forEach_cons, Hstep.
    split; [exact Hrun |]. split; [| congruence].
    rewrite Hent, Hent1, filter_filter_andb.
    apply List.filter_ext. intros e'. cbn [map existsb].
    now rewrite negb_orb.
Qed.

Lemma listed_ids (f : Entry -> bool) (l : list Entry) :
  NoDup (map e_id l) ->
  List.filter
    (fun e => negb (existsb (String.eqb (e_id e)) (map e_id (List.filter f l)))) l
  = List.filter (fun e => negb (f e)) l.
Proof.
  intros Hnd. apply List.filter_ext_in. intros e He. f_equal.
  destruct (f e) eqn:Hfe.
  - apply existsb_exists. exists (e_id e).
    split; [| apply String.eqb_refl].
    apply in_map, filter_In. now split.
  - destruct (existsb _ _) eqn:Hex; [| reflexivity].
    apply existsb_exists in Hex as (id & Hid & Heq).
    apply String.eqb_eq in Heq. subst id.
    apply in_map_iff in Hid as (e' & Hsame & He').
    apply filter_In in He' as [He' Hfe'].
    rewrite (NoDup_map_eq e_id l e' e Hnd He' He Hsame) in Hfe'. congruence.
Qed.

Lemma NoDup_filter_ids (f : Entry -> bool) (l : list Entry) :
  NoDup (map e_id l) -> NoDup (map e_id (List.filter f l)).
Proof.
  induction l as [|e l IH]; cbn [map List.filter]; intros Hnd; [exact Hnd |].
  apply NoDup_cons in Hnd as [Hnew Hnd].
  destruct (f e); cbn [map]; [| now apply IH].
  apply NoDup_cons. split; [| now apply IH].
  intros Hin. apply Hnew.
  apply list_elem_of_In in Hin. apply list_elem_of_In.
  apply in_map_iff in Hin as (e' & Hsame & He').
  apply filter_In in He' as [He' _]. rewrite <- Hsame. now apply in_map.
Qed.

(** One step of the delete loop removes the entries its list returned. *)
Lemma deleteTarget_on_store (opt : ListAllDnsRecordsOptions) (t : string)
  (w : World Zone) :
  NoDup (map e_id (entries (remote w))) ->
  exists w',
    deleteTargetOn opt t w = (Normal tt, w')
    /\ entries (remote w')
       = List.filter (fun e => negb (selects canon (list_SetContent t opt) e))
           (entries (remote w))
    /\ created (remote w') = created (remote w).
Proof.
  intros Hnd. unfold deleteTarget, bind, invoke.
  cbn [ListAllDnsRecords client listAll Result].
  destruct (deleteEntries_on_store
              (List.filter (selects canon (list_SetContent t opt))
                 (entries (remote w)))
              {| remote := remote w;
                 calls := calls w ++ [CallList (list_SetContent t opt)];
                 logs := logs w |})
    as (w' & Hrun & Hent & Hcre).
  exists w'. split; [exact Hrun |]. split; [| exact Hcre].
  rewrite Hent. cbn [remote]. now apply listed_ids.
Qed.

Lemma deleteTargets_on_store (opt : ListAllDnsRecordsOptions)
  (targets : list string) (w : World Zone) :
  NoDup (map e_id (entries (remote w))) ->
  exists w',
    forEach (deleteTargetOn opt) targets w = (Normal tt, w')
    /\ entries (remote w')
       = List.filter
           (fun e => negb (existsb (fun t => selects canon (list_SetContent t opt) e)
                             targets))
           (entries (remote w))
    /\ created (remote w') = created (remote w).
Proof.
  revert w. induction targets as [|t targets IH]; intros w Hnd.
  - exists w. split; [reflexivity |]. split; [| reflexivity].
    symmetry. now apply filter_keeps_all.
  - destruct (deleteTarget_on_store opt t w Hnd) as (w1 & Hstep & Hent1 & Hcre1).
    destruct (IH w1) as (w' & Hrun & Hent & Hcre).
    { rewrite Hent1. now apply NoDup_filter_ids. }
    exists w'. rewrite forEach_cons, Hstep.
    split; [exact Hrun |]. split; [| congruence].
    rewrite Hent, Hent1, filter_filter_andb.
    apply List.filter_ext. intros e. cbn [existsb]. now rewrite negb_orb.
Qed.

(** [Delete] on a zone with distinct ids: no error, and the zone without
    the entries the loop lists. *)
Lemma Delete_on_store (p : Provider Zone) (record : DNSRecord)
  (zone : DNSZone) (z0 : Zone) :
  validateInputDNSData (Some record) zone = None ->
  dnsServices p !! ID zone = Some z0 ->
  NoDup (map e_id (entries z0)) ->
  exit (Delete (H := client canon) p (Some record) zone) = Returned None
  /\ exists z1,
       dnsServices (providerAfter (Delete (H := client canon) p (Some record) zone))
         !! ID zone = Some z1
       /\ entries z1
          = List.filter
              (fun e => negb (targeted canon record (Targets (Spec record)) e))
              (entries z0)
       /\ created z1 = created z0.
Proof.
  intros Hv Hz Hnd. rewrite (Delete_run (H := client canon) _ _ _ _ Hv Hz).
  destruct (deleteTargets_on_store (deleteListOpt record) (Targets (Spec record))
              (deleteStart z0) Hnd) as (w' & Hrun & Hent & Hcre).
  rewrite Hrun. unfold finish. cbn [fst snd exit providerAfter dnsServices].
  split; [reflexivity |]. exists (remote w').
  split; [apply lookup_insert_eq |]. now split.
Qed.

(** X5. On a zone held in memory whose ids are distinct, [Delete] of a
    valid record in a registered zone returns no error and removes exactly
    the entries that its list calls return for one of the targets: every
    other entry stays, in the same order. *)
Theorem Delete_removes_exactly_the_listed_entries (p : Provider Zone)
  (record : DNSRecord) (zone : DNSZone) (z0 : Zone) :
  validateInputDNSData (Some record) zone = None ->
  dnsServices p !! ID zone = Some z0 ->
  NoDup (map e_id (entries z0)) ->
  exit (Delete (H := client canon) p (Some record) zone) = Returned None
  /\ exists z1,
       dnsServices (providerAfter (Delete (H := client canon) p (Some record) zone))
         !! ID zone = Some z1
       /\ entries z1
          = List.filter
              (fun e => negb (targeted canon record (Targets (Spec record)) e))
              (entries z0)
       /\ created z1 = created z0.
Proof. apply Delete_on_store. Qed.

End DeleteOnStore.

(** ** [Ensure] followed by [Delete] on a zone held in memory *)

Section EnsureThenDelete.

Import MemStore.

Variable canon : string -> string.

Local Abbreviation preserves := (preserves (St := Zone)).

Lemma preserves_ret {A : Type} (I : Zone -> Prop) (a : A) : preserves I (ret a).
Proof. intros w Hw. exact Hw. Qed.

Lemma preserves_returnErr {A : Type} (I : Zone -> Prop) (e : error) :
  preserves I (returnErr (A := A) e).
Proof. intros w Hw. exact Hw. Qed.

Lemma preserves_panic {A : Type} (I : Zone -> Prop) :
  preserves I (panic (A := A)).
Proof. intros w Hw. exact Hw. Qed.

Lemma preserves_logInfo (I : Zone -> Prop) (msg : string) :
  preserves I (logInfo msg).
Proof. intros w Hw. exact Hw. Qed.

Lemma preserves_invoke {O R : Type} (I : Zone -> Prop)
  (method : O -> Zone -> R * Zone) (mk : O -> Call) (opt : O) :
  (forall z, I z -> I (snd (method opt z))) ->
  preserves I (invoke method mk opt).
Proof.
  intros Hm w Hw. unfold invoke. specialize (Hm (remote w) Hw).
  now destruct (method opt (remote w)).
Qed.

Lemma preserves_bind {A B : Type} (I : Zone -> Prop) (m : M A) (k : A -> M B) :
  preserves I m -> (forall a, preserves I (k a)) -> preserves I (bind m k).
Proof.
  intros Hm Hk w Hw. unfold bind. specialize (Hm w Hw).
  destruct (m w) as [[a | e |] w1]; cbn [snd] in *; [now apply Hk | easy | easy].
Qed.

Lemma preserves_forEach {A : Type} (I : Zone -> Prop) (body : A -> M unit)
  (l : list A) :
  (forall x, preserves I (body x)) -> preserves I (forEach body l).
Proof.
  intros Hbody. induction l as [|x l IH]; [apply preserves_ret |].
  apply preserves_bind; auto.
Qed.

Lemma wf_createOne (opt : CreateDnsRecordOptions) (z : Zone) :
  wf z -> wf (snd (createOne opt z)).
Proof.
  intros Hwf. unfold createOne.
  destruct (co_Name opt) as [n|], (co_Type opt) as [t|],
           (co_Content opt) as [c|], (co_TTL opt) as [ttl|];
    cbn [snd]; try exact Hwf.
  destruct Hwf as [Hnd Hlen]. split; cbn [entries created].
  - rewrite List.map_app. cbn [map e_id]. apply NoDup_app. split; [exact Hnd |].
    split; [| apply NoDup_singleton].
    intros id Hid Hnew. apply list_elem_of_In in Hid.
    apply list_elem_of_singleton in Hnew. subst id.
    apply in_map_iff in Hid as (e & Heq & He).
    specialize (Hlen e He). rewrite Heq, length_idOf in Hlen. lia.
  - intros e He. apply in_app_iff in He as [He | [<- | []]].
    + specialize (Hlen e He). lia.
    + cbn [e_id]. rewrite length_idOf. lia.
Qed.

Lemma wf_updateOne (opt : UpdateDnsRecordOptions) (z : Zone) :
  wf z -> wf (snd (updateOne opt z)).
Proof.
  intros Hwf. unfold updateOne.
  destruct (has (uo_DnsrecordIdentifier opt) z); cbn [snd]; [| exact Hwf].
  destruct Hwf as [Hnd Hlen]. split; cbn [entries created].
  - rewrite List.map_map.
    erewrite List.map_ext; [exact Hnd |]. intros e.
    now destruct (String.eqb (e_id e) (uo_DnsrecordIdentifier opt)).
  - intros e He. apply in_map_iff in He as (e' & <- & He').
    specialize (Hlen e' He').
    now destruct (String.eqb (e_id e') (uo_DnsrecordIdentifier opt)).
Qed.

Lemma upsertTarget_preserves_wf (record : DNSRecord)
  (listOpt : ListAllDnsRecordsOptions) (t : string) :
  preserves wf (upsertTarget (H := client canon) record listOpt t).
Proof.
  unfold upsertTarget.
  apply preserves_bind; [apply preserves_invoke; now intros z Hz |].
  intros [[result response] [err|]].
  { destruct (notNilNorNotFound response);
      [apply preserves_returnErr | apply preserves_ret]. }
  destruct result as [[[[|first rest]|]]|]; cbn [Result];
    try apply preserves_returnErr.
  - apply preserves_bind.
    { apply preserves_invoke. intros z Hz. now apply wf_createOne. }
    intros [resp [err|]]; [apply preserves_returnErr | apply preserves_logInfo].
  - destruct (rd_ID first) as [id|]; [| apply preserves_panic].
    apply preserves_bind.
    { apply preserves_invoke. intros z Hz. now apply wf_updateOne. }
    intros [resp [err|]]; [apply preserves_returnErr | apply preserves_logInfo].
Qed.

(** Whatever way [Ensure] ends, it leaves the zone well formed. *)
Lemma Ensure_keeps_wf (p : Provider Zone) (record : DNSRecord)
  (zone : DNSZone) (z0 : Zone) :
  validateInputDNSData (Some record) zone = None ->
  dnsServices p !! ID zone = Some z0 ->
  wf z0 ->
  recordAfter (Ensure (H := client canon) p (Some record) zone)
  = Some (normalized record)
  /\ exists z1,
       dnsServices (providerAfter (Ensure (H := client canon) p (Some record) zone))
         !! ID zone = Some z1
       /\ wf z1.
Proof.
  intros Hv Hz Hwf. unfold Ensure.
  rewrite (createOrUpdate_run (H := client canon) _ _ _ _ Hv Hz).
  unfold finish. cbn [recordAfter providerAfter dnsServices].
  split; [reflexivity |]. eexists. split; [apply lookup_insert_eq |].
  apply (preserves_forEach wf); [| exact Hwf].
  intros t. apply upsertTarget_preserves_wf.
Qed.

Lemma carries_targeted (record : DNSRecord) (e : Entry) :
  carries record e ->
  targeted canon record (Targets (Spec record)) e = true.
Proof.
  intros (Hname & Htype & Hcontent). unfold targeted.
  apply existsb_exists. exists (e_content e). split; [exact Hcontent |].
  unfold selects. cbn. rewrite Hname, Htype, !String.eqb_refl. reflexivity.
Qed.

(** X6. On a well-formed zone held in memory, [Delete] called after
    [Ensure] with the same record and zone returns no error, and afterwards
    the zone holds no entry with the record's name, type and one of its
    targets, whatever way names are compared by the service and whatever
    way [Ensure] ended. *)
Theorem Delete_after_Ensure_leaves_no_entry (p : Provider Zone)
  (record : DNSRecord) (zone : DNSZone) (z0 : Zone) :
  validateInputDNSData (Some record) zone = None ->
  dnsServices p !! ID zone = Some z0 ->
  wf z0 ->
  let upserted := Ensure (H := client canon) p (Some record) zone in
  let removed :=
    Delete (H := client canon) (providerAfter upserted) (recordAfter upserted)
      zone in
  exit removed = Returned None
  /\ exists z2,
       dnsServices (providerAfter removed) !! ID zone = Some z2
       /\ forall e, In e (entries z2) -> ~ carries record e.
Proof.
  intros Hv Hz Hwf upserted removed. subst upserted removed.
  destruct (Ensure_keeps_wf p record zone z0 Hv Hz Hwf)
    as (-> & z1 & Hz1 & [Hnd1 _]).
  destruct (Delete_on_store canon _ (normalized record) zone z1
              (eq_trans (validate_normalized record zone) Hv) Hz1 Hnd1)
    as (Hexit & z2 & Hz2 & Hent & _).
  split; [exact Hexit |]. exists z2. split; [exact Hz2 |].
  intros e He Hcarries. rewrite Hent in He.
  apply filter_In in He as [_ Hkept].
  assert (Hc : carries (normalized record) e).
  { destruct (normalized_fields record) as (Hn & Ht & Hts).
    unfold carries. now rewrite Hn, Ht, Hts. }
  rewrite (carries_targeted _ _ Hc) in Hkept. discriminate.
Qed.

End EnsureThenDelete.

Lemma Delete_removes_exactly_the_listed_entries_witness :
  exit (Delete (H := MemStore.client Examples.exactly)
          (Examples.stored Examples.duplicated) (Some Examples.api)
          Examples.zone1)
  = Returned None
  /\ exists z1,
       dnsServices (providerAfter
                      (Delete (H := MemStore.client Examples.exactly)
                         (Examples.stored Examples.duplicated)
                         (Some Examples.api) Examples.zone1))
         !! "zone1" = Some z1
       /\ MemStore.entries z1
          = List.filter
              (fun e => negb (targeted Examples.exactly Examples.api ["1.2.3.4"] e))
              (MemStore.entries Examples.duplicated)
       /\ MemStore.created z1 = 2%nat.
Proof.
  apply (Delete_removes_exactly_the_listed_entries Examples.exactly
           (Examples.stored Examples.duplicated) Examples.api Examples.zone1
           Examples.duplicated).
  - reflexivity.
  - reflexivity.
  - cbn. apply NoDup_cons. split; [| apply NoDup_singleton].
    intros Hin. apply list_elem_of_singleton in Hin. discriminate.
Defined.

Lemma Delete_after_Ensure_leaves_no_entry_witness :
  let upserted :=
    Ensure (H := MemStore.client Examples.exactly)
      (Examples.stored Examples.emptyZone) (Some (Examples.wildcard 300))
      Examples.zone1 in
  let removed :=
    Delete (H := MemStore.client Examples.exactly) (providerAfter upserted)
      (recordAfter upserted) Examples.zone1 in
  exit removed = Returned None
  /\ exists z2,
       dnsServices (providerAfter removed) !! "zone1" = Some z2
       /\ forall e, In e (MemStore.entries z2) ->
                    ~ carries (Examples.wildcard 300) e.
Proof.
  apply (Delete_after_Ensure_leaves_no_entry Examples.exactly
           (Examples.stored Examples.emptyZone) (Examples.wildcard 300)
           Examples.zone1 Examples.emptyZone).
  - reflexivity.
  - reflexivity.
  - split; [constructor | intros e []].
Defined.

(** * Properties of the router deployment controller *)

(** ** [deploymentConfigChanged] *)

Section ConfigChanged.

Import metav1 types corev1 appsv1 ingressv1alpha1 infrastructure controller
  controller_notions.

Lemma secretName0_firstSecret (d : Deployment) :
  secretName0 d = match firstSecret d with
                  | Some s => Normal s
                  | None => Panic
                  end.
Proof.
  unfold secretName0, firstSecret.
  destruct (Volumes (podOf d)) as [|v vs]; [reflexivity |].
  now destruct (vol_Secret v).
Qed.

Lemma setSecretName0_firstSecret (name : string) (d : Deployment) (s : string) :
  firstSecret d = Some s ->
  exists updated,
    setSecretName0 name d = Normal updated
    /\ firstSecret updated = Some name
    /\ Replicas (d_Spec updated) = Replicas (d_Spec d)
    /\ sameButSecretAndReplicas d updated.
Proof.
  unfold firstSecret, setSecretName0.
  destruct d as [n ns l [r sel [tl [vols cs nsel hn]]]]. cbn.
  destruct vols as [|v vs]; [discriminate |].
  destruct (vol_Secret v) as [sec|]; [| discriminate]. intros _.
  eexists. split; [reflexivity |]. cbn. repeat split.
Qed.

(** The two outcomes of the comparison when both deployments have a secret
    in their first volume and [expected] has replicas. *)
Lemma configChanged_cases (current expected : Deployment)
  (s s' : string) (n : Z) :
  firstSecret current = Some s ->
  firstSecret expected = Some s' ->
  Replicas (d_Spec expected) = Some n ->
  (s = s' /\ Replicas (d_Spec current) = Some n ->
   deploymentConfigChanged current expected = Normal (false, None))
  /\ (~ (s = s' /\ Replicas (d_Spec current) = Some n) ->
      exists updated,
        deploymentConfigChanged current expected = Normal (true, Some updated)
        /\ firstSecret updated = Some s'
        /\ Replicas (d_Spec updated) = Some n
        /\ sameButSecretAndReplicas current updated).
Proof.
  intros Hs Hs' Hn. unfold deploymentConfigChanged.
  rewrite !secretName0_firstSecret, Hs, Hs', Hn. cbn [bindR].
  split.
  - intros [-> ->]. now rewrite String.eqb_refl, Z.eqb_refl.
  - intros Hdiff.
    destruct (setSecretName0_firstSecret s' current s Hs)
      as (updated & Hset & Hfirst & Hrep & Hsame).
    assert (Hnot : (if String.eqb s s'
                    then match Replicas (d_Spec current) with
                         | Some currentReplicas => Normal (currentReplicas =? n)
                         | None => Normal false
                         end
                    else Normal false) = Normal false).
    { destruct (String.eqb_spec s s') as [-> | Hne]; [| reflexivity].
      destruct (Replicas (d_Spec current)) as [m|]; [| reflexivity].
      destruct (Z.eqb_spec m n) as [-> | Hmn]; [| reflexivity].
      destruct Hdiff. now split. }
    rewrite Hnot. cbn [bindR]. rewrite Hset. cbn [bindR].
    eexists. split; [reflexivity |].
    split; [exact Hfirst |]. split; [reflexivity | exact Hsame].
Qed.

(** What a reported change carries. *)
Lemma changed_inv (current expected updated : Deployment) :
  deploymentConfigChanged current expected = Normal (true, Some updated) ->
  exists s s',
    firstSecret current = Some s
    /\ firstSecret expected = Some s'
    /\ firstSecret updated = Some s'
    /\ Replicas (d_Spec updated)
       = Some (default 1 (Replicas (d_Spec expected)))
    /\ sameButSecretAndReplicas current updated.
Proof.
  unfold deploymentConfigChanged. rewrite !secretName0_firstSecret.
  destruct (firstSecret current) as [s|] eqn:Hs; [| discriminate].
  destruct (firstSecret expected) as [s'|] eqn:Hs'; [| discriminate].
  cbn [bindR].
  destruct (setSecretName0_firstSecret s' current s Hs)
    as (upd & Hset & Hfirst & Hrep & Hsame).
  rewrite Hset.
  destruct (if String.eqb s s' then _ else _) as [[|] | e |]; cbn [bindR];
    try discriminate.
  intros [= <-]. exists s, s'. repeat split; try assumption; try apply Hsame.
Qed.

(** X7. When both deployments have a secret in their first volume and the
    expected one has replicas, [deploymentConfigChanged] reports no change
    exactly when the two secret names are equal and the current replicas are
    set and equal to the expected ones. Otherwise it reports a change and
    gives the current deployment with the expected secret name and replicas,
    and nothing else replaced. *)
Theorem deploymentConfigChanged_decides (current expected : Deployment)
  (s s' : string) (n : Z) :
  firstSecret current = Some s ->
  firstSecret expected = Some s' ->
  Replicas (d_Spec expected) = Some n ->
  (s = s' /\ Replicas (d_Spec current) = Some n ->
   deploymentConfigChanged current expected = Normal (false, None))
  /\ (~ (s = s' /\ Replicas (d_Spec current) = Some n) ->
      exists updated,
        deploymentConfigChanged current expected = Normal (true, Some updated)
        /\ firstSecret updated = Some s'
        /\ Replicas (d_Spec updated) = Some n
        /\ sameButSecretAndReplicas current updated).
Proof. exact (configChanged_cases current expected s s' n). Qed.

(** X8. The deployment that [deploymentConfigChanged] gives for an update
    is one it reports as unchanged against the same expected deployment,
    provided the expected deployment has replicas: an update is not asked
    for twice. *)
Theorem update_is_not_repeated (current expected updated : Deployment) :
  Replicas (d_Spec expected) <> None ->
  deploymentConfigChanged current expected = Normal (true, Some updated) ->
  deploymentConfigChanged updated expected = Normal (false, None).
Proof.
  intros Hrep Hchanged.
  destruct (changed_inv _ _ _ Hchanged) as (s & s' & _ & Hs' & Hupd & Hn & _).
  destruct (Replicas (d_Spec expected)) as [n|] eqn:Hexp; [| congruence].
  apply (proj1 (configChanged_cases updated expected s' s' n
                  Hupd Hs' Hexp)).
  now split.
Qed.

(** X9. The expected replicas are read without a nil check in the
    comparison and with one when the update is built. With an expected
    deployment without replicas, the comparison panics when the secret names
    are equal and the current deployment has replicas; otherwise the update
    gets one replica, and comparing that update with the same expected
    deployment panics. *)
Theorem expected_without_replicas (current expected : Deployment)
  (s s' : string) :
  firstSecret current = Some s ->
  firstSecret expected = Some s' ->
  Replicas (d_Spec expected) = None ->
  (s = s' /\ Replicas (d_Spec current) <> None ->
   deploymentConfigChanged current expected = Panic)
  /\ (~ (s = s' /\ Replicas (d_Spec current) <> None) ->
      exists updated,
        deploymentConfigChanged current expected = Normal (true, Some updated)
        /\ Replicas (d_Spec updated) = Some 1
        /\ deploymentConfigChanged updated expected = Panic).
Proof.
  intros Hs Hs' Hnone.
  assert (Hpanic : forall d, firstSecret d = Some s' ->
                             Replicas (d_Spec d) <> None ->
                             deploymentConfigChanged d expected = Panic).
  { intros d Hd Hrep. unfold deploymentConfigChanged.
    rewrite !secretName0_firstSecret, Hd, Hs', Hnone. cbn [bindR].
    rewrite String.eqb_refl.
    now destruct (Replicas (d_Spec d)). }
  split.
  - intros [-> Hrep]. now apply Hpanic.
  - intros Hdiff.
    destruct (setSecretName0_firstSecret s' current s Hs)
      as (upd & Hset & Hfirst & Hrep & Hsame).
    exists (setReplicas (Some 1) upd). split; [| split; [reflexivity |]].
    + unfold deploymentConfigChanged.
      rewrite !secretName0_firstSecret, Hs, Hs', Hnone. cbn [bindR].
      assert (Hnot : (if String.eqb s s'
                      then match Replicas (d_Spec current) with
                           | Some _ => Panic
                           | None => Normal false
                           end
                      else Normal false) = Normal false).
      { destruct (String.eqb_spec s s') as [-> | Hne]; [| reflexivity].
        destruct (Replicas (d_Spec current)) as [m|] eqn:Hm; [| reflexivity].
        destruct Hdiff. split; [reflexivity | discriminate]. }
      rewrite Hnot. cbn [bindR]. rewrite Hset. reflexivity.
    + apply Hpanic; [exact Hfirst | discriminate].
Qed.

(** X10. [deploymentConfigChanged] panics exactly when the first volume of
    one of the two deployments is missing or has no secret, or when the
    secret names are equal and the current deployment has replicas while the
    expected one has none. *)
Theorem deploymentConfigChanged_panics_iff (current expected : Deployment) :
  deploymentConfigChanged current expected = Panic
  <-> (firstSecret current = None
       \/ firstSecret expected = None
       \/ (firstSecret current = firstSecret expected
           /\ Replicas (d_Spec current) <> None
           /\ Replicas (d_Spec expected) = None)).
Proof.
  unfold deploymentConfigChanged. rewrite !secretName0_firstSecret.
  destruct (firstSecret current) as [s|] eqn:Hs; [| cbn; tauto].
  destruct (firstSecret expected) as [s'|] eqn:Hs'; [| cbn; tauto].
  cbn [bindR].
  destruct (setSecretName0_firstSecret s' current s Hs)
    as (upd & -> & _).
  destruct (String.eqb_spec s s') as [-> | Hne].
  - destruct (Replicas (d_Spec current)) as [m|],
             (Replicas (d_Spec expected)) as [n|]; cbn [bindR].
    + destruct (m =? n); split; try discriminate;
        intros [H | [H | (_ & _ & H)]]; discriminate.
    + split; [| reflexivity]. intros _. right. right.
      repeat split. discriminate.
    + split; [discriminate |]. intros [H | [H | (_ & H & _)]]; congruence.
    + split; [discriminate |]. intros [H | [H | (_ & H & _)]]; congruence.
  - cbn [bindR]. split; [discriminate |].
    intros [H | [H | (H & _)]]; congruence.
Qed.

End ConfigChanged.

Lemma deploymentConfigChanged_decides_witness :
  let current := controller_examples.manifest in
  let expected := controller.setReplicas (Some 2) controller_examples.manifest in
  exists updated,
    controller.deploymentConfigChanged current expected
    = Normal (true, Some updated)
    /\ controller_notions.firstSecret updated = Some "router-certs-default"
    /\ appsv1.Replicas (appsv1.d_Spec updated) = Some 2
    /\ controller_notions.sameButSecretAndReplicas current updated.
Proof.
  apply (proj2 (deploymentConfigChanged_decides controller_examples.manifest
                  (controller.setReplicas (Some 2) controller_examples.manifest)
                  "router-certs-default" "router-certs-default" 2
                  eq_refl eq_refl eq_refl)).
  intros [_ Hreplicas]. discriminate Hreplicas.
Defined.

Lemma update_is_not_repeated_witness :
  let current := controller_examples.manifest in
  let expected := controller.setReplicas (Some 2) controller_examples.manifest in
  controller.deploymentConfigChanged current expected
  = Normal (true, Some expected)
  /\ controller.deploymentConfigChanged expected expected = Normal (false, None).
Proof.
  split; [reflexivity |].
  apply (update_is_not_repeated controller_examples.manifest
           (controller.setReplicas (Some 2) controller_examples.manifest)
           (controller.setReplicas (Some 2) controller_examples.manifest)).
  - discriminate.
  - reflexivity.
Defined.

Lemma expected_without_replicas_witness :
  let expected := controller_examples.manifest in
  let current := controller.setReplicas (Some 2) controller_examples.manifest in
  controller.deploymentConfigChanged current expected = Panic.
Proof.
  apply (proj1 (expected_without_replicas
                  (controller.setReplicas (Some 2) controller_examples.manifest)
                  controller_examples.manifest
                  "router-certs-default" "router-certs-default"
                  eq_refl eq_refl eq_refl)).
  split; [reflexivity | discriminate].
Defined.

Lemma deploymentConfigChanged_panics_iff_witness :
  controller.deploymentConfigChanged controller.zeroDeployment
    controller_examples.manifest = Panic.
Proof.
  apply (proj2 (deploymentConfigChanged_panics_iff controller.zeroDeployment
                  controller_examples.manifest)).
  left. reflexivity.
Defined.

(** ** [desiredRouterDeployment] *)

Section DesiredProps.

Import metav1 types corev1 appsv1 ingressv1alpha1 infrastructure controller
  controller_notions.

Context `{Packages}.

Lemma bindR_Normal {A B : Type} (m : Res A) (k : A -> Res B) (b : B) :
  bindR m k = Normal b -> exists a, m = Normal a /\ k a = Normal b.
Proof. destruct m as [a| |]; cbn; [eauto | discriminate ..]. Qed.

Lemma withRouterSelector_Normal (d d' : Deployment) :
  withRouterSelector d = Normal d' ->
  exists sel,
    Selector (d_Spec d) = Some sel
    /\ d' = setSelector
              (Some {| MatchLabels := assign "router" (d_Name d) (MatchLabels sel);
                       MatchExpressions := MatchExpressions sel |}) d.
Proof.
  unfold withRouterSelector.
  destruct (Selector (d_Spec d)) as [sel|]; [| discriminate].
  intros [= <-]. eauto.
Qed.

Lemma onContainer0_Normal (f : Container -> Container) (d d' : Deployment) :
  onContainer0 f d = Normal d' ->
  exists c cs,
    Containers (podOf d) = c :: cs
    /\ d' = overPod (setContainers (f c :: cs)) d.
Proof.
  unfold onContainer0.
  destruct (Containers (podOf d)) as [|c cs]; [discriminate |].
  intros [= <-]. eauto.
Qed.

Lemma withProxyProtocol_Normal (ci : ClusterIngress)
  (infraConfig : option Infrastructure) (env env' : list EnvVar) :
  withProxyProtocol ci infraConfig env = Normal env' ->
  env' = env ++ (if usesProxyProtocol ci infraConfig
                 then [plainEnv "ROUTER_USE_PROXY_PROTOCOL" "true"] else []).
Proof.
  unfold withProxyProtocol, usesProxyProtocol.
  destruct (String.eqb _ CloudClusterIngressHA); cbn [andb].
  - destruct infraConfig as [infra|]; [| discriminate].
    destruct (String.eqb _ AWSPlatform); intros [= <-];
      [reflexivity | now rewrite app_nil_r].
  - intros [= <-]. now rewrite app_nil_r.
Qed.

Lemma withNodeSelector_Normal (ci : ClusterIngress) (d d' : Deployment) :
  withNodeSelector ci d = Normal d' ->
  (requestedNodeSelector ci = None /\ d' = d)
  \/ exists s m,
       requestedNodeSelector ci = Some s
       /\ LabelSelectorAsMap s = (m, None)
       /\ d' = overPod (setNodeSelector m) d.
Proof.
  unfold withNodeSelector, requestedNodeSelector.
  destruct (ci_NodePlacement (ci_Spec ci)) as [placement|];
    [| intros [= <-]; now left].
  destruct (np_NodeSelector placement) as [s|]; [| intros [= <-]; now left].
  destruct (LabelSelectorAsMap s) as [m [err|]] eqn:Hmap; [discriminate |].
  intros [= <-]. right. eauto.
Qed.

Lemma withSelectorEnv_Normal (ci : ClusterIngress) (name field : string)
  (selector : option LabelSelector) (env env' : list EnvVar) :
  withSelectorEnv ci name field selector env = Normal env' ->
  env' = env ++ selectorEnv name selector
  /\ forall s, selector = Some s -> snd (LabelSelectorAsSelector s) = None.
Proof.
  unfold withSelectorEnv, selectorEnv.
  destruct selector as [s|].
  - destruct (LabelSelectorAsSelector s) as [ls [err|]] eqn:Hs; [discriminate |].
    intros [= <-]. split; [reflexivity |]. intros s' [= <-]. now rewrite Hs.
  - intros [= <-]. split; [now rewrite app_nil_r | discriminate].
Qed.

Lemma setProbeHost_Normal (host : string) (probe probe' : option Probe) :
  setProbeHost host probe = Normal probe' ->
  hasHTTPGet probe
  /\ probe' = Some {| HTTPGet := Some {| Host := host |} |}.
Proof.
  unfold setProbeHost, hasHTTPGet.
  destruct probe as [pr|]; [| discriminate].
  destruct (HTTPGet pr) as [action|] eqn:Haction; [| discriminate].
  intros [= <-]. eauto.
Qed.

Lemma withHostNetwork_Normal (ci : ClusterIngress) (d d' : Deployment) :
  withHostNetwork ci d = Normal d' ->
  (isUserDefined ci = false /\ d' = d)
  \/ (isUserDefined ci = true
      /\ exists c cs,
           Containers (podOf d) = c :: cs
           /\ hasHTTPGet (LivenessProbe c)
           /\ hasHTTPGet (ReadinessProbe c)
           /\ d' = overPod (setContainers
                              ({| Env := Env c; Image := Image c;
                                  VolumeMounts := VolumeMounts c;
                                  LivenessProbe := localhostProbe;
                                  ReadinessProbe := localhostProbe |} :: cs))
                     (overPod (setHostNetwork true) d)).
Proof.
  unfold withHostNetwork, isUserDefined.
  destruct (String.eqb _ UserDefinedClusterIngressHA);
    [| intros [= <-]; now left].
  change (Containers (podOf (overPod (setHostNetwork true) d)))
    with (Containers (podOf d)).
  destruct (Containers (podOf d)) as [|c cs]; [discriminate |].
  intros Hd. apply bindR_Normal in Hd as (lp & Hlp & Hd).
  apply bindR_Normal in Hd as (rp & Hrp & Hd).
  apply setProbeHost_Normal in Hlp as [Hl ->].
  apply setProbeHost_Normal in Hrp as [Hr ->].
  injection Hd as <-. right. split; [reflexivity |].
  exists c, cs. auto.
Qed.

Lemma setSecretName0_Normal (name : string) (d d' : Deployment) :
  setSecretName0 name d = Normal d' ->
  exists v vs s,
    Volumes (podOf d) = v :: vs
    /\ vol_Secret v = Some s
    /\ d' = overPod (setVolumes ({| vol_Name := vol_Name v;
                                    vol_Secret := Some {| SecretName := name |} |}
                                 :: vs)) d.
Proof.
  unfold setSecretName0.
  destruct (Volumes (podOf d)) as [|v vs]; [discriminate |].
  destruct (vol_Secret v) as [s|] eqn:Hs; [| discriminate].
  intros [= <-]. eauto 6.
Qed.

Lemma named_fields (ci : ClusterIngress) (base : Deployment) :
  d_Name (named ci base) = "router-" +:+ ci_Name ci
  /\ d_Namespace (named ci base) = "openshift-ingress"
  /\ d_Labels (named ci base)
     = assign OwningClusterIngressLabel (ci_Name ci) (d_Labels base)
  /\ tpl_Labels (Template (d_Spec (named ci base)))
     = assign "router" ("router-" +:+ ci_Name ci)
         (tpl_Labels (Template (d_Spec base)))
  /\ Selector (d_Spec (named ci base)) = Selector (d_Spec base)
  /\ Replicas (d_Spec (named ci base)) = Replicas (d_Spec base)
  /\ podOf (named ci base) = podOf base.
Proof. repeat split. Qed.

(** What a deployment returned by [desiredRouterDeployment] is made of. *)
Lemma desired_facts (ci : ClusterIngress) (img : string)
  (infra : option Infrastructure) (d : Deployment) :
  desiredRouterDeployment ci img infra = Normal d ->
  let base := RouterDeployment ci in
  exists sel c cs c' v vs s,
    Selector (d_Spec base) = Some sel
    /\ Containers (podOf base) = c :: cs
    /\ Volumes (podOf base) ++ [metricsVolume ci] = v :: vs
    /\ vol_Secret v = Some s
    /\ d_Name d = "router-" +:+ ci_Name ci
    /\ d_Namespace d = "openshift-ingress"
    /\ d_Labels d = assign OwningClusterIngressLabel (ci_Name ci) (d_Labels base)
    /\ tpl_Labels (Template (d_Spec d))
       = assign "router" ("router-" +:+ ci_Name ci)
           (tpl_Labels (Template (d_Spec base)))
    /\ Selector (d_Spec d)
       = Some {| MatchLabels := assign "router" ("router-" +:+ ci_Name ci)
                                  (MatchLabels sel);
                 MatchExpressions := MatchExpressions sel |}
    /\ Replicas (d_Spec d) = Some (ci_Replicas (ci_Spec ci))
    /\ Volumes (podOf d)
       = {| vol_Name := vol_Name v;
            vol_Secret := Some {| SecretName := certSecretName ci |} |} :: vs
    /\ Containers (podOf d) = c' :: cs
    /\ Env c' = Env c ++ addedEnv ci infra
    /\ Image c' = img
    /\ VolumeMounts c' = VolumeMounts c ++ [metricsMount]
    /\ (if isUserDefined ci
        then hasHTTPGet (LivenessProbe c) /\ hasHTTPGet (ReadinessProbe c)
             /\ LivenessProbe c' = localhostProbe
             /\ ReadinessProbe c' = localhostProbe
             /\ HostNetwork (podOf d) = true
        else LivenessProbe c' = LivenessProbe c
             /\ ReadinessProbe c' = ReadinessProbe c
             /\ HostNetwork (podOf d) = HostNetwork (podOf base))
    /\ match requestedNodeSelector ci with
       | Some selector =>
           LabelSelectorAsMap selector = (NodeSelector (podOf d), None)
       | None => NodeSelector (podOf d) = NodeSelector (podOf base)
       end.
Proof.
  intros Hd base. unfold desiredRouterDeployment in Hd. cbv zeta in Hd.
  fold base in Hd.
  apply bindR_Normal in Hd as (d1 & Hsel & Hd).
  apply bindR_Normal in Hd as (d2 & Hcerts & Hd).
  apply bindR_Normal in Hd as (env1 & Hproxy & Hd).
  apply bindR_Normal in Hd as (d3 & Hnode & Hd).
  apply bindR_Normal in Hd as (env2 & Hns & Hd).
  apply bindR_Normal in Hd as (env3 & Hroute & Hd).
  apply bindR_Normal in Hd as (d4 & Henv & Hd).
  apply bindR_Normal in Hd as (d5 & Himage & Hd).
  apply bindR_Normal in Hd as (d6 & Hhost & Hd).
  apply bindR_Normal in Hd as (d7 & Hsecret & Hd).
  injection Hd as <-.
  apply withRouterSelector_Normal in Hsel as (sel & Hsel & ->).
  unfold withMetricsCerts in Hcerts.
  apply onContainer0_Normal in Hcerts as (c & cs & Hcs & ->).
  apply withProxyProtocol_Normal in Hproxy as ->.
  apply withSelectorEnv_Normal in Hns as [-> _].
  apply withSelectorEnv_Normal in Hroute as [-> _].
  apply onContainer0_Normal in Henv as (c4 & cs4 & Hcs4 & ->).
  apply onContainer0_Normal in Himage as (c5 & cs5 & Hcs5 & ->).
  apply setSecretName0_Normal in Hsecret as (v & vs & s & Hvs & Hv & ->).
  change (Selector (d_Spec base) = Some sel) in Hsel.
  change (Containers (podOf base) = c :: cs) in Hcs.
  assert (Henvs : ((((statsEnv ci ++ metricsEnv) ++ hostnameEnv ci) ++
                     (if usesProxyProtocol ci infra
                      then [plainEnv "ROUTER_USE_PROXY_PROTOCOL" "true"]
                      else [])) ++
                    selectorEnv "NAMESPACE_LABELS"
                      (ci_NamespaceSelector (ci_Spec ci))) ++
                   selectorEnv "ROUTE_LABELS" (ci_RouteSelector (ci_Spec ci))
                  = addedEnv ci infra).
  { unfold addedEnv. now rewrite <- !app_assoc. }
  rewrite Henvs in *. clear Henvs.
  apply withNodeSelector_Normal in Hnode
    as [[Hreq ->] | (sn & m & Hreq & Hmap & ->)];
    (change (appendMount metricsMount c :: cs = c4 :: cs4) in Hcs4;
     injection Hcs4 as <- <-;
     change (appendEnv (addedEnv ci infra) (appendMount metricsMount c) :: cs
             = c5 :: cs5) in Hcs5;
     injection Hcs5 as <- <-;
     apply withHostNetwork_Normal in Hhost
       as [[Huser ->] | (Huser & c6 & cs6 & Hcs6 & Hlp & Hrp & ->)];
     [| change (setImage img (appendEnv (addedEnv ci infra)
                                (appendMount metricsMount c)) :: cs
                = c6 :: cs6) in Hcs6;
        injection Hcs6 as <- <-];
     change (Volumes (podOf base) ++ [metricsVolume ci] = v :: vs) in Hvs;
     exists sel, c; eexists cs, _, v, vs, s;
     rewrite Hreq, Huser; cbv beta iota;
     repeat split; try eassumption; try reflexivity).
Qed.

Lemma withProxyProtocol_eq (ci : ClusterIngress)
  (infraConfig : option Infrastructure) (env : list EnvVar) :
  (String.eqb (ci_HighAvailabilityType (ci_Status ci)) CloudClusterIngressHA
   = true -> infraConfig <> None) ->
  withProxyProtocol ci infraConfig env
  = Normal (env ++ (if usesProxyProtocol ci infraConfig
                    then [plainEnv "ROUTER_USE_PROXY_PROTOCOL" "true"] else [])).
Proof.
  unfold withProxyProtocol, usesProxyProtocol. intros Hinfra.
  destruct (String.eqb _ CloudClusterIngressHA); cbn [andb];
    [| now rewrite app_nil_r].
  destruct infraConfig as [infra|]; [| now destruct Hinfra].
  destruct (String.eqb _ AWSPlatform); [reflexivity | now rewrite app_nil_r].
Qed.

(** The deployment after the block of the node selector, when the selector
    converts. *)
Lemma withNodeSelector_eq (ci : ClusterIngress) (d : Deployment) :
  match nodeSelectorError ci with
  | Some err =>
      withNodeSelector ci d
      = Return (invalidSelector ci "spec.nodePlacement.nodeSelector" err)
  | None =>
      exists d',
        withNodeSelector ci d = Normal d'
        /\ Containers (podOf d') = Containers (podOf d)
        /\ Volumes (podOf d') = Volumes (podOf d)
  end.
Proof.
  unfold withNodeSelector, nodeSelectorError, requestedNodeSelector.
  destruct (ci_NodePlacement (ci_Spec ci)) as [placement|]; [| eauto].
  destruct (np_NodeSelector placement) as [s|]; [| eauto].
  destruct (LabelSelectorAsMap s) as [m [err|]]; cbn [snd]; eauto.
Qed.

Lemma withSelectorEnv_eq (ci : ClusterIngress) (name field : string)
  (selector : option LabelSelector) (env : list EnvVar) :
  withSelectorEnv ci name field selector env
  = match asSelectorError selector with
    | Some err => Return (invalidSelector ci field err)
    | None => Normal (env ++ selectorEnv name selector)
    end.
Proof.
  unfold withSelectorEnv, asSelectorError, selectorEnv.
  destruct selector as [s|]; [| now rewrite app_nil_r].
  now destruct (LabelSelectorAsSelector s) as [ls [err|]].
Qed.

Lemma setProbeHost_ok (host : string) (probe : option Probe) :
  hasHTTPGet probe ->
  setProbeHost host probe = Normal (Some {| HTTPGet := Some {| Host := host |} |}).
Proof.
  intros (pr & action & -> & Haction). unfold setProbeHost.
  now rewrite Haction.
Qed.

Lemma withHostNetwork_ok (ci : ClusterIngress) (d : Deployment) (c : Container)
  (cs : list Container) :
  Containers (podOf d) = c :: cs ->
  (isUserDefined ci = true ->
   hasHTTPGet (LivenessProbe c) /\ hasHTTPGet (ReadinessProbe c)) ->
  exists d',
    withHostNetwork ci d = Normal d'
    /\ Volumes (podOf d') = Volumes (podOf d).
Proof.
  intros Hcs Hprobes. unfold withHostNetwork.
  fold (isUserDefined ci). destruct (isUserDefined ci); [| eauto].
  destruct Hprobes as [Hl Hr]; [reflexivity |].
  change (Containers (podOf (overPod (setHostNetwork true) d)))
    with (Containers (podOf d)).
  rewrite Hcs, (setProbeHost_ok _ _ Hl), (setProbeHost_ok _ _ Hr).
  cbn [bindR]. eexists. split; reflexivity.
Qed.

(** *** The three outcomes of [desiredRouterDeployment] *)

Local Abbreviation finish ci img env d :=
  (let? deployment :=
     onContainer0 (appendEnv env)
       (setReplicas (Some (ci_Replicas (ci_Spec ci))) d) in
   let? deployment := onContainer0 (setImage img) deployment in
   let? deployment := withHostNetwork ci deployment in
   let? deployment := setSecretName0 (certSecretName ci) deployment in
   Normal deployment).

Lemma withHostNetwork_not_Return (ci : ClusterIngress) (d : Deployment)
  (e : error) :
  withHostNetwork ci d <> Return e.
Proof.
  unfold withHostNetwork. destruct (String.eqb _ _); [| discriminate].
  destruct (Containers _) as [|c cs]; [discriminate |].
  unfold setProbeHost.
  destruct (LivenessProbe c) as [[[a|]]|]; cbn; try discriminate.
  destruct (ReadinessProbe c) as [[[a'|]]|]; cbn; discriminate.
Qed.

Lemma finish_not_Return (ci : ClusterIngress) (img : string)
  (env : list EnvVar) (d : Deployment) (e : error) :
  finish ci img env d <> Return e.
Proof.
  unfold onContainer0.
  change (Containers (podOf (setReplicas (Some (ci_Replicas (ci_Spec ci))) d)))
    with (Containers (podOf d)).
  destruct (Containers (podOf d)) as [|c cs]; [discriminate |].
  cbn [bindR podOf overPod overSpec overTemplate overPodSpec d_Spec Template
         tpl_Spec setContainers Containers].
  destruct (withHostNetwork ci _) as [d6|e'|] eqn:Hhost; cbn [bindR];
    [| now apply withHostNetwork_not_Return in Hhost | discriminate].
  unfold setSecretName0.
  destruct (Volumes (podOf d6)) as [|v vs]; [discriminate |].
  destruct (vol_Secret v); discriminate.
Qed.

Lemma finish_Normal (ci : ClusterIngress) (img : string) (env : list EnvVar)
  (d : Deployment) (c : Container) (cs : list Container) (v : Volume)
  (vs : list Volume) :
  Containers (podOf d) = c :: cs ->
  (isUserDefined ci = true ->
   hasHTTPGet (LivenessProbe c) /\ hasHTTPGet (ReadinessProbe c)) ->
  Volumes (podOf d) = v :: vs ->
  vol_Secret v <> None ->
  exists d', finish ci img env d = Normal d'.
Proof.
  intros Hcs Hprobes Hvs Hv. unfold onContainer0.
  change (Containers (podOf (setReplicas (Some (ci_Replicas (ci_Spec ci))) d)))
    with (Containers (podOf d)).
  rewrite Hcs.
  cbn [bindR podOf overPod overSpec overTemplate overPodSpec d_Spec Template
         tpl_Spec setContainers Containers].
  match goal with
  | |- context [withHostNetwork ci ?d5] =>
      destruct (withHostNetwork_ok ci d5 (setImage img (appendEnv env c)) cs
                  eq_refl Hprobes) as (d6 & -> & Hvs6)
  end.
  cbn [bindR]. unfold setSecretName0.
  cbn [podOf overPod overSpec overTemplate overPodSpec d_Spec Template tpl_Spec
         setContainers Volumes setReplicas] in Hvs6.
  fold (podOf d) in Hvs6. fold (podOf d6) in Hvs6.
  rewrite Hvs6, Hvs.
  destruct (vol_Secret v); [eauto | congruence].
Qed.

(** The run up to the first selector, when nothing dereferenced on the way
    is missing. *)
Lemma desired_unfold (ci : ClusterIngress) (img : string)
  (infra : option Infrastructure) :
  reachesSelectors ci infra ->
  exists c cs d2,
    Containers (podOf (RouterDeployment ci)) = c :: cs
    /\ Containers (podOf d2) = appendMount metricsMount c :: cs
    /\ Volumes (podOf d2)
       = Volumes (podOf (RouterDeployment ci)) ++ [metricsVolume ci]
    /\ desiredRouterDeployment ci img infra
       = (let? d3 := withNodeSelector ci d2 in
          let? env :=
            withSelectorEnv ci "NAMESPACE_LABELS" "spec.namespaceSelector"
              (ci_NamespaceSelector (ci_Spec ci))
              (((statsEnv ci ++ metricsEnv) ++ hostnameEnv ci) ++
               (if usesProxyProtocol ci infra
                then [plainEnv "ROUTER_USE_PROXY_PROTOCOL" "true"] else [])) in
          let? env :=
            withSelectorEnv ci "ROUTE_LABELS" "spec.routeSelector"
              (ci_RouteSelector (ci_Spec ci)) env in
          finish ci img env d3).
Proof.
  intros (Hsel & Hcs & Hinfra).
  unfold desiredRouterDeployment. cbv zeta.
  set (base := RouterDeployment ci) in *.
  destruct (Selector (d_Spec base)) as [sel|] eqn:Hbase; [| congruence].
  destruct (Containers (podOf base)) as [|c cs] eqn:Hbasecs; [congruence |].
  unfold withRouterSelector.
  change (Selector (d_Spec (named ci base))) with (Selector (d_Spec base)).
  rewrite Hbase. cbn [bindR].
  unfold withMetricsCerts. unfold onContainer0 at 1.
  match goal with
  | |- context [Containers (podOf ?d)] =>
      change (Containers (podOf d)) with (Containers (podOf base))
  end.
  rewrite Hbasecs. cbn [bindR].
  rewrite (withProxyProtocol_eq _ _ _ Hinfra). cbn [bindR].
  exists c, cs. eexists. split; [reflexivity |].
  split; [| split; [| reflexivity]]; reflexivity.
Qed.

(** Up to the last selector: the error of the first selector that does not
    convert, or what is left to do. *)
Lemma desired_prefix (ci : ClusterIngress) (img : string)
  (infra : option Infrastructure) :
  reachesSelectors ci infra ->
  match selectorError ci with
  | Some err => desiredRouterDeployment ci img infra = Return err
  | None =>
      exists c cs d3 env,
        Containers (podOf (RouterDeployment ci)) = c :: cs
        /\ Containers (podOf d3) = appendMount metricsMount c :: cs
        /\ Volumes (podOf d3)
           = Volumes (podOf (RouterDeployment ci)) ++ [metricsVolume ci]
        /\ desiredRouterDeployment ci img infra = finish ci img env d3
  end.
Proof.
  intros Hreach.
  destruct (desired_unfold ci img infra Hreach)
    as (c & cs & d2 & Hcs & Hcs2 & Hvs2 & ->).
  unfold selectorError.
  pose proof (withNodeSelector_eq ci d2) as Hnode.
  destruct (nodeSelectorError ci) as [err|].
  { now rewrite Hnode. }
  destruct Hnode as (d3 & -> & Hcs3 & Hvs3). cbn [bindR].
  rewrite Hcs2 in Hcs3. rewrite Hvs2 in Hvs3.
  rewrite withSelectorEnv_eq.
  destruct (asSelectorError (ci_NamespaceSelector (ci_Spec ci))) as [err|];
    [reflexivity |]. cbn [bindR]. rewrite withSelectorEnv_eq.
  destruct (asSelectorError (ci_RouteSelector (ci_Spec ci))) as [err|];
    [reflexivity |]. cbn [bindR].
  exists c, cs, d3. eexists.
  split; [exact Hcs |]. split; [exact Hcs3 |]. split; [exact Hvs3 |].
  reflexivity.
Qed.

Lemma dereferenceable_reaches (ci : ClusterIngress)
  (infra : option Infrastructure) :
  dereferenceable ci infra -> reachesSelectors ci infra.
Proof.
  intros (Hsel & (c & cs & Hcs & _) & _ & Hinfra).
  split; [exact Hsel |]. split; [| exact Hinfra]. rewrite Hcs. discriminate.
Qed.

Lemma desired_succeeds (ci : ClusterIngress) (img : string)
  (infra : option Infrastructure) :
  dereferenceable ci infra -> selectorError ci = None ->
  exists d, desiredRouterDeployment ci img infra = Normal d.
Proof.
  intros Hderef Hnone.
  pose proof (desired_prefix ci img infra (dereferenceable_reaches _ _ Hderef))
    as Hprefix.
  rewrite Hnone in Hprefix.
  destruct Hprefix as (c & cs & d3 & env & Hcs & Hcs3 & Hvs3 & ->).
  destruct Hderef as (_ & (c0 & cs0 & Hcs0 & Hprobes) & Hvol & _).
  rewrite Hcs in Hcs0. injection Hcs0 as <- <-.
  destruct (Volumes (podOf (RouterDeployment ci))) as [|v vs] eqn:Hvols.
  - apply (finish_Normal ci img env d3 _ cs (metricsVolume ci) [] Hcs3 Hprobes
             Hvs3). discriminate.
  - apply (finish_Normal ci img env d3 _ cs v (vs ++ [metricsVolume ci]) Hcs3
             Hprobes Hvs3). now apply (Hvol v vs).
Qed.

Lemma desired_returns (ci : ClusterIngress) (img : string)
  (infra : option Infrastructure) (err : error) :
  reachesSelectors ci infra -> selectorError ci = Some err ->
  desiredRouterDeployment ci img infra = Return err.
Proof.
  intros Hreach Herr. pose proof (desired_prefix ci img infra Hreach) as Hprefix.
  now rewrite Herr in Hprefix.
Qed.

Lemma desired_early_panic (ci : ClusterIngress) (img : string)
  (infra : option Infrastructure) :
  Selector (d_Spec (RouterDeployment ci)) = None
  \/ Containers (podOf (RouterDeployment ci)) = []
  \/ (String.eqb (ci_HighAvailabilityType (ci_Status ci)) CloudClusterIngressHA
      = true /\ infra = None) ->
  desiredRouterDeployment ci img infra = Panic.
Proof.
  intros Hmissing. unfold desiredRouterDeployment. cbv zeta.
  set (base := RouterDeployment ci) in *.
  unfold withRouterSelector.
  change (Selector (d_Spec (named ci base))) with (Selector (d_Spec base)).
  destruct (Selector (d_Spec base)) as [sel|] eqn:Hbase; [| reflexivity].
  cbn [bindR]. unfold withMetricsCerts. unfold onContainer0 at 1.
  match goal with
  | |- context [Containers (podOf ?d)] =>
      change (Containers (podOf d)) with (Containers (podOf base))
  end.
  destruct (Containers (podOf base)) as [|c cs] eqn:Hbasecs; [reflexivity |].
  cbn [bindR].
  destruct Hmissing as [Hm | [Hm | [Hcloud ->]]]; [discriminate .. |].
  unfold withProxyProtocol. now rewrite Hcloud.
Qed.

Lemma reachesSelectors_dec (ci : ClusterIngress)
  (infra : option Infrastructure) :
  reachesSelectors ci infra
  \/ (Selector (d_Spec (RouterDeployment ci)) = None
      \/ Containers (podOf (RouterDeployment ci)) = []
      \/ (String.eqb (ci_HighAvailabilityType (ci_Status ci))
            CloudClusterIngressHA = true /\ infra = None)).
Proof.
  unfold reachesSelectors.
  destruct (Selector (d_Spec (RouterDeployment ci))); [| auto].
  destruct (Containers (podOf (RouterDeployment ci))); [auto |].
  destruct (String.eqb _ CloudClusterIngressHA);
    [| left; repeat split; discriminate].
  destruct infra; [left; repeat split; discriminate | auto].
Qed.

Lemma desired_Return_inv (ci : ClusterIngress) (img : string)
  (infra : option Infrastructure) (err : error) :
  desiredRouterDeployment ci img infra = Return err ->
  reachesSelectors ci infra /\ selectorError ci = Some err.
Proof.
  intros Hd.
  destruct (reachesSelectors_dec ci infra) as [Hreach | Hmissing].
  - split; [exact Hreach |].
    pose proof (desired_prefix ci img infra Hreach) as Hprefix.
    destruct (selectorError ci) as [err'|]; [congruence |].
    destruct Hprefix as (c & cs & d3 & env & _ & _ & _ & Heq).
    rewrite Heq in Hd. now apply finish_not_Return in Hd.
  - rewrite (desired_early_panic ci img infra Hmissing) in Hd. discriminate.
Qed.

Lemma withProxyProtocol_needs (ci : ClusterIngress)
  (infra : option Infrastructure) (env env' : list EnvVar) :
  withProxyProtocol ci infra env = Normal env' ->
  String.eqb (ci_HighAvailabilityType (ci_Status ci)) CloudClusterIngressHA
  = true -> infra <> None.
Proof.
  unfold withProxyProtocol. intros Hp Hcloud. rewrite Hcloud in Hp.
  now destruct infra.
Qed.

Lemma desired_needs (ci : ClusterIngress) (img : string)
  (infra : option Infrastructure) (d : Deployment) :
  desiredRouterDeployment ci img infra = Normal d ->
  dereferenceable ci infra /\ selectorError ci = None.
Proof.
  intros Hd.
  destruct (desired_facts ci img infra d Hd)
    as (sel & c & cs & c' & v & vs & s & Hsel & Hcs & Hvs & Hv & _ & _ & _ & _
        & _ & _ & _ & _ & _ & _ & _ & Huser & _).
  assert (Hreach : reachesSelectors ci infra).
  { destruct (reachesSelectors_dec ci infra) as [Hreach | Hmissing];
      [exact Hreach |].
    rewrite (desired_early_panic ci img infra Hmissing) in Hd. discriminate. }
  assert (Hnone : selectorError ci = None).
  { pose proof (desired_prefix ci img infra Hreach) as Hprefix.
    destruct (selectorError ci); [congruence | reflexivity]. }
  split; [| exact Hnone].
  split; [rewrite Hsel; discriminate |].
  split; [| split; [| apply Hreach]].
  - exists c, cs. split; [exact Hcs |]. intros Hkind. rewrite Hkind in Huser.
    split; apply Huser.
  - intros v0 vs0 Hvols. rewrite Hvols in Hvs. injection Hvs as <- _.
    rewrite Hv. discriminate.
Qed.

(** X11. [desiredRouterDeployment] returns a deployment exactly when the
    manifest and the infrastructure config have everything it dereferences
    (a selector, a first container with HTTP probes if the cluster ingress
    is of the user-defined kind, a secret in the first volume if there is a
    volume, an infrastructure config if the cluster ingress is of the cloud
    kind) and every selector of the cluster ingress converts. *)
Theorem desiredRouterDeployment_succeeds_iff (ci : ClusterIngress)
  (img : string) (infra : option Infrastructure) :
  (exists d, desiredRouterDeployment ci img infra = Normal d)
  <-> dereferenceable ci infra /\ selectorError ci = None.
Proof.
  split.
  - intros [d Hd]. exact (desired_needs ci img infra d Hd).
  - intros [Hderef Hnone]. exact (desired_succeeds ci img infra Hderef Hnone).
Qed.

(** X12. [desiredRouterDeployment] returns an error exactly when the
    manifest has a selector and a container, the infrastructure config is
    there if the cluster ingress is of the cloud kind, and some selector of
    the cluster ingress does not convert. The error is the one for the first
    such selector, the node selector coming before the namespace selector
    and the namespace selector before the route selector. *)
Theorem desiredRouterDeployment_fails_iff (ci : ClusterIngress)
  (img : string) (infra : option Infrastructure) (err : error) :
  desiredRouterDeployment ci img infra = Return err
  <-> reachesSelectors ci infra /\ selectorError ci = Some err.
Proof.
  split.
  - exact (desired_Return_inv ci img infra err).
  - intros [Hreach Herr]. exact (desired_returns ci img infra err Hreach Herr).
Qed.

(** X13. [desiredRouterDeployment] panics exactly when the manifest lacks a
    selector or a container or the infrastructure config of a cloud cluster
    ingress is nil, whatever the selectors are, or when every selector
    converts and something dereferenced later is missing. *)
Theorem desiredRouterDeployment_panics_iff (ci : ClusterIngress)
  (img : string) (infra : option Infrastructure) :
  desiredRouterDeployment ci img infra = Panic
  <-> ~ reachesSelectors ci infra
      \/ (selectorError ci = None /\ ~ dereferenceable ci infra).
Proof.
  split.
  - intros Hd.
    destruct (reachesSelectors_dec ci infra) as [Hreach | Hmissing].
    + right. pose proof (desired_prefix ci img infra Hreach) as Hprefix.
      destruct (selectorError ci) as [err|] eqn:Herr; [congruence |].
      split; [reflexivity |]. intros Hderef.
      destruct (desired_succeeds ci img infra Hderef Herr) as [d Hnormal].
      congruence.
    + left. intros (Hsel & Hcs & Hinfra).
      destruct Hmissing as [Hm | [Hm | [Hcloud Hm]]];
        [congruence | congruence | now apply Hinfra].
  - intros Hcases.
    destruct (desiredRouterDeployment ci img infra) as [d|err|] eqn:Hd;
      [| | reflexivity].
    + destruct (desired_needs ci img infra d Hd) as [Hderef Hnone].
      destruct Hcases as [Hnot | [_ Hnot]]; [| now destruct Hnot].
      destruct Hnot. now apply dereferenceable_reaches.
    + destruct (desired_Return_inv ci img infra err Hd) as [Hreach Herr].
      destruct Hcases as [Hnot | [Hnone _]]; [now destruct Hnot | congruence].
Qed.
(** *** What the returned deployment holds *)

Lemma addedEnv_names (ci : ClusterIngress) (infra : option Infrastructure) :
  map ev_Name (addedEnv ci infra)
  = ["ROUTER_SERVICE_NAME"; "STATS_USERNAME"; "STATS_PASSWORD";
     "ROUTER_METRICS_TYPE"; "ROUTER_METRICS_TLS_CERT_FILE";
     "ROUTER_METRICS_TLS_KEY_FILE"]
    ++ (if (0 <? String.length (ci_IngressDomain (ci_Status ci)))%nat
        then ["ROUTER_CANONICAL_HOSTNAME"] else [])
    ++ (if usesProxyProtocol ci infra then ["ROUTER_USE_PROXY_PROTOCOL"] else [])
    ++ match ci_NamespaceSelector (ci_Spec ci) with
       | Some _ => ["NAMESPACE_LABELS"]
       | None => []
       end
    ++ match ci_RouteSelector (ci_Spec ci) with
       | Some _ => ["ROUTE_LABELS"]
       | None => []
       end.
Proof.
  unfold addedEnv, hostnameEnv, selectorEnv. rewrite !List.map_app.
  destruct (0 <? _)%nat, (usesProxyProtocol ci infra),
    (ci_NamespaceSelector (ci_Spec ci)), (ci_RouteSelector (ci_Spec ci));
    reflexivity.
Qed.

Lemma firstSecret_cons (v : Volume) (vs : list Volume) (d : Deployment)
  (name : string) :
  Volumes (podOf d)
  = {| vol_Name := vol_Name v; vol_Secret := Some {| SecretName := name |} |}
    :: vs ->
  firstSecret d = Some name.
Proof. unfold firstSecret. now intros ->. Qed.

Lemma desired_firstSecret (ci : ClusterIngress) (img : string)
  (infra : option Infrastructure) (d : Deployment) :
  desiredRouterDeployment ci img infra = Normal d ->
  firstSecret d = Some (certSecretName ci)
  /\ Replicas (d_Spec d) = Some (ci_Replicas (ci_Spec ci)).
Proof.
  intros Hd.
  destruct (desired_facts ci img infra d Hd)
    as (sel & c & cs & c' & v & vs & s & _ & _ & _ & _ & _ & _ & _ & _ & _
        & Hrep & Hvols & _).
  split; [exact (firstSecret_cons _ _ _ _ Hvols) | exact Hrep].
Qed.

(** X14. The deployment [desiredRouterDeployment] returns is named
    [router-<name>] in [openshift-ingress]. Its labels are those of the
    manifest with the label of the owning cluster ingress set to the name of
    the cluster ingress, and both the pod labels and the match labels of the
    selector have [router] set to the name of the deployment, so that the
    selector asks for a label the pods carry. *)
Theorem desired_names_and_labels (ci : ClusterIngress) (img : string)
  (infra : option Infrastructure) (d : Deployment) :
  desiredRouterDeployment ci img infra = Normal d ->
  let base := RouterDeployment ci in
  let name := "router-" +:+ ci_Name ci in
  d_Name d = name
  /\ d_Namespace d = "openshift-ingress"
  /\ (exists labels,
        d_Labels d = Some labels
        /\ labels !! OwningClusterIngressLabel = Some (ci_Name ci)
        /\ forall key, key <> OwningClusterIngressLabel ->
             labels !! key = default ∅ (d_Labels base) !! key)
  /\ (exists podLabels selector matchLabels,
        tpl_Labels (Template (d_Spec d)) = Some podLabels
        /\ Selector (d_Spec d) = Some selector
        /\ MatchLabels selector = Some matchLabels
        /\ podLabels !! "router" = Some name
        /\ matchLabels !! "router" = Some name
        /\ forall key, key <> "router" ->
             podLabels !! key
             = default ∅ (tpl_Labels (Template (d_Spec base))) !! key).
Proof.
  intros Hd base name.
  destruct (desired_facts ci img infra d Hd)
    as (sel & c & cs & c' & v & vs & s & _ & _ & _ & _ & Hname & Hns & Hlabels
        & Htpl & Hselector & _).
  split; [exact Hname |]. split; [exact Hns |]. split.
  - eexists. split; [exact Hlabels |]. split.
    + apply lookup_insert_eq.
    + intros key Hkey. now apply lookup_insert_ne.
  - eexists _, _, _. split; [exact Htpl |]. split; [exact Hselector |].
    split; [reflexivity |]. split; [apply lookup_insert_eq |].
    split; [apply lookup_insert_eq |].
    intros key Hkey. now apply lookup_insert_ne.
Qed.

(** X15. The deployment [desiredRouterDeployment] returns has the replicas
    of the cluster ingress, and the secret of its first volume is the
    default certificate secret of the cluster ingress when that is set and
    not empty, and [router-certs-<name>] when it is nil or empty. *)
Theorem desired_replicas_and_certificate (ci : ClusterIngress) (img : string)
  (infra : option Infrastructure) (d : Deployment) :
  desiredRouterDeployment ci img infra = Normal d ->
  Replicas (d_Spec d) = Some (ci_Replicas (ci_Spec ci))
  /\ (forall secret,
        ci_DefaultCertificateSecret (ci_Spec ci) = Some secret ->
        secret <> "" -> firstSecret d = Some secret)
  /\ (ci_DefaultCertificateSecret (ci_Spec ci) = None
      \/ ci_DefaultCertificateSecret (ci_Spec ci) = Some "" ->
      firstSecret d = Some ("router-certs-" +:+ ci_Name ci)).
Proof.
  intros Hd. destruct (desired_firstSecret ci img infra d Hd) as [Hfirst Hrep].
  split; [exact Hrep |]. rewrite Hfirst. unfold certSecretName. split.
  - intros secret -> Hne. now destruct secret.
  - now intros [-> | ->].
Qed.

(** X16. The first container of the deployment [desiredRouterDeployment]
    returns is the first container of the manifest with the router image,
    with the mount of the metrics certificates after the mounts of the
    manifest, and with the variables of the controller after the variables
    of the manifest, in the order in which the function adds them. The other
    containers are those of the manifest. *)
Theorem desired_first_container (ci : ClusterIngress) (img : string)
  (infra : option Infrastructure) (d : Deployment) :
  desiredRouterDeployment ci img infra = Normal d ->
  exists c c' cs,
    Containers (podOf (RouterDeployment ci)) = c :: cs
    /\ Containers (podOf d) = c' :: cs
    /\ Image c' = img
    /\ VolumeMounts c' = VolumeMounts c ++ [metricsMount]
    /\ Env c'
       = Env c ++ statsEnv ci ++ metricsEnv ++ hostnameEnv ci
         ++ (if usesProxyProtocol ci infra
             then [plainEnv "ROUTER_USE_PROXY_PROTOCOL" "true"] else [])
         ++ selectorEnv "NAMESPACE_LABELS" (ci_NamespaceSelector (ci_Spec ci))
         ++ selectorEnv "ROUTE_LABELS" (ci_RouteSelector (ci_Spec ci)).
Proof.
  intros Hd.
  destruct (desired_facts ci img infra d Hd)
    as (sel & c & cs & c' & v & vs & s & _ & Hcs & _ & _ & _ & _ & _ & _ & _
        & _ & _ & Hcs' & Henv & Himg & Hmounts & _).
  exists c, c', cs. auto.
Qed.

(** X17. Among the variables [desiredRouterDeployment] adds to the first
    container no name comes twice, and four of them depend on the cluster
    ingress: [ROUTER_CANONICAL_HOSTNAME] is added exactly when the ingress
    domain is not empty, [ROUTER_USE_PROXY_PROTOCOL] exactly when the cluster
    ingress is of the cloud kind on AWS, [NAMESPACE_LABELS] and
    [ROUTE_LABELS] exactly when the namespace selector and the route
    selector are set. *)
Theorem desired_conditional_variables (ci : ClusterIngress) (img : string)
  (infra : option Infrastructure) (d : Deployment) :
  desiredRouterDeployment ci img infra = Normal d ->
  exists c c' cs added,
    Containers (podOf (RouterDeployment ci)) = c :: cs
    /\ Containers (podOf d) = c' :: cs
    /\ Env c' = Env c ++ added
    /\ NoDup (map ev_Name added)
    /\ (In "ROUTER_CANONICAL_HOSTNAME" (map ev_Name added)
        <-> ci_IngressDomain (ci_Status ci) <> "")
    /\ (In "ROUTER_USE_PROXY_PROTOCOL" (map ev_Name added)
        <-> usesProxyProtocol ci infra = true)
    /\ (In "NAMESPACE_LABELS" (map ev_Name added)
        <-> ci_NamespaceSelector (ci_Spec ci) <> None)
    /\ (In "ROUTE_LABELS" (map ev_Name added)
        <-> ci_RouteSelector (ci_Spec ci) <> None).
Proof.
  intros Hd.
  destruct (desired_facts ci img infra d Hd)
    as (sel & c & cs & c' & v & vs & s & _ & Hcs & _ & _ & _ & _ & _ & _ & _
        & _ & _ & Hcs' & Henv & _).
  exists c, c', cs, (addedEnv ci infra).
  split; [exact Hcs |]. split; [exact Hcs' |]. split; [exact Henv |].
  rewrite addedEnv_names.
  destruct (ci_IngressDomain (ci_Status ci)) as [|a domain];
    destruct (usesProxyProtocol ci infra);
    destruct (ci_NamespaceSelector (ci_Spec ci));
    destruct (ci_RouteSelector (ci_Spec ci));
    cbn [String.length Nat.ltb Nat.leb app];
    (split; [apply (bool_decide_unpack _); vm_compute; exact I |]);
    cbn [In]; repeat split; intros Hx;
    try discriminate; try congruence;
    repeat (destruct Hx as [Hx | Hx]; try discriminate Hx); auto 12;
    try contradiction.
Qed.

(** X18. For a cluster ingress of the user-defined kind the deployment
    [desiredRouterDeployment] returns uses the host network and both probes
    of its first container ask localhost. For any other kind the host
    network flag and the probes are those of the manifest. *)
Theorem desired_host_network (ci : ClusterIngress) (img : string)
  (infra : option Infrastructure) (d : Deployment) :
  desiredRouterDeployment ci img infra = Normal d ->
  exists c c' cs,
    Containers (podOf (RouterDeployment ci)) = c :: cs
    /\ Containers (podOf d) = c' :: cs
    /\ if String.eqb (ci_HighAvailabilityType (ci_Status ci))
            UserDefinedClusterIngressHA
       then HostNetwork (podOf d) = true
            /\ LivenessProbe c' = Some {| HTTPGet := Some {| Host := "localhost" |} |}
            /\ ReadinessProbe c' = Some {| HTTPGet := Some {| Host := "localhost" |} |}
       else HostNetwork (podOf d) = HostNetwork (podOf (RouterDeployment ci))
            /\ LivenessProbe c' = LivenessProbe c
            /\ ReadinessProbe c' = ReadinessProbe c.
Proof.
  intros Hd.
  destruct (desired_facts ci img infra d Hd)
    as (sel & c & cs & c' & v & vs & s & _ & Hcs & _ & _ & _ & _ & _ & _ & _
        & _ & _ & Hcs' & _ & _ & _ & Huser & _).
  exists c, c', cs. split; [exact Hcs |]. split; [exact Hcs' |].
  unfold isUserDefined in Huser.
  destruct (String.eqb _ UserDefinedClusterIngressHA).
  - destruct Huser as (_ & _ & Hl & Hr & Hhost). auto.
  - destruct Huser as (Hl & Hr & Hhost). auto.
Qed.

(** X19. When the cluster ingress asks for a node selector, the node
    selector of the deployment [desiredRouterDeployment] returns is the map
    the conversion gives, which replaces the one of the manifest; otherwise
    it is the node selector of the manifest. *)
Theorem desired_node_selector (ci : ClusterIngress) (img : string)
  (infra : option Infrastructure) (d : Deployment) :
  desiredRouterDeployment ci img infra = Normal d ->
  (forall placement selector,
     ci_NodePlacement (ci_Spec ci) = Some placement ->
     np_NodeSelector placement = Some selector ->
     LabelSelectorAsMap selector = (NodeSelector (podOf d), None))
  /\ (ci_NodePlacement (ci_Spec ci) = None
      \/ (exists placement,
            ci_NodePlacement (ci_Spec ci) = Some placement
            /\ np_NodeSelector placement = None) ->
      NodeSelector (podOf d) = NodeSelector (podOf (RouterDeployment ci))).
Proof.
  intros Hd.
  destruct (desired_facts ci img infra d Hd)
    as (sel & c & cs & c' & v & vs & s & _ & _ & _ & _ & _ & _ & _ & _ & _
        & _ & _ & _ & _ & _ & _ & _ & Hnode).
  unfold requestedNodeSelector in Hnode. split.
  - intros placement selector Hp Hs. now rewrite Hp, Hs in Hnode.
  - intros [Hp | (placement & Hp & Hs)]; rewrite Hp in Hnode;
      [| rewrite Hs in Hnode]; exact Hnode.
Qed.

(** X20. The certificate secret name is written into whichever volume comes
    first once the volume of the metrics certificates has been appended.
    With a manifest that has volumes, that is the first volume of the
    manifest, and the metrics volume comes last. With a manifest without
    volumes it is the metrics volume itself, which then no longer names the
    secret of the metrics certificates. *)
Theorem desired_volumes (ci : ClusterIngress) (img : string)
  (infra : option Infrastructure) (d : Deployment) :
  desiredRouterDeployment ci img infra = Normal d ->
  let certs := Some {| SecretName := certSecretName ci |} in
  match Volumes (podOf (RouterDeployment ci)) with
  | v :: vs =>
      Volumes (podOf d)
      = {| vol_Name := vol_Name v; vol_Secret := certs |}
        :: vs ++ [{| vol_Name := "metrics-certs";
                     vol_Secret :=
                       Some {| SecretName :=
                                 "router-metrics-certs-" +:+ ci_Name ci |} |}]
  | [] =>
      Volumes (podOf d) = [{| vol_Name := "metrics-certs"; vol_Secret := certs |}]
  end.
Proof.
  intros Hd certs.
  destruct (desired_facts ci img infra d Hd)
    as (sel & c & cs & c' & v & vs & s & _ & _ & Hvs & _ & _ & _ & _ & _ & _
        & _ & Hvols & _).
  destruct (Volumes (podOf (RouterDeployment ci))) as [|v0 vs0];
    injection Hvs as <- <-; exact Hvols.
Qed.

(** X21. Two deployments that [desiredRouterDeployment] returns for the
    same cluster ingress compare as unchanged under
    [deploymentConfigChanged], also when they were built for different
    router images or infrastructure configs: a new router image alone asks
    for no update. *)
Theorem new_image_asks_for_no_update (ci : ClusterIngress) (img img' : string)
  (infra infra' : option Infrastructure) (d d' : Deployment) :
  desiredRouterDeployment ci img infra = Normal d ->
  desiredRouterDeployment ci img' infra' = Normal d' ->
  deploymentConfigChanged d d' = Normal (false, None).
Proof.
  intros Hd Hd'.
  destruct (desired_firstSecret ci img infra d Hd) as [Hfirst Hrep].
  destruct (desired_firstSecret ci img' infra' d' Hd') as [Hfirst' Hrep'].
  apply (proj1 (configChanged_cases d d' _ _ _ Hfirst Hfirst' Hrep')).
  split; [reflexivity | exact Hrep].
Qed.

End DesiredProps.

(** *** The properties of [desiredRouterDeployment] on a manifest *)

Section DesiredExamples.

Import metav1 types corev1 appsv1 ingressv1alpha1 infrastructure controller
  controller_notions controller_examples.

Local Existing Instance packages.

Lemma desiredOf_cloud :
  desiredRouterDeployment (ingress "Cloud") "registry/router:v4.1" aws
  = Normal (desiredOf (ingress "Cloud") "registry/router:v4.1" aws).
Proof. vm_compute. reflexivity. Qed.

Lemma desiredOf_userDefined :
  desiredRouterDeployment (ingress "UserDefined") "registry/router:v4.1" None
  = Normal (desiredOf (ingress "UserDefined") "registry/router:v4.1" None).
Proof. vm_compute. reflexivity. Qed.

Lemma desiredOf_userDefined_aws :
  desiredRouterDeployment (ingress "UserDefined") "registry/router:v4.2" aws
  = Normal (desiredOf (ingress "UserDefined") "registry/router:v4.2" aws).
Proof. vm_compute. reflexivity. Qed.

Lemma desired_names_and_labels_witness :
  let d := desiredOf (ingress "Cloud") "registry/router:v4.1" aws in
  d_Name d = "router-default" /\ d_Namespace d = "openshift-ingress".
Proof.
  pose proof (desired_names_and_labels _ _ _ _ desiredOf_cloud)
    as (Hname & Hnamespace & _).
  split; [exact Hname | exact Hnamespace].
Defined.

Lemma desired_replicas_and_certificate_witness :
  let d := desiredOf (ingress "Cloud") "registry/router:v4.1" aws in
  Replicas (d_Spec d) = Some 2 /\ firstSecret d = Some "my-certs".
Proof.
  pose proof (desired_replicas_and_certificate _ _ _ _ desiredOf_cloud)
    as (Hreplicas & Hsecret & _).
  split; [exact Hreplicas |].
  apply (Hsecret "my-certs"); [reflexivity | discriminate].
Defined.

Lemma desired_first_container_witness :
  let d := desiredOf (ingress "Cloud") "registry/router:v4.1" aws in
  exists c',
    Containers (podOf d) = [c']
    /\ Image c' = "registry/router:v4.1"
    /\ map vm_Name (VolumeMounts c') = ["default-certificate"; "metrics-certs"]
    /\ map ev_Name (Env c')
       = ["STATS_PORT"; "ROUTER_SERVICE_NAME"; "STATS_USERNAME";
          "STATS_PASSWORD"; "ROUTER_METRICS_TYPE";
          "ROUTER_METRICS_TLS_CERT_FILE"; "ROUTER_METRICS_TLS_KEY_FILE";
          "ROUTER_CANONICAL_HOSTNAME"; "ROUTER_USE_PROXY_PROTOCOL";
          "NAMESPACE_LABELS"].
Proof.
  destruct (desired_first_container _ _ _ _ desiredOf_cloud)
    as (c & c' & cs & Hcs & Hcs' & Himage & Hmounts & Henv).
  injection Hcs as <- <-. exists c'.
  split; [exact Hcs' |]. split; [exact Himage |].
  rewrite Hmounts, Henv. split; reflexivity.
Defined.

Lemma desired_conditional_variables_witness :
  let d := desiredOf (ingress "Cloud") "registry/router:v4.1" aws in
  exists c' added,
    Containers (podOf d) = [c']
    /\ Env c' = plainEnv "STATS_PORT" "1936" :: added
    /\ In "ROUTER_USE_PROXY_PROTOCOL" (map ev_Name added)
    /\ ~ In "ROUTE_LABELS" (map ev_Name added).
Proof.
  destruct (desired_conditional_variables _ _ _ _ desiredOf_cloud)
    as (c & c' & cs & added & Hcs & Hcs' & Henv & _ & _ & Hproxy & _ & Hroute).
  injection Hcs as <- <-. exists c', added.
  split; [exact Hcs' |]. split; [exact Henv |]. split.
  - apply (proj2 Hproxy). reflexivity.
  - intros Hin. now apply (proj1 Hroute Hin).
Defined.

Lemma desired_host_network_witness :
  let d := desiredOf (ingress "UserDefined") "registry/router:v4.1" None in
  HostNetwork (podOf d) = true
  /\ exists c',
       Containers (podOf d) = [c']
       /\ LivenessProbe c' = Some {| HTTPGet := Some {| Host := "localhost" |} |}.
Proof.
  destruct (desired_host_network _ _ _ _ desiredOf_userDefined)
    as (c & c' & cs & Hcs & Hcs' & Hhost & Hliveness & _).
  injection Hcs as <- <-.
  split; [exact Hhost |]. exists c'. split; [exact Hcs' | exact Hliveness].
Defined.

Lemma desired_node_selector_witness :
  let d := desiredOf (ingress "Cloud") "registry/router:v4.1" aws in
  asMap (labelled "node-role.kubernetes.io/worker" "")
  = (NodeSelector (podOf d), None).
Proof.
  apply (proj1 (desired_node_selector _ _ _ _ desiredOf_cloud)
           {| np_NodeSelector :=
                Some (labelled "node-role.kubernetes.io/worker" "") |});
    reflexivity.
Defined.

Lemma desiredRouterDeployment_succeeds_iff_witness :
  dereferenceable (ingress "Cloud") aws
  /\ selectorError (ingress "Cloud") = None.
Proof.
  apply (proj1 (desiredRouterDeployment_succeeds_iff (ingress "Cloud")
                  "registry/router:v4.1" aws)).
  exists (desiredOf (ingress "Cloud") "registry/router:v4.1" aws).
  exact desiredOf_cloud.
Defined.

Lemma desiredRouterDeployment_fails_iff_witness :
  exists err,
    selectorError (invalidIngress "Cloud") = Some err
    /\ desiredRouterDeployment (invalidIngress "Cloud") "registry/router:v4.1"
         aws = Return err.
Proof.
  eexists. split; [reflexivity |].
  apply (proj2 (desiredRouterDeployment_fails_iff (invalidIngress "Cloud")
                  "registry/router:v4.1" aws _)).
  split; [| reflexivity].
  split; [discriminate |]. split; discriminate.
Defined.

Lemma desiredRouterDeployment_panics_iff_witness :
  desiredRouterDeployment (ingress "Cloud") "registry/router:v4.1" None = Panic.
Proof.
  apply (proj2 (desiredRouterDeployment_panics_iff (ingress "Cloud")
                  "registry/router:v4.1" None)).
  left. intros (_ & _ & Hinfra). now apply Hinfra.
Defined.

Lemma desired_volumes_witness :
  let d := desiredOf (ingress "Cloud") "registry/router:v4.1" aws in
  Volumes (podOf d)
  = [ {| vol_Name := "default-certificate";
         vol_Secret := Some {| SecretName := "my-certs" |} |};
      {| vol_Name := "metrics-certs";
         vol_Secret := Some {| SecretName := "router-metrics-certs-default" |} |} ].
Proof. exact (desired_volumes _ _ _ _ desiredOf_cloud). Defined.

Lemma new_image_asks_for_no_update_witness :
  deploymentConfigChanged
    (desiredOf (ingress "UserDefined") "registry/router:v4.1" None)
    (desiredOf (ingress "UserDefined") "registry/router:v4.2" aws)
  = Normal (false, None).
Proof.
  exact (new_image_asks_for_no_update _ _ _ _ _ _ _
           desiredOf_userDefined desiredOf_userDefined_aws).
Defined.

End DesiredExamples.

(** ** The functions of the reconciler *)

Section Reconciler.

Import metav1 types corev1 appsv1 ingressv1alpha1 infrastructure controller
  controller_notions.

Context `{Packages} {K : Type} `{Client K}.

Local Abbreviation getRequest ci := (ReqGet (routerDeploymentName ci)).

Lemma requests_sent (req : Request) (k : K) (c : Cluster K) :
  requests (sent req k c) = requests c ++ [req].
Proof. reflexivity. Qed.

(** [currentRouterDeployment] sends one read and has no error to return. *)
Lemma current_spec (ci : ClusterIngress) (c : Cluster K) :
  let reply := Get (routerDeploymentName ci) zeroDeployment (kube c) in
  exists current,
    currentRouterDeployment ci c
    = ((current, None), sent (getRequest ci) (snd reply) c)
    /\ match current with
       | Some d => d = fst (fst reply)
       | None => IsNotFound (snd (fst reply)) = true
       end.
Proof.
  cbv zeta. unfold currentRouterDeployment.
  destruct (Get (routerDeploymentName ci) zeroDeployment (kube c))
    as [[obj [err|]] k]; cbn [fst snd];
    [| exists (Some obj); split; reflexivity].
  destruct (IsNotFound (Some err)) eqn:Hfound.
  - exists None. split; reflexivity.
  - exists (Some obj). split; reflexivity.
Qed.

Lemma current_found (ci : ClusterIngress) (c : Cluster K) (obj : Deployment)
  (err : option error) (k : K) :
  Get (routerDeploymentName ci) zeroDeployment (kube c) = ((obj, err), k) ->
  (forall e, err = Some e -> IsNotFound (Some e) = false) ->
  currentRouterDeployment ci c = ((Some obj, None), sent (getRequest ci) k c).
Proof.
  intros Hget Hfound. unfold currentRouterDeployment. rewrite Hget.
  destruct err as [e|]; [| reflexivity]. now rewrite (Hfound e eq_refl).
Qed.

Lemma configChanged_shape (current expected : Deployment) :
  deploymentConfigChanged current expected = Panic
  \/ deploymentConfigChanged current expected = Normal (false, None)
  \/ exists updated,
       deploymentConfigChanged current expected = Normal (true, Some updated).
Proof.
  unfold deploymentConfigChanged. rewrite !secretName0_firstSecret.
  destruct (firstSecret current) as [s|] eqn:Hs; cbn [bindR]; [| auto].
  destruct (firstSecret expected) as [s'|]; cbn [bindR]; [| auto].
  destruct (setSecretName0_firstSecret s' current s Hs) as (updated & -> & _).
  destruct (if String.eqb s s' then _ else _) as [[|]| |] eqn:Hsame;
    cbn [bindR]; eauto.
  - destruct (String.eqb s s'); [| discriminate].
    destruct (Replicas (d_Spec current)); [| discriminate].
    destruct (Replicas (d_Spec expected)); discriminate.
Qed.

Lemma update_spec (current desired : Deployment) (c : Cluster K) :
  (deploymentConfigChanged current desired = Panic
   /\ updateRouterDeployment current desired c = (Panic, c))
  \/ (deploymentConfigChanged current desired = Normal (false, None)
      /\ updateRouterDeployment current desired c = (Normal None, c))
  \/ exists updated e c',
       deploymentConfigChanged current desired = Normal (true, Some updated)
       /\ updateRouterDeployment current desired c = (Normal e, c')
       /\ requests c' = requests c ++ [ReqUpdate updated]
       /\ kube c' = snd (Update updated (kube c))
       /\ (e = None <-> snd (fst (Update updated (kube c))) = None)
       /\ (e = None
           \/ exists rest,
                e = Some (Errorf ("failed to update router deployment "
                                  +:+ rest))).
Proof.
  unfold updateRouterDeployment.
  destruct (configChanged_shape current desired)
    as [-> | [-> | [updated ->]]]; [auto | auto |].
  right. right. cbn [negb]. exists updated.
  destruct (Update updated (kube c)) as [[obj [err|]] k]; cbn [fst snd];
    eexists _, _; (split; [reflexivity |]);
    (split; [reflexivity |]); (split; [reflexivity |]);
    (split; [reflexivity |]); (split; [split; congruence |]); eauto.
Qed.

(** X22. Whatever the cluster ingress is, [ensureRouterDeleted] sends one
    delete and nothing else, and logs nothing. The object it deletes is the
    deployment of the manifest under the name [router-<name>] in
    [openshift-ingress]: the name and the namespace that
    [currentRouterDeployment] reads, and those of any deployment that
    [desiredRouterDeployment] builds for the cluster ingress. It returns nil
    exactly when the client returns nil or an error that is a not-found
    error, and otherwise the error of the client as it is. *)
Theorem ensureRouterDeleted_deletes_the_router (ci : ClusterIngress)
  (c : Cluster K) :
  let target :=
    {| d_Name := "router-" +:+ ci_Name ci; d_Namespace := "openshift-ingress";
       d_Labels := d_Labels (RouterDeployment ci);
       d_Spec := d_Spec (RouterDeployment ci) |} in
  let reply := fst (Delete target (kube c)) in
  let out := ensureRouterDeleted ci c in
  requests (snd out) = requests c ++ [ReqDelete target]
  /\ lines (snd out) = lines c
  /\ kube (snd out) = snd (Delete target (kube c))
  /\ routerDeploymentName ci
     = {| Namespace := d_Namespace target; Name := d_Name target |}
  /\ (forall img infra d,
        desiredRouterDeployment ci img infra = Normal d ->
        d_Name d = d_Name target /\ d_Namespace d = d_Namespace target)
  /\ (fst out = None <-> reply = None \/ IsNotFound reply = true)
  /\ (fst out = None \/ fst out = reply).
Proof.
  intros target reply out. subst out reply. unfold ensureRouterDeleted.
  change {| d_Name := Name (routerDeploymentName ci);
            d_Namespace := Namespace (routerDeploymentName ci);
            d_Labels := d_Labels (RouterDeployment ci);
            d_Spec := d_Spec (RouterDeployment ci) |} with target.
  assert (Hbuilt : forall img infra d,
             desiredRouterDeployment ci img infra = Normal d ->
             d_Name d = d_Name target /\ d_Namespace d = d_Namespace target).
  { intros img infra d Hd.
    destruct (desired_facts ci img infra d Hd)
      as (sel & c0 & cs & c' & v & vs & s & _ & _ & _ & _ & Hname & Hns & _).
    now split. }
  destruct (Delete target (kube c)) as [err k]. cbn [fst snd].
  destruct (IsNotFound err) eqn:Hfound; cbn [negb fst snd];
    (split; [reflexivity |]); (split; [reflexivity |]);
    (split; [reflexivity |]); (split; [reflexivity |]);
    (split; [exact Hbuilt |]); split; auto.
  - split; auto.
  - split; [auto |]. intros [-> | Hx]; [reflexivity | congruence].
Qed.

(** X23. When both deployments have a secret in their first volume and the
    desired one has replicas, [updateRouterDeployment] sends nothing if the
    secret names and the replicas agree, and otherwise sends one update that
    carries the current deployment with the secret name and the replicas of
    the desired one, and nothing else of the desired one. It returns nil
    exactly when the client accepts that update. *)
Theorem updateRouterDeployment_sends (current desired : Deployment)
  (c : Cluster K) (s s' : string) (n : Z) :
  firstSecret current = Some s ->
  firstSecret desired = Some s' ->
  Replicas (d_Spec desired) = Some n ->
  let out := updateRouterDeployment current desired c in
  (s = s' /\ Replicas (d_Spec current) = Some n -> out = (Normal None, c))
  /\ (~ (s = s' /\ Replicas (d_Spec current) = Some n) ->
      exists updated e,
        fst out = Normal e
        /\ requests (snd out) = requests c ++ [ReqUpdate updated]
        /\ firstSecret updated = Some s'
        /\ Replicas (d_Spec updated) = Some n
        /\ sameButSecretAndReplicas current updated
        /\ (e = None <-> snd (fst (Update updated (kube c))) = None)).
Proof.
  intros Hs Hs' Hn out. subst out.
  destruct (configChanged_cases current desired s s' n Hs Hs' Hn)
    as [Hsame Hdiff].
  destruct (update_spec current desired c)
    as [[Hcmp Hout] | [[Hcmp Hout] | (u & e & c' & Hcmp & Hout & Hreq & _ & He & _)]].
  - split; intros Hcase.
    + rewrite (Hsame Hcase) in Hcmp. discriminate.
    + destruct (Hdiff Hcase) as (u & Hu & _). congruence.
  - split; intros Hcase; [exact Hout |].
    destruct (Hdiff Hcase) as (u & Hu & _). congruence.
  - split; intros Hcase.
    + rewrite (Hsame Hcase) in Hcmp. discriminate.
    + destruct (Hdiff Hcase) as (u' & Hu' & Hfirst & Hrep & Hkeep).
      assert (u' = u) as -> by congruence.
      exists u, e. rewrite Hout. cbn [fst snd]. auto 6.
Qed.

(** What [currentRouterDeployment] gives for the reply of the client. *)
Lemma current_run (ci : ClusterIngress) (c : Cluster K) :
  let reply := Get (routerDeploymentName ci) zeroDeployment (kube c) in
  currentRouterDeployment ci c
  = ((if match snd (fst reply) with
         | Some e => IsNotFound (Some e)
         | None => false
         end
      then None else Some (fst (fst reply)), None),
     sent (getRequest ci) (snd reply) c).
Proof.
  cbv zeta. unfold currentRouterDeployment.
  destruct (Get (routerDeploymentName ci) zeroDeployment (kube c))
    as [[obj [err|]] k]; cbn [fst snd]; [| reflexivity].
  now destruct (IsNotFound (Some err)).
Qed.

Lemma create_run (d : Deployment) (c : Cluster K) :
  let reply := Create d (kube c) in
  createRouterDeployment d c
  = match snd (fst reply) with
    | Some e =>
        (Some (Errorf ("failed to create router deployment "
                       +:+ d_Namespace (fst (fst reply)) +:+ "/"
                       +:+ d_Name (fst (fst reply)) +:+ ": " +:+ ErrorString e)),
         sent (ReqCreate d) (snd reply) c)
    | None =>
        (None, logged "created router deployment"
                 (sent (ReqCreate d) (snd reply) c))
    end.
Proof.
  cbv zeta. unfold createRouterDeployment.
  now destruct (Create d (kube c)) as [[obj [err|]] k].
Qed.

Lemma update_run (current desired updated : Deployment) (c : Cluster K) :
  deploymentConfigChanged current desired = Normal (true, Some updated) ->
  let reply := Update updated (kube c) in
  updateRouterDeployment current desired c
  = match snd (fst reply) with
    | Some e =>
        (Normal
           (Some (Errorf ("failed to update router deployment "
                          +:+ d_Namespace (fst (fst reply)) +:+ "/"
                          +:+ d_Name (fst (fst reply)) +:+ ": "
                          +:+ ErrorString e))),
         sent (ReqUpdate updated) (snd reply) c)
    | None =>
        (Normal None, logged "updated router deployment"
                        (sent (ReqUpdate updated) (snd reply) c))
    end.
Proof.
  intros Hcmp. cbv zeta. unfold updateRouterDeployment. rewrite Hcmp.
  cbn [negb].
  now destruct (Update updated (kube c)) as [[obj [err|]] k].
Qed.

(** X24. [ensureRouterDeployment] sends nothing when the desired deployment
    cannot be built. When it is built, it reads [router-<name>] first. If
    that read said not found, it creates the desired deployment: a create
    that fails ends it with that failure after these two requests, and a
    create that succeeds is followed by one more read. If the read did not
    say not found, it compares the object read with the desired deployment:
    it panics after the one read when the comparison panics, reads once more
    without any write when the comparison finds no change, and otherwise
    sends the update the comparison gives, followed by one more read when
    the update succeeds and by nothing when it fails. It never sends a
    delete. *)
Theorem ensureRouterDeployment_requests (r : Config) (ci : ClusterIngress)
  (infra : option Infrastructure) (c : Cluster K) :
  let out := ensureRouterDeployment r ci infra c in
  let get := getRequest ci in
  let reply := Get (routerDeploymentName ci) zeroDeployment (kube c) in
  let read := fst (fst reply) in
  let absent :=
    match snd (fst reply) with
    | Some e => IsNotFound (Some e)
    | None => false
    end in
  (desiredRouterDeployment ci (RouterImage r) infra = Panic ->
   out = (Panic, c))
  /\ (forall err,
        desiredRouterDeployment ci (RouterImage r) infra = Return err ->
        out = (Return (Errorf ("failed to build router deployment: "
                               +:+ ErrorString err)), c))
  /\ forall d,
       desiredRouterDeployment ci (RouterImage r) infra = Normal d ->
       (absent = true ->
        let created := Create d (snd reply) in
        (snd (fst created) = None ->
         requests (snd out) = requests c ++ [get; ReqCreate d; get]
         /\ lines (snd out) = lines c ++ ["created router deployment"]
         /\ exists result, fst out = Normal result)
        /\ (forall e,
              snd (fst created) = Some e ->
              requests (snd out) = requests c ++ [get; ReqCreate d]
              /\ lines (snd out) = lines c
              /\ fst out
                 = Return (Errorf ("failed to create router deployment "
                                   +:+ d_Namespace (fst (fst created)) +:+ "/"
                                   +:+ d_Name (fst (fst created)) +:+ ": "
                                   +:+ ErrorString e))))
       /\ (absent = false ->
           (deploymentConfigChanged read d = Panic ->
            requests (snd out) = requests c ++ [get]
            /\ lines (snd out) = lines c
            /\ fst out = Panic)
           /\ (deploymentConfigChanged read d = Normal (false, None) ->
               requests (snd out) = requests c ++ [get; get]
               /\ lines (snd out) = lines c
               /\ exists result, fst out = Normal result)
           /\ (forall updated,
                 deploymentConfigChanged read d = Normal (true, Some updated) ->
                 let sentUpdate := Update updated (snd reply) in
                 (snd (fst sentUpdate) = None ->
                  requests (snd out)
                  = requests c ++ [get; ReqUpdate updated; get]
                  /\ lines (snd out)
                     = lines c ++ ["updated router deployment"]
                  /\ exists result, fst out = Normal result)
                 /\ (forall e,
                       snd (fst sentUpdate) = Some e ->
                       requests (snd out)
                       = requests c ++ [get; ReqUpdate updated]
                       /\ lines (snd out) = lines c
                       /\ fst out
                          = Return
                              (Errorf ("failed to update router deployment "
                                       +:+ d_Namespace (fst (fst sentUpdate))
                                       +:+ "/"
                                       +:+ d_Name (fst (fst sentUpdate))
                                       +:+ ": " +:+ ErrorString e))))).
Proof.
  intros out get reply read absent. subst out.
  unfold ensureRouterDeployment.
  split; [now intros -> |]. split; [now intros err -> |].
  intros d ->. rewrite (current_run ci c). fold reply. fold absent. fold get.
  cbv zeta. clearbody absent.
  set (c1 := sent get (snd reply) c).
  assert (Hc1 : requests c1 = requests c ++ [get]) by reflexivity.
  assert (Hl1 : lines c1 = lines c) by reflexivity.
  assert (Hk1 : kube c1 = snd reply) by reflexivity.
  split.
  - intros ->. rewrite (create_run d c1). rewrite Hk1.
    split.
    + intros ->. rewrite (current_run ci _). cbn [fst snd].
      unfold sent, logged. cbn [requests lines kube].
      repeat split; rewrite ?Hc1, <- ?app_assoc; eauto.
    + intros e ->. cbn [fst snd]. unfold sent. cbn [requests lines].
      repeat split; rewrite ?Hc1, <- ?app_assoc; eauto.
  - intros ->. fold read. split; [| split].
    + intros Hcmp. unfold updateRouterDeployment. rewrite Hcmp.
      cbn [fst snd]. now repeat split.
    + intros Hcmp. unfold updateRouterDeployment. rewrite Hcmp. cbn [negb].
      rewrite (current_run ci c1). cbn [fst snd].
      unfold sent. cbn [requests lines kube].
      repeat split; rewrite ?Hc1, <- ?app_assoc; eauto.
    + intros updated Hcmp.
      rewrite (update_run read d updated c1 Hcmp). rewrite Hk1.
      split.
      * intros ->. rewrite (current_run ci _). cbn [fst snd].
        unfold sent, logged. cbn [requests lines kube].
        repeat split; rewrite ?Hc1, <- ?app_assoc; eauto.
      * intros e ->. cbn [fst snd]. unfold sent. cbn [requests lines].
        repeat split; rewrite ?Hc1, <- ?app_assoc; eauto.
Qed.

(** X25. A selector of the cluster ingress that does not convert stops
    [ensureRouterDeployment] before any request: the cluster is left as it
    was and the error returned is a new error whose text is that of the
    selector error after [failed to build router deployment: ]. *)
Theorem invalid_selector_stops_before_any_request (r : Config)
  (ci : ClusterIngress) (infra : option Infrastructure) (c : Cluster K)
  (err : error) :
  reachesSelectors ci infra ->
  selectorError ci = Some err ->
  ensureRouterDeployment r ci infra c
  = (Return (Errorf ("failed to build router deployment: "
                     +:+ ErrorString err)), c).
Proof.
  intros Hreach Herr. unfold ensureRouterDeployment.
  now rewrite (desired_returns ci (RouterImage r) infra err Hreach Herr).
Qed.

(** X26. When the read of the current deployment fails with an error that is
    not a not-found error, [currentRouterDeployment] returns the object it
    passed to the client with a nil error. If the client left that object
    without volumes, as the zero deployment is, [ensureRouterDeployment]
    goes on to compare it with the desired deployment and panics, after that
    one read. *)
Theorem failed_read_makes_ensure_panic (r : Config) (ci : ClusterIngress)
  (infra : option Infrastructure) (c : Cluster K) (d obj : Deployment)
  (err : error) (k : K) :
  desiredRouterDeployment ci (RouterImage r) infra = Normal d ->
  Get (routerDeploymentName ci) zeroDeployment (kube c) = ((obj, Some err), k) ->
  IsNotFound (Some err) = false ->
  Volumes (podOf obj) = [] ->
  currentRouterDeployment ci c = ((Some obj, None), sent (getRequest ci) k c)
  /\ ensureRouterDeployment r ci infra c = (Panic, sent (getRequest ci) k c).
Proof.
  intros Hd Hget Hfound Hvolumes.
  assert (Hcurrent : currentRouterDeployment ci c
                     = ((Some obj, None), sent (getRequest ci) k c)).
  { apply (current_found ci c obj (Some err) k Hget).
    now intros e [= <-]. }
  split; [exact Hcurrent |].
  unfold ensureRouterDeployment. rewrite Hd, Hcurrent.
  unfold updateRouterDeployment, deploymentConfigChanged, secretName0.
  now rewrite Hvolumes.
Qed.

(** X27. When the current deployment has the certificate secret name and
    the replicas that the cluster ingress asks for, [ensureRouterDeployment]
    sends two reads and no write and logs nothing, whatever else the current
    deployment differs in from the desired one: its image, variables,
    labels, node selector or host network are not brought in line. *)
Theorem agreeing_deployment_is_left_alone (r : Config) (ci : ClusterIngress)
  (infra : option Infrastructure) (c : Cluster K) (d current : Deployment)
  (err : option error) (k : K) :
  desiredRouterDeployment ci (RouterImage r) infra = Normal d ->
  Get (routerDeploymentName ci) zeroDeployment (kube c) = ((current, err), k) ->
  (forall e, err = Some e -> IsNotFound (Some e) = false) ->
  firstSecret current = Some (certSecretName ci) ->
  Replicas (d_Spec current) = Some (ci_Replicas (ci_Spec ci)) ->
  let out := ensureRouterDeployment r ci infra c in
  requests (snd out)
  = requests c ++ [getRequest ci; getRequest ci]
  /\ lines (snd out) = lines c
  /\ exists result, fst out = Normal result.
Proof.
  intros Hd Hget Hfound Hsecret Hreplicas out. subst out.
  destruct (desired_firstSecret ci (RouterImage r) infra d Hd)
    as [Hfirst Hrep].
  unfold ensureRouterDeployment.
  rewrite Hd, (current_found ci c current err k Hget Hfound).
  unfold updateRouterDeployment.
  rewrite (proj1 (configChanged_cases current d _ _ _ Hsecret Hfirst Hrep)
             (conj eq_refl Hreplicas)).
  cbn [negb].
  destruct (current_spec ci (sent (getRequest ci) k c)) as (result & -> & _).
  cbn [fst snd]. rewrite !requests_sent, <- app_assoc.
  split; [reflexivity |]. split; [reflexivity | eauto].
Qed.

End Reconciler.

(** *** The reconciler on a cluster that holds one deployment *)

Section ReconcilerExamples.

Import metav1 types corev1 appsv1 ingressv1alpha1 infrastructure controller
  controller_notions controller_examples.

Local Existing Instance packages.
Local Existing Instance client.

Lemma ensureRouterDeleted_deletes_the_router_witness :
  let out := ensureRouterDeleted (invalidIngress "Cloud") (cluster None true) in
  requests (snd out)
  = [ReqDelete {| d_Name := "router-default";
                  d_Namespace := "openshift-ingress";
                  d_Labels := d_Labels manifest; d_Spec := d_Spec manifest |}]
  /\ fst out = None.
Proof.
  destruct (ensureRouterDeleted_deletes_the_router (invalidIngress "Cloud")
              (cluster None true))
    as (Hrequests & _ & _ & _ & _ & Hnil & _).
  split; [exact Hrequests |]. apply (proj2 Hnil). right. reflexivity.
Defined.

Lemma ensureRouterDeployment_requests_witness :
  let desired := desiredOf (ingress "Cloud") "registry/router:v4.1" aws in
  let out :=
    ensureRouterDeployment config (ingress "Cloud") aws (cluster None true) in
  requests (snd out)
  = [ReqGet (routerDeploymentName (ingress "Cloud")); ReqCreate desired;
     ReqGet (routerDeploymentName (ingress "Cloud"))]
  /\ lines (snd out) = ["created router deployment"]
  /\ exists result, fst out = Normal result.
Proof.
  destruct (ensureRouterDeployment_requests config (ingress "Cloud") aws
              (cluster None true))
    as (_ & _ & Hbuilt).
  destruct (Hbuilt _ desiredOf_cloud) as [Habsent _].
  destruct (Habsent eq_refl) as [Hcreated _].
  exact (Hcreated eq_refl).
Defined.

Lemma updateRouterDeployment_sends_witness :
  let desired := desiredOf (ingress "Cloud") "registry/router:v4.1" aws in
  let out :=
    updateRouterDeployment manifest desired (cluster (Some manifest) true) in
  exists updated,
    fst out = Normal None
    /\ requests (snd out) = [ReqUpdate updated]
    /\ firstSecret updated = Some "my-certs"
    /\ Replicas (d_Spec updated) = Some 2
    /\ Containers (podOf updated) = Containers (podOf manifest).
Proof.
  assert (Hsecret : firstSecret
                      (desiredOf (ingress "Cloud") "registry/router:v4.1" aws)
                    = Some "my-certs") by (vm_compute; reflexivity).
  assert (Hreplicas : Replicas
                        (d_Spec (desiredOf (ingress "Cloud")
                                   "registry/router:v4.1" aws))
                      = Some 2) by (vm_compute; reflexivity).
  destruct (proj2 (updateRouterDeployment_sends manifest
                     (desiredOf (ingress "Cloud") "registry/router:v4.1" aws)
                     (cluster (Some manifest) true)
                     "router-certs-default" "my-certs" 2
                     eq_refl Hsecret Hreplicas))
    as (updated & e & Hout & Hrequests & Hfirst & Hrep & Hsame & Haccepted).
  { intros [Hequal _]. discriminate Hequal. }
  exists updated.
  split; [rewrite Hout; f_equal; apply (proj2 Haccepted); reflexivity |].
  split; [exact Hrequests |]. split; [exact Hfirst |]. split; [exact Hrep |].
  apply Hsame.
Defined.

Lemma invalid_selector_stops_before_any_request_witness :
  let err :=
    invalidSelector (invalidIngress "Cloud") "spec.routeSelector"
      (unsupported {| Key := "tier"; Operator := "Within"; Values := ["a"] |}) in
  ensureRouterDeployment config (invalidIngress "Cloud") aws (cluster None true)
  = (Return (Errorf ("failed to build router deployment: "
                     +:+ ErrorString err)), cluster None true).
Proof.
  intros err.
  apply (invalid_selector_stops_before_any_request config
           (invalidIngress "Cloud") aws (cluster None true) err).
  - split; [discriminate |]. split; discriminate.
  - reflexivity.
Defined.

Lemma failed_read_makes_ensure_panic_witness :
  fst (ensureRouterDeployment config (ingress "Cloud") aws (cluster None false))
  = Panic.
Proof.
  assert (Hget : Get (routerDeploymentName (ingress "Cloud")) zeroDeployment
                   (kube (cluster None false))
                 = ((zeroDeployment, Some unreachable),
                    {| stored := None; reachable := false |}))
    by reflexivity.
  assert (Hfound : IsNotFound (Some unreachable) = false) by reflexivity.
  assert (Hvolumes : Volumes (podOf zeroDeployment) = []) by reflexivity.
  rewrite (proj2 (failed_read_makes_ensure_panic config (ingress "Cloud") aws
                    (cluster None false) _ zeroDeployment unreachable _
                    desiredOf_cloud Hget Hfound Hvolumes)).
  reflexivity.
Defined.

Lemma agreeing_deployment_is_left_alone_witness :
  let previous := desiredOf (ingress "Cloud") "registry/router:v4.0" aws in
  let out :=
    ensureRouterDeployment config (ingress "Cloud") aws
      (cluster (Some previous) true) in
  requests (snd out)
  = [ReqGet (routerDeploymentName (ingress "Cloud"));
     ReqGet (routerDeploymentName (ingress "Cloud"))]
  /\ lines (snd out) = []
  /\ exists result, fst out = Normal result.
Proof.
  assert (Hsecret : firstSecret
                      (desiredOf (ingress "Cloud") "registry/router:v4.0" aws)
                    = Some (certSecretName (ingress "Cloud")))
    by (vm_compute; reflexivity).
  assert (Hreplicas : Replicas
                        (d_Spec (desiredOf (ingress "Cloud")
                                   "registry/router:v4.0" aws))
                      = Some (ci_Replicas (ci_Spec (ingress "Cloud"))))
    by (vm_compute; reflexivity).
  assert (Hget : Get (routerDeploymentName (ingress "Cloud")) zeroDeployment
                   (kube (cluster
                            (Some (desiredOf (ingress "Cloud")
                                     "registry/router:v4.0" aws)) true))
                 = ((desiredOf (ingress "Cloud") "registry/router:v4.0" aws,
                     None),
                    {| stored := Some (desiredOf (ingress "Cloud")
                                         "registry/router:v4.0" aws);
                       reachable := true |}))
    by reflexivity.
  apply (agreeing_deployment_is_left_alone config (ingress "Cloud") aws
           _ _ _ None _ desiredOf_cloud Hget).
  - discriminate.
  - exact Hsecret.
  - exact Hreplicas.
Defined.

End ReconcilerExamples.
